(** * decrypt_exdf.py: the .exdf cipher, the XML formatter and the tree mirror

    A shallow embedding of [decrypting-exdf-files/decrypt_exdf.py] and of the
    exit path of its sibling [decompile_assemblies.py].

    Python values are modelled as follows.
    - an [int] is a [Z]; a [bytes] object is a [list Z] all of whose elements
      lie in [range(256)]; a [str] is the list of its code points;
    - a raised exception is the [Raise] branch of [result];
    - a path is the list of its components relative to the folder it is
      looked up in (PosixPath semantics);
    - the input folder is a read-only tree, the output folder a finite map
      from paths to files and directories.

    What the model leaves out: the output folder is taken to lie outside the
    input folder; symbolic links, special files and every permission other
    than the readability of an input file are absent; [print] always
    succeeds; [shutil.copy2] copies content only.  Library behaviour follows
    CPython 3.11 ([pathlib], [shutil], [xml.etree.ElementTree]). *)

From Stdlib Require Import ZArith Ascii String List Lia Bool Sorted.
From Stdlib Require OrderedTypeEx.
From stdpp Require Import base option list gmap strings fin_maps.

Local Open Scope Z_scope.

(** ** Exceptions *)

(** The exception classes the script can meet, and one constructor for any
    other subclass of [Exception]. *)
Inductive exn :=
| ValueError
| UnicodeDecodeError
| UnicodeEncodeError
| ParseError
| FileNotFoundError
| IsADirectoryError
| NotADirectoryError
| FileExistsError
| PermissionError
| OtherException.

#[global] Instance exn_eq_dec : EqDecision exn.
Proof. solve_decision. Defined.

Inductive result (A : Type) :=
| Ok (a : A)
| Raise (e : exn).
Arguments Ok {A} a.
Arguments Raise {A} e.

#[global] Instance result_bind : MBind result := λ A B k r,
  match r with
  | Ok a => k a
  | Raise e => Raise e
  end.

#[global] Instance result_ret : MRet result := λ A a, Ok a.

#[global] Instance result_fmap : FMap result := λ A B f r,
  match r with
  | Ok a => Ok (f a)
  | Raise e => Raise e
  end.

(** ** Bytes *)

Definition in_range256 (b : Z) : bool := (0 <=? b) && (b <? 256).

Definition is_bytes (data : list Z) : Prop := Forall (λ b, 0 ≤ b < 256) data.

(** [bytes(iterable)]: [ValueError] unless every item is in [range(256)]. *)
Definition bytes_of (items : list Z) : result (list Z) :=
  if forallb in_range256 items then Ok items else Raise ValueError.

(** ** The cipher *)

Module Cipher.

(** [reverse_bits(byte)], statement by statement; [if byte & m:] tests the
    masked value against zero. *)
Definition reverse_bits (byte : Z) : Z :=
  let result := 0 in
  let result := if Z.land byte 0x01 =? 0 then result else Z.lor result 0x80 in
  let result := if Z.land byte 0x02 =? 0 then result else Z.lor result 0x40 in
  let result := if Z.land byte 0x04 =? 0 then result else Z.lor result 0x20 in
  let result := if Z.land byte 0x08 =? 0 then result else Z.lor result 0x10 in
  let result := if Z.land byte 0x10 =? 0 then result else Z.lor result 0x08 in
  let result := if Z.land byte 0x20 =? 0 then result else Z.lor result 0x04 in
  let result := if Z.land byte 0x40 =? 0 then result else Z.lor result 0x02 in
  let result := if Z.land byte 0x80 =? 0 then result else Z.lor result 0x01 in
  result.

(** [decrypt_exdf(data)]: two generator expressions, each rebuilt into a
    [bytes] object. *)
Definition decrypt_exdf (data : list Z) : result (list Z) :=
  reversed_data ← bytes_of (map reverse_bits data);
  decrypted ← bytes_of (map (λ b, Z.lxor b 0xAA) reversed_data);
  Ok decrypted.

(** The inverse the specification names: XOR with 0xAA first, then reverse
    the bits.  It is not part of the script; it is written here from the
    specification's words so that the round trip can be stated. *)
Definition decrypt_inverse (data : list Z) : result (list Z) :=
  xored ← bytes_of (map (λ b, Z.lxor b 0xAA) data);
  reversed_data ← bytes_of (map reverse_bits xored);
  Ok reversed_data.

(** Checks that are evaluated on each of the 256 byte values. *)
Definition all_bytes : list Z := map Z.of_nat (seq 0 256).

Definition bit_reversed (b : Z) : bool :=
  forallb (λ i, Bool.eqb (Z.testbit (reverse_bits b) i) (Z.testbit b (7 - i)))
    [0; 1; 2; 3; 4; 5; 6; 7].

Definition round_trip (b : Z) : bool :=
  (Z.lxor (reverse_bits (reverse_bits (Z.lxor b 0xAA))) 0xAA =? b) &&
  (reverse_bits (Z.lxor (Z.lxor (reverse_bits b) 0xAA) 0xAA) =? b).

Definition steps_differ (x : Z) : bool :=
  negb (Z.lxor (reverse_bits x) 0xAA =? reverse_bits (Z.lxor x 0xAA)).

End Cipher.


(** ** UTF-8 *)

(** Python's strict [utf-8] codec.  A [str] is the list of its code points. *)
Module Utf8.

Definition between (lo hi b : Z) : bool := (lo <=? b) && (b <=? hi).

(** A continuation byte contributes its low six bits. *)
Definition low6 (b : Z) : Z := Z.land b 0x3F.

(** [bytes.decode('utf-8')]: the well-formed byte sequences of the Unicode
    standard; overlong forms, surrogates and code points above U+10FFFF raise
    [UnicodeDecodeError]. *)
Fixpoint decode (data : list Z) {struct data} : result (list Z) :=
  match data with
  | [] => Ok []
  | b0 :: rest =>
    if between 0x00 0x7F b0 then cons b0 <$> decode rest
    else if between 0xC2 0xDF b0 then
      match rest with
      | b1 :: rest1 =>
        if between 0x80 0xBF b1
        then cons (Z.lor (Z.shiftl (Z.land b0 0x1F) 6) (low6 b1)) <$> decode rest1
        else Raise UnicodeDecodeError
      | _ => Raise UnicodeDecodeError
      end
    else if between 0xE0 0xEF b0 then
      match rest with
      | b1 :: b2 :: rest2 =>
        let lo1 := if b0 =? 0xE0 then 0xA0 else 0x80 in
        let hi1 := if b0 =? 0xED then 0x9F else 0xBF in
        if between lo1 hi1 b1 && between 0x80 0xBF b2
        then cons (Z.lor (Z.shiftl (Z.land b0 0x0F) 12)
                     (Z.lor (Z.shiftl (low6 b1) 6) (low6 b2))) <$> decode rest2
        else Raise UnicodeDecodeError
      | _ => Raise UnicodeDecodeError
      end
    else if between 0xF0 0xF4 b0 then
      match rest with
      | b1 :: b2 :: b3 :: rest3 =>
        let lo1 := if b0 =? 0xF0 then 0x90 else 0x80 in
        let hi1 := if b0 =? 0xF4 then 0x8F else 0xBF in
        if between lo1 hi1 b1 && between 0x80 0xBF b2 && between 0x80 0xBF b3
        then cons (Z.lor (Z.shiftl (Z.land b0 0x07) 18)
                     (Z.lor (Z.shiftl (low6 b1) 12)
                        (Z.lor (Z.shiftl (low6 b2) 6) (low6 b3)))) <$> decode rest3
        else Raise UnicodeDecodeError
      | _ => Raise UnicodeDecodeError
      end
    else Raise UnicodeDecodeError
  end.

Definition cont (c : Z) (shift : Z) : Z := Z.lor 0x80 (Z.land (Z.shiftr c shift) 0x3F).

(** The bytes of one code point; a surrogate cannot be encoded. *)
Definition encode_char (c : Z) : result (list Z) :=
  if between 0x00 0x7F c then Ok [c]
  else if between 0x80 0x7FF c then Ok [Z.lor 0xC0 (Z.shiftr c 6); cont c 0]
  else if between 0xD800 0xDFFF c then Raise UnicodeEncodeError
  else if between 0x800 0xFFFF c then
    Ok [Z.lor 0xE0 (Z.shiftr c 12); cont c 6; cont c 0]
  else if between 0x10000 0x10FFFF c then
    Ok [Z.lor 0xF0 (Z.shiftr c 18); cont c 12; cont c 6; cont c 0]
  else Raise UnicodeEncodeError.

(** [str.encode('utf-8')]. *)
Fixpoint encode (text : list Z) : result (list Z) :=
  match text with
  | [] => Ok []
  | c :: rest =>
    bs ← encode_char c;
    tl ← encode rest;
    Ok (bs ++ tl)
  end.

End Utf8.


(** ** xml.etree.ElementTree *)

(** A [str] literal from an ASCII string. *)
Definition str_of (s : string) : list Z :=
  map (λ a, Z.of_N (N_of_ascii a)) (list_ascii_of_string s).

Module ET.

(** An [Element]: tag, attributes in insertion order, text, children, tail.
    [None] is Python's [None]. *)
#[local] Unset Elimination Schemes.
Inductive Element :=
| Elem (tag : list Z) (attrib : list (list Z * list Z)) (text : option (list Z))
       (children : list Element) (tail : option (list Z)).
#[local] Set Elimination Schemes.

Definition tag (e : Element) := let 'Elem t _ _ _ _ := e in t.
Definition attrib (e : Element) := let 'Elem _ a _ _ _ := e in a.
Definition text (e : Element) := let 'Elem _ _ t _ _ := e in t.
Definition children (e : Element) := let 'Elem _ _ _ c _ := e in c.
Definition tail (e : Element) := let 'Elem _ _ _ _ t := e in t.

Definition set_tail (e : Element) (t : option (list Z)) : Element :=
  let 'Elem tg a tx c _ := e in Elem tg a tx c t.

(** The interface of the library the script calls: [ET.fromstring], which
    raises [ParseError] on malformed markup, and
    [ET.tostring(root, encoding='unicode')].  The parser is expat and is not
    part of the script, so the script is verified against any implementation
    of this interface. *)
Class Impl := {
  fromstring : list Z → result Element;
  tostring : Element → list Z
}.

(** The code points for which [str.isspace] holds; [str.strip()] removes
    exactly these. *)
Definition is_space (c : Z) : bool :=
  (9 <=? c) && (c <=? 13) || (0x1C <=? c) && (c <=? 0x20) ||
  (c =? 0x85) || (c =? 0xA0) || (c =? 0x1680) ||
  (0x2000 <=? c) && (c <=? 0x200A) || (c =? 0x2028) || (c =? 0x2029) ||
  (c =? 0x202F) || (c =? 0x205F) || (c =? 0x3000).

(** [not t or not t.strip()] *)
Definition blank (t : option (list Z)) : bool :=
  match t with
  | None => true
  | Some s => forallb is_space s
  end.

(** ["\n" + level * space] with [space = "  "]. *)
Definition indentation (level : nat) : list Z :=
  10 :: concat (replicate level [32; 32]).

(** The statement after the loop of [_indent_children]: the last child's
    tail, when only whitespace, becomes the parent's indentation. *)
Fixpoint dedent_last (ind : list Z) (cs : list Element) : list Element :=
  match cs with
  | [] => []
  | [child] =>
    match tail child with
    | Some t => if forallb is_space t then [set_tail child (Some ind)] else [child]
    | None => [child]
    end
  | c :: cs' => c :: dedent_last ind cs'
  end.

(** The body of the loop [for child in elem] of [_indent_children]; [recurse]
    is the recursive call one level down. *)
Definition indent_child (recurse : Element → Element) (child_indentation : list Z)
    (child : Element) : Element :=
  let child :=
    match children child with
    | [] => child
    | _ :: _ => recurse child
    end in
  if blank (tail child) then set_tail child (Some child_indentation) else child.

(** [_indent_children(elem, level)] of [ET.indent]; called on elements that
    have children. *)
Fixpoint _indent_children (level : nat) (elem : Element) : Element :=
  match elem with
  | Elem tg at_ tx cs tl =>
    let child_indentation := indentation (S level) in
    let tx := if blank tx then Some child_indentation else tx in
    let cs := map (indent_child (_indent_children (S level)) child_indentation) cs in
    Elem tg at_ tx (dedent_last (indentation level) cs) tl
  end.

(** [ET.indent(tree, space="  ")], returning the tree it would leave. *)
Definition indent (tree : Element) : Element :=
  match children tree with
  | [] => tree
  | _ :: _ => _indent_children 0 tree
  end.

(** The part of the loop body that indents below [e]. *)
Definition inner (level : nat) (e : Element) : Element :=
  match children e with
  | [] => e
  | _ :: _ => _indent_children level e
  end.

(** An element without its whitespace-only text: every [text] and [tail]
    that is [None], empty or made of white space is taken to [None]. *)
Fixpoint significant (e : Element) : Element :=
  match e with
  | Elem tg at_ tx cs tl =>
    Elem tg at_ (if blank tx then None else tx) (map significant cs)
         (if blank tl then None else tl)
  end.

(** No mixed content: an element that has children has no text of its own
    but white space, and no text but white space follows any of its
    children. *)
Fixpoint unmixed (e : Element) : bool :=
  match e with
  | Elem _ _ tx cs _ =>
    match cs with
    | [] => true
    | _ :: _ => blank tx && forallb (λ c, blank (tail c) && unmixed c) cs
    end
  end.

(** Laid out at [level]: in every element that has children, the text is a
    line break and the indentation of the children, and so is what follows
    each child but the last, which is followed by a line break and the
    indentation of the element itself. *)
Fixpoint indented (level : nat) (e : Element) : bool :=
  match e with
  | Elem _ _ tx cs _ =>
    match cs with
    | [] => true
    | _ :: _ =>
      bool_decide (tx = Some (indentation (S level))) &&
      bool_decide (map tail cs =
                   replicate (length cs - 1) (Some (indentation (S level))) ++
                   [Some (indentation level)]) &&
      forallb (indented (S level)) cs
    end
  end.

(** *** A reference implementation of the interface

    [_serialize_xml] for trees whose names carry no namespace, and a parser
    for the fragment of XML made of elements, attributes, character data,
    the five predefined entities and numeric character references.  They
    give the interface an inhabitant on which the script can be run. *)

(** [text.replace(c, rep)] for a one-character [c]. *)
Definition replace (c : Z) (rep : list Z) (text : list Z) : list Z :=
  flat_map (λ x, if x =? c then rep else [x]) text.

Definition _escape_cdata (text : list Z) : list Z :=
  let text := replace 38 (str_of "&amp;") text in
  let text := replace 60 (str_of "&lt;") text in
  let text := replace 62 (str_of "&gt;") text in
  text.

Definition _escape_attrib (text : list Z) : list Z :=
  let text := replace 38 (str_of "&amp;") text in
  let text := replace 60 (str_of "&lt;") text in
  let text := replace 62 (str_of "&gt;") text in
  let text := replace 34 (str_of "&quot;") text in
  let text := replace 13 (str_of "&#13;") text in
  let text := replace 10 (str_of "&#10;") text in
  let text := replace 9 (str_of "&#09;") text in
  text.

(** [if text:] on an optional string. *)
Definition truthy (t : option (list Z)) : list Z :=
  match t with
  | Some s => s
  | None => []
  end.

(** [_serialize_xml] with [qnames] the identity and no namespace table. *)
Fixpoint _serialize_xml (elem : Element) : list Z :=
  match elem with
  | Elem tg items tx cs tl =>
    str_of "<" ++ tg ++
    flat_map (λ '(k, v), str_of " " ++ k ++ str_of "=" ++ [34] ++ _escape_attrib v ++ [34]) items ++
    (match truthy tx, cs with
     | [], [] => str_of " />"
     | _, _ =>
       str_of ">" ++ _escape_cdata (truthy tx) ++
       flat_map _serialize_xml cs ++
       str_of "</" ++ tg ++ str_of ">"
     end) ++
    _escape_cdata (truthy tl)
  end.

(** Line ends are normalised before parsing: CR LF and a lone CR become
    LF. *)
Fixpoint normalize_eol (inp : list Z) : list Z :=
  match inp with
  | [] => []
  | 13 :: rest =>
    10 :: match rest with
          | 10 :: rest' => normalize_eol rest'
          | _ => normalize_eol rest
          end
  | c :: rest => c :: normalize_eol rest
  end.

Definition is_xml_space (c : Z) : bool :=
  (c =? 0x20) || (c =? 0x9) || (c =? 0xD) || (c =? 0xA).

(** The [Char] production of XML 1.0. *)
Definition is_xml_char (c : Z) : bool :=
  (c =? 0x9) || (c =? 0xA) || (c =? 0xD) ||
  (0x20 <=? c) && (c <=? 0xD7FF) || (0xE000 <=? c) && (c <=? 0xFFFD) ||
  (0x10000 <=? c) && (c <=? 0x10FFFF).

Definition is_alpha (c : Z) : bool :=
  (65 <=? c) && (c <=? 90) || (97 <=? c) && (c <=? 122).
Definition is_digit (c : Z) : bool := (48 <=? c) && (c <=? 57).
Definition is_name_start (c : Z) : bool := is_alpha c || (c =? 95).
Definition is_name_char (c : Z) : bool :=
  is_name_start c || is_digit c || (c =? 45) || (c =? 46).

Fixpoint skip_space (inp : list Z) : list Z :=
  match inp with
  | c :: rest => if is_xml_space c then skip_space rest else inp
  | [] => []
  end.

Fixpoint span (f : Z → bool) (inp : list Z) : list Z * list Z :=
  match inp with
  | c :: rest =>
    if f c then let '(a, b) := span f rest in (c :: a, b) else ([], inp)
  | [] => ([], [])
  end.

Definition parse_name (inp : list Z) : option (list Z * list Z) :=
  match inp with
  | c :: _ => if is_name_start c then Some (span is_name_char inp) else None
  | [] => None
  end.

Definition hex_value (c : Z) : option Z :=
  if is_digit c then Some (c - 48)
  else if (97 <=? c) && (c <=? 102) then Some (c - 87)
  else if (65 <=? c) && (c <=? 70) then Some (c - 55)
  else None.

Definition number (base : Z) (digits : list Z) : option Z :=
  match digits with
  | [] => None
  | _ =>
    foldl (λ acc d,
      a ← acc; v ← hex_value d;
      if v <? base then Some (Z.min 0x110000 (a * base + v)) else None) (Some 0) digits
  end.

(** What follows an ampersand: a predefined entity or a character
    reference, up to and including its semicolon. *)
Definition parse_reference (inp : list Z) : option (Z * list Z) :=
  let '(body, rest) := span (λ c, negb (c =? 59) && negb (c =? 60) && negb (c =? 38)) inp in
  match rest with
  | 59 :: rest' =>
    c ← (if decide (body = str_of "lt") then Some 60
         else if decide (body = str_of "gt") then Some 62
         else if decide (body = str_of "amp") then Some 38
         else if decide (body = str_of "quot") then Some 34
         else if decide (body = str_of "apos") then Some 39
         else match body with
              | 35 :: 120 :: digits => number 16 digits
              | 35 :: digits => number 10 digits
              | _ => None
              end);
    if is_xml_char c then Some (c, rest') else None
  | _ => None
  end.

(** Character data up to the next tag. *)
Fixpoint chardata (fuel : nat) (inp : list Z) : option (list Z * list Z) :=
  match fuel with
  | O => None
  | S fuel =>
    match inp with
    | [] => Some ([], [])
    | 60 :: _ => Some ([], inp)
    | 38 :: rest =>
      '(c, rest) ← parse_reference rest;
      '(t, rest) ← chardata fuel rest;
      Some (c :: t, rest)
    | 93 :: 93 :: 62 :: _ => None
    | c :: rest =>
      if is_xml_char c then
        '(t, rest) ← chardata fuel rest;
        Some (c :: t, rest)
      else None
    end
  end.

(** An attribute value up to its closing quote; literal white space is
    normalised to a space. *)
Fixpoint attvalue (fuel : nat) (quote : Z) (inp : list Z) : option (list Z * list Z) :=
  match fuel with
  | O => None
  | S fuel =>
    match inp with
    | [] => None
    | 60 :: _ => None
    | 38 :: rest =>
      '(c, rest) ← parse_reference rest;
      '(t, rest) ← attvalue fuel quote rest;
      Some (c :: t, rest)
    | c :: rest =>
      if c =? quote then Some ([], rest)
      else if is_xml_space c then
        '(t, rest) ← attvalue fuel quote rest;
        Some (32 :: t, rest)
      else if is_xml_char c then
        '(t, rest) ← attvalue fuel quote rest;
        Some (c :: t, rest)
      else None
    end
  end.

Definition has_key (k : list Z) (items : list (list Z * list Z)) : bool :=
  existsb (λ kv, bool_decide (kv.1 = k)) items.

(** The attributes of a start tag and its end: [true] for [/>]. *)
Fixpoint attributes (fuel : nat) (acc : list (list Z * list Z)) (inp : list Z)
  : option (list (list Z * list Z) * bool * list Z) :=
  match fuel with
  | O => None
  | S fuel =>
    match skip_space inp with
    | 62 :: rest => Some (acc, false, rest)
    | 47 :: 62 :: rest => Some (acc, true, rest)
    | rest =>
      if bool_decide (rest = inp) then None
      else
        '(k, rest) ← parse_name rest;
        match skip_space rest with
        | 61 :: rest =>
          match skip_space rest with
          | q :: rest =>
            if (q =? 34) || (q =? 39) then
              '(v, rest) ← attvalue (length rest) q rest;
              if has_key k acc then None
              else attributes fuel (acc ++ [(k, v)]) rest
            else None
          | [] => None
          end
        | _ => None
        end
    end
  end.

Definition text_of (t : list Z) : option (list Z) :=
  match t with
  | [] => None
  | _ => Some t
  end.

(** Content up to and including the end tag of the enclosing element [tg]:
    the leading text and the children, each with its tail. *)
Fixpoint content (fuel : nat) (tg : list Z) (inp : list Z)
  : option (option (list Z) * list Element * list Z) :=
  match fuel with
  | O => None
  | S fuel =>
    '(t, rest) ← chardata (S (length inp)) inp;
    match rest with
    | 60 :: 47 :: rest =>
      '(name, rest) ← parse_name rest;
      match skip_space rest with
      | 62 :: rest =>
        if bool_decide (name = tg) then Some (text_of t, [], rest) else None
      | _ => None
      end
    | 60 :: rest =>
      '(name, rest) ← parse_name rest;
      '(items, empty, rest) ← attributes (S (length rest)) [] rest;
      '(tx, cs, rest) ← (if empty : bool then Some (None, [], rest)
                         else content fuel name rest);
      '(tl, siblings, rest) ← content fuel tg rest;
      Some (text_of t, Elem name items tx cs tl :: siblings, rest)
    | _ => None
    end
  end.

(** The document: one root element, white space allowed around it. *)
Definition XML (source : list Z) : result Element :=
  let inp := normalize_eol source in
  match skip_space inp with
  | 60 :: rest =>
    match
      '(name, rest) ← parse_name rest;
      '(items, empty, rest) ← attributes (S (length rest)) [] rest;
      '(tx, cs, rest) ← (if empty : bool then Some (None, [], rest)
                         else content (length rest) name rest);
      match skip_space rest with
      | [] => Some (Elem name items tx cs None)
      | _ => None
      end
    with
    | Some root => Ok root
    | None => Raise ParseError
    end
  | _ => Raise ParseError
  end.

Definition reference : Impl := {| fromstring := XML; tostring := _serialize_xml |}.

End ET.


(** ** pathlib *)

(** PosixPath semantics.  A path is the list of its components below the
    folder it is relative to; file names are byte strings. *)
Module Pathlib.

Abbreviation path := (list string).

(** [str.rfind('.')]: the index of the last dot, [-1] when there is none. *)
Fixpoint rfind_dot (name : string) : Z :=
  match name with
  | EmptyString => -1
  | String a rest =>
    let i := rfind_dot rest in
    if 0 <=? i then i + 1
    else if Ascii.eqb a "." then 0 else -1
  end.

Definition len (name : string) : Z := Z.of_nat (String.length name).

(** [name[i:]] and [name[:i]] for [0 <= i]. *)
Definition slice_from (i : Z) (name : string) : string :=
  substring (Z.to_nat i) (String.length name - Z.to_nat i) name.
Definition slice_to (i : Z) (name : string) : string :=
  substring 0 (Z.to_nat i) name.

(** [PurePath.name] *)
Definition name (p : path) : string := List.last p EmptyString.

(** [PurePath.parent] *)
Definition parent (p : path) : path := removelast p.

(** [PurePath.suffix] *)
Definition suffix (p : path) : string :=
  let name := name p in
  let i := rfind_dot name in
  if (0 <? i) && (i <? len name - 1) then slice_from i name else EmptyString.

(** [PurePath.with_suffix(suffix)], for a well-formed [suffix] argument. *)
Definition with_suffix (p : path) (new_suffix : string) : result path :=
  let name := name p in
  if String.eqb name EmptyString then Raise ValueError
  else
    let old_suffix := suffix p in
    let name :=
      if String.eqb old_suffix EmptyString then name +:+ new_suffix
      else slice_to (len name - len old_suffix) name +:+ new_suffix in
    Ok (parent p ++ [name]).

(** [str.lower()] on ASCII letters. *)
Definition lower_ascii (a : ascii) : ascii :=
  let n := nat_of_ascii a in
  if (65 <=? n)%nat && (n <=? 90)%nat then ascii_of_nat (n + 32) else a.

Fixpoint lower (s : string) : string :=
  match s with
  | EmptyString => EmptyString
  | String a rest => String (lower_ascii a) (lower rest)
  end.

(** The compiled pattern of [fnmatch.translate("*.exdf")], matched in full
    and with case. *)
Definition match_star_exdf (name : string) : bool :=
  (5 <=? len name) && String.eqb (slice_from (len name - 5) name) ".exdf".

(** The pattern ["*"] matches every name. *)
Definition match_star (name : string) : bool := true.

(** [PurePath.__lt__]: the component lists compared lexicographically. *)
Fixpoint path_ltb (p q : path) : bool :=
  match p, q with
  | [], [] => false
  | [], _ :: _ => true
  | _ :: _, [] => false
  | a :: p', b :: q' =>
    match String.compare a b with
    | Lt => true
    | Gt => false
    | Eq => path_ltb p' q'
    end
  end.

(** [sorted]: a stable sort that only asks [<]. *)
Fixpoint insert_sorted (x : path) (l : list path) : list path :=
  match l with
  | [] => [x]
  | y :: l' => if path_ltb y x then y :: insert_sorted x l' else x :: l
  end.

Definition sorted (l : list path) : list path := foldr insert_sorted [] l.

End Pathlib.

(** ** The file system *)

Module Fs.
Import Pathlib.

(** The input folder: regular files, readable or not, and directories with
    their entries in [scandir] order. *)
#[local] Unset Elimination Schemes.
Inductive node :=
| File (readable : bool) (data : list Z)
| Dir (entries : list (string * node)).
#[local] Set Elimination Schemes.

(** The names in every directory are distinct. *)
Fixpoint wf_node (n : node) : bool :=
  match n with
  | File _ _ => true
  | Dir entries =>
    bool_decide (NoDup entries.*1) && forallb (λ e, wf_node e.2) entries
  end.

Definition is_file (n : node) : bool :=
  match n with
  | File _ _ => true
  | Dir _ => false
  end.

Fixpoint find_entry (nm : string) (entries : list (string * node)) : option node :=
  match entries with
  | [] => None
  | (k, n) :: rest => if String.eqb k nm then Some n else find_entry nm rest
  end.

Fixpoint lookup_node (root : node) (p : path) : option node :=
  match p with
  | [] => Some root
  | nm :: p' =>
    match root with
    | Dir entries => n ← find_entry nm entries; lookup_node n p'
    | File _ _ => None
    end
  end.

(** [Path.read_bytes()] *)
Definition read_bytes (root : node) (p : path) : result (list Z) :=
  match lookup_node root p with
  | None => Raise FileNotFoundError
  | Some (Dir _) => Raise IsADirectoryError
  | Some (File false _) => Raise PermissionError
  | Some (File true data) => Ok data
  end.

(** [_RecursiveWildcardSelector._iterate_directories]: the starting folder,
    then each sub-directory, depth first, in [scandir] order. *)
Fixpoint _iterate_directories (parent_path : path) (n : node)
  : list (path * list (string * node)) :=
  match n with
  | File _ _ => []
  | Dir entries =>
    (parent_path, entries) ::
    flat_map (λ '(nm, child), _iterate_directories (parent_path ++ [nm]) child) entries
  end.

(** [_WildcardSelector._select_from]: the entries of one directory whose
    name matches. *)
Definition _select_from (matches : string → bool) (dir : path * list (string * node))
  : list (path * node) :=
  let '(parent_path, entries) := dir in
  flat_map (λ '(nm, child), if matches nm then [(parent_path ++ [nm], child)] else []) entries.

(** [Path.rglob(pattern)], as paths relative to the folder searched. *)
Definition rglob (matches : string → bool) (root : node) : list (path * node) :=
  flat_map (_select_from matches) (_iterate_directories [] root).

(** The output folder: a finite map from relative paths to what is there;
    [[]] is the folder itself. *)
Inductive onode :=
| OFile (data : list Z)
| ODir.

#[global] Instance onode_eq_dec : EqDecision onode.
Proof. solve_decision. Defined.

(** The regular files of the output folder, with their content. *)
Definition file_data (n : onode) : option (list Z) :=
  match n with
  | OFile data => Some data
  | ODir => None
  end.

Definition files (s : gmap path onode) : gmap path (list Z) := omap file_data s.

(** The regular files below the input folder, as [rglob("*")] visits them. *)
Definition regular_files (root : node) : list (path * node) :=
  List.filter (λ found, is_file found.2) (rglob match_star root).

(** What the script prints, one constructor per [print] call. *)
Inductive line :=
| LUsage
| LExample
| LInputNotFound
| LFound (n : nat)
| LOutputDirectory
| LRule
| LDecrypted (rel_path : path)
| LFailed (name : string) (e : exn)
| LCopying
| LCopied (copied_count : nat)
| LDone (success failed copied_count : nat).

Record state := State {
  out : gmap path onode;
  console : list line
}.

(** Statements run in a state and either yield a value or raise. *)
Definition M (A : Type) : Type := state → result A * state.

#[global] Instance M_ret : MRet M := λ A a σ, (Ok a, σ).

#[global] Instance M_bind : MBind M := λ A B k m σ,
  match m σ with
  | (Ok a, σ') => k a σ'
  | (Raise e, σ') => (Raise e, σ')
  end.

Definition lift {A} (r : result A) : M A := λ σ, (r, σ).

Definition raise {A} (e : exn) : M A := λ σ, (Raise e, σ).

Definition print (l : line) : M unit :=
  λ σ, (Ok (), State (out σ) (console σ ++ [l])).

Definition get_out : M (gmap path onode) := λ σ, (Ok (out σ), σ).

Definition put (p : path) (n : onode) : M unit :=
  λ σ, (Ok (), State (<[p := n]> (out σ)) (console σ)).

(** [try: body except Exception as e: handler(e)] *)
Definition try_except {A} (body : M A) (handler : exn → M A) : M A := λ σ,
  match body σ with
  | (Raise e, σ') => handler e σ'
  | r => r
  end.

(** Path resolution by the kernel: every proper ancestor of [pre ++ comps]
    at or below [pre] has to be a directory. *)
Fixpoint walk (s : gmap path onode) (pre : path) (comps : list string) : result unit :=
  match comps with
  | [] => Ok ()
  | c :: cs =>
    match s !! pre with
    | Some ODir => walk s (pre ++ [c]) cs
    | Some (OFile _) => Raise NotADirectoryError
    | None => Raise FileNotFoundError
    end
  end.

(** [Path.is_dir()] *)
Definition is_dir (p : path) : M bool :=
  s ← get_out;
  mret (match walk s [] p, s !! p with
        | Ok _, Some ODir => true
        | _, _ => false
        end).

(** [os.mkdir(p)].  The ancestors of the output folder itself are taken to
    exist. *)
Definition os_mkdir (p : path) : M unit :=
  s ← get_out;
  lift (walk s [] p);;
  match s !! p with
  | Some _ => raise FileExistsError
  | None => put p ODir
  end.

(** The second call of [Path.mkdir]: [self.mkdir(mode, parents=False,
    exist_ok=True)]. *)
Definition mkdir_here (p : path) : M unit :=
  try_except (os_mkdir p) (λ e,
    match e with
    | FileNotFoundError => raise e
    | _ => d ← is_dir p; if d : bool then mret () else raise e
    end).

(** [Path.mkdir(parents=True, exist_ok=True)], by recursion on the path
    read from its last component. *)
Fixpoint mkdir_rev (rp : list string) : M unit :=
  try_except (os_mkdir (rev rp)) (λ e,
    match e with
    | FileNotFoundError =>
      match rp with
      | [] => raise e
      | _ :: rq => mkdir_rev rq;; mkdir_here (rev rp)
      end
    | _ => d ← is_dir (rev rp); if d : bool then mret () else raise e
    end).

Definition mkdir (p : path) : M unit := mkdir_rev (rev p).

(** [open(p, 'w')] or [open(p, 'wb')]: the file is created or truncated. *)
Definition open_w (p : path) : M unit :=
  s ← get_out;
  lift (walk s [] p);;
  match s !! p with
  | Some ODir => raise IsADirectoryError
  | _ => put p (OFile [])
  end.

(** [Path.write_text(data, encoding='utf-8')]: the text is encoded once the
    file is open. *)
Definition write_text (p : path) (data : list Z) : M unit :=
  open_w p;;
  bs ← lift (Utf8.encode data);
  put p (OFile bs).

(** [shutil.copy2(src, dst)] from the input folder into the output folder;
    only the content is modelled. *)
Definition copy2 (root : node) (src dst : path) : M unit :=
  d ← is_dir dst;
  let dst := if d : bool then dst ++ [name src] else dst in
  data ← lift (read_bytes root src);
  open_w dst;;
  put dst (OFile data).

(** A statement that prints nothing. *)
Definition silent {A} (m : M A) : Prop := ∀ σ, console (m σ).2 = console σ.

(** A statement whose result and whose effect on the output folder do not
    depend on what was printed before it, and that only adds lines. *)
Definition uniform {A} (m : M A) : Prop := ∀ s c,
  m (State s c) =
  ((m (State s [])).1,
   State (out (m (State s [])).2) (c ++ console (m (State s [])).2)).

(** Every entry of the output folder other than the folder itself sits in a
    directory. *)
Definition wf_store (s : gmap path onode) : Prop :=
  ∀ q c, is_Some (s !! (q ++ [c])) → s !! q = Some ODir.

(** The output folder after the files [done] have been written into it:
    the folder exists, its regular files are exactly [done], and its
    directories are ancestors of them. *)
Definition holds (s : gmap path onode) (done : list (path * list Z)) : Prop :=
  wf_store s ∧ s !! [] = Some ODir ∧
  (∀ q d, s !! q = Some (OFile d) ↔ (q, d) ∈ done) ∧
  (∀ q, s !! q = Some ODir → q = [] ∨ ∃ p, p ∈ done.*1 ∧ q ≠ p ∧ q `prefix_of` p).

(** [p] is neither above, below nor at any of [ps]. *)
Definition apart (p : path) (ps : list path) : Prop :=
  ∀ p', p' ∈ ps → ¬ p `prefix_of` p' ∧ ¬ p' `prefix_of` p.

(** No two paths of the list are equal or one above the other. *)
Fixpoint all_apart (ps : list path) : Prop :=
  match ps with
  | [] => True
  | p :: ps' => apart p ps' ∧ all_apart ps'
  end.

Fixpoint no_conflict (ps : list path) : bool :=
  match ps with
  | [] => true
  | p :: ps' =>
    forallb (λ q, negb (bool_decide (p `prefix_of` q)) &&
                  negb (bool_decide (q `prefix_of` p))) ps' &&
    no_conflict ps'
  end.

(** What the copy loop is to write: the regular files whose lowered suffix
    is not [.exdf], where they are. *)
Definition copy_jobs (found : list (path * node)) : list (path * list Z) :=
  flat_map (λ '(p, n),
    match n with
    | File _ data =>
      if String.eqb (lower (suffix p)) ".exdf" then [] else [(p, data)]
    | Dir _ => []
    end) found.

(** *** Relations between two states of the output folder *)

(** What one system call can do to the output folder at [p]: nothing, make
    a directory where nothing was, or create or replace a regular file where
    no directory is. *)
Inductive wrote (s : gmap path onode) (p : path) : gmap path onode → Prop :=
| wrote_nothing : wrote s p s
| wrote_dir : s !! p = None → wrote s p (<[p := ODir]> s)
| wrote_file d : s !! p ≠ Some ODir → wrote s p (<[p := OFile d]> s).

(** [s'] has every entry of [s], and every directory of [s] as a directory. *)
Definition extends (s s' : gmap path onode) : Prop :=
  ∀ r, (is_Some (s !! r) → is_Some (s' !! r)) ∧
       (s !! r = Some ODir → s' !! r = Some ODir).

(** [s'] is [s] at every path outside [P]. *)
Definition same_outside (P : path → Prop) (s s' : gmap path onode) : Prop :=
  ∀ r, ¬ P r → s' !! r = s !! r.

(** A statement that takes the output folder to one related by [R]. *)
Definition steps (R : gmap path onode → gmap path onode → Prop) {A} (m : M A) : Prop :=
  ∀ σ, R (out σ) (out (m σ).2).

End Fs.

(** ** The script *)

Module Script.
Import Pathlib Fs.
Export Cipher.

Section WithLibrary.
Context {lib : ET.Impl}.

(** [pretty_print_xml(xml_string)]: only [ET.ParseError] is caught. *)
Definition pretty_print_xml (xml_string : list Z) : result (list Z) :=
  match ET.fromstring xml_string with
  | Ok root => Ok (ET.tostring (ET.indent root))
  | Raise ParseError => Ok xml_string
  | Raise e => Raise e
  end.

(** The body of the [try] block of [decrypt_exdf_file]. *)
Definition try_body (root : node) (input_path output_path : path) : M bool :=
  encrypted_data ← lift (read_bytes root input_path);
  decrypted_data ← lift (decrypt_exdf encrypted_data);
  xml_string ← lift (Utf8.decode decrypted_data);
  formatted_xml ← lift (pretty_print_xml xml_string);
  mkdir (parent output_path);;
  write_text output_path formatted_xml;;
  mret true.

(** [decrypt_exdf_file(input_path, output_path)]; [input_path] is looked up
    in the input folder [root]. *)
Definition decrypt_exdf_file (root : node) (input_path output_path : path) : M bool :=
  try_except (try_body root input_path output_path)
    (λ e, print (LFailed (name input_path) e);; mret false).

(** The loop [for exdf_file in sorted(exdf_files)] of [main]. *)
Fixpoint decrypt_loop (root : node) (exdf_files : list path) (success failed : nat)
  : M (nat * nat) :=
  match exdf_files with
  | [] => mret (success, failed)
  | exdf_file :: rest =>
    let rel_path := exdf_file in
    output_rel_path ← lift (with_suffix rel_path ".xml");
    let output_path := output_rel_path in
    ok ← decrypt_exdf_file root exdf_file output_path;
    if ok : bool then
      print (LDecrypted rel_path);;
      decrypt_loop root rest (S success) failed
    else decrypt_loop root rest success (S failed)
  end.

(** What the loop over the [.exdf] files does, file by file: each path of
    the list, in order, is passed to [decrypt_exdf_file] in the state the
    paths before it left, whatever they returned; [oks] lists what the calls
    returned, and a call that returned [True] is followed by its [✓] line. *)
Inductive visits (root : node) : list path → state → list bool → state → Prop :=
| visits_nil σ : visits root [] σ [] σ
| visits_cons exdf_file output_path rest σ ok σ1 oks σ' :
    with_suffix exdf_file ".xml" = Ok output_path →
    decrypt_exdf_file root exdf_file output_path σ = (Ok ok, σ1) →
    visits root rest
      (if ok : bool then State (out σ1) (console σ1 ++ [LDecrypted exdf_file]) else σ1)
      oks σ' →
    visits root (exdf_file :: rest) σ (ok :: oks) σ'.

(** The loop [for file_path in input_folder.rglob("*")] of [main]. *)
Fixpoint copy_loop (root : node) (found : list (path * node)) (copied_count : nat)
  : M nat :=
  match found with
  | [] => mret copied_count
  | (file_path, n) :: rest =>
    if is_file n then
      if String.eqb (lower (suffix file_path)) ".exdf" then
        copy_loop root rest copied_count
      else
        let rel_path := file_path in
        let dest_path := rel_path in
        mkdir (parent dest_path);;
        copy2 root file_path dest_path;;
        copy_loop root rest (S copied_count)
    else copy_loop root rest copied_count
  end.

(** How [main] ends: [sys.exit(status)] or by reaching its last statement. *)
Inductive ending :=
| Exit (status : Z)
| Completed.

(** [main()].  [input_folder] is what [sys.argv[1]] resolves to, [None] when
    nothing exists there; the state holds what is below [sys.argv[2]]. *)
Definition main (argv : list string) (input_folder : option node) : M ending :=
  if bool_decide (length argv ≠ 3%nat) then
    print LUsage;; print LExample;; mret (Exit 1)
  else
    match input_folder with
    | None => print LInputNotFound;; mret (Exit 1)
    | Some root =>
      let exdf_files := (rglob match_star_exdf root).*1 in
      print (LFound (length exdf_files));;
      print LOutputDirectory;;
      print LRule;;
      mkdir [];;
      '(success, failed) ← decrypt_loop root (sorted exdf_files) 0%nat 0%nat;
      print LRule;;
      print LCopying;;
      copied_count ← copy_loop root (rglob match_star root) 0%nat;
      print (LCopied copied_count);;
      print LRule;;
      print (LDone success failed copied_count);;
      mret Completed
    end.

(** The status the interpreter exits with: the argument of [sys.exit], 0
    when [main] returns, 1 when an exception is not caught. *)
Definition exit_status (r : result ending) : Z :=
  match r with
  | Ok (Exit status) => status
  | Ok Completed => 0
  | Raise _ => 1
  end.

(** The bytes [decrypt_exdf_file] writes for an input file with content
    [data]. *)
Definition transform (data : list Z) : result (list Z) :=
  decrypted_data ← decrypt_exdf data;
  xml_string ← Utf8.decode decrypted_data;
  formatted_xml ← pretty_print_xml xml_string;
  Utf8.encode formatted_xml.

(** An entry matched by [*.exdf] that is a readable regular file, named
    with more than the extension, whose content the script can transform. *)
Definition transformable (found : path * node) : Prop :=
  name found.1 ≠ ".exdf"%string ∧
  ∃ data bs, found.2 = File true data ∧ transform data = Ok bs.

(** Where the script writes the decrypted form of [p]. *)
Definition xml_path (p : path) : path :=
  match with_suffix p ".xml" with
  | Ok q => q
  | Raise _ => p
  end.

(** The path and the bytes the first loop writes for [p]. *)
Definition xml_job (root : node) (p : path) : path * list Z :=
  (xml_path p,
   match read_bytes root p with
   | Ok data => match transform data with Ok bs => bs | Raise _ => [] end
   | Raise _ => []
   end).

End WithLibrary.

(** An entry that, when it is a regular file not matched by [*.exdf], is
    readable and has a suffix other than [.exdf] in any case. *)
Definition copyable (found : path * node) : Prop :=
  is_file found.2 = true → match_star_exdf (name found.1) = false →
  lower (suffix found.1) ≠ ".exdf"%string ∧ ∃ data, found.2 = File true data.

(** The output paths of a run: one for each entry matched by [*.exdf] and
    one for each file the copy loop does not skip. *)
Definition planned (root : node) : list path :=
  map xml_path (rglob match_star_exdf root).*1 ++
  (copy_jobs (rglob match_star root)).*1.

(** The line a file leaves on the console: its relative path when it was
    decrypted, its name and the exception when it was not. *)
Definition outcome_line (p : path) (l : line) : Prop :=
  l = LDecrypted p ∨ ∃ e, l = LFailed (name p) e.

Definition is_decrypted (l : line) : bool :=
  match l with
  | LDecrypted _ => true
  | _ => false
  end.

End Script.

(** The last statement of [main] in [decompile_assemblies.py]:
    [sys.exit(0 if failed == 0 else 1)]. *)
Module Decompile.

Definition main_exit (failed : nat) : Z := if (failed =? 0)%nat then 0 else 1.

End Decompile.


(** * Properties *)

(** ** The cipher *)

Module CipherFacts.
Import Cipher.

(** A property checked on the 256 byte values holds of every byte. *)
Lemma byte_forall (P : Z → bool) :
  forallb P all_bytes = true → ∀ b, 0 ≤ b < 256 → P b = true.
Proof.
  intros Hall b Hb. rewrite forallb_forall in Hall. apply Hall.
  unfold all_bytes. apply in_map_iff. exists (Z.to_nat b). split; [lia|].
  apply in_seq. lia.
Qed.

Lemma bytes_of_ok (items : list Z) : is_bytes items → bytes_of items = Ok items.
Proof.
  intros H. unfold bytes_of.
  replace (forallb in_range256 items) with true; [done|].
  symmetry. apply forallb_forall. intros b Hb%list_elem_of_In.
  unfold is_bytes in H. rewrite Forall_forall in H. specialize (H b Hb).
  unfold in_range256. apply andb_true_intro. split; [apply Z.leb_le|apply Z.ltb_lt]; lia.
Qed.

(** [reverse_bits] only ever sets bits 0 to 7, whatever integer it is given. *)
Lemma reverse_bits_range (b : Z) : 0 ≤ reverse_bits b < 256.
Proof.
  unfold reverse_bits.
  repeat match goal with |- context [if ?c then _ else _] => destruct c end;
    vm_compute; split; congruence.
Qed.

Lemma xor_AA_range (b : Z) : 0 ≤ b < 256 → 0 ≤ Z.lxor b 0xAA < 256.
Proof.
  intros Hb.
  assert (H := byte_forall (λ b, in_range256 (Z.lxor b 0xAA)) eq_refl b Hb).
  unfold in_range256 in H. apply andb_prop in H as [H1 H2].
  apply Z.leb_le in H1. apply Z.ltb_lt in H2. lia.
Qed.

Lemma reversed_is_bytes (data : list Z) : is_bytes (map reverse_bits data).
Proof. apply Forall_forall. intros b [x [-> _]]%list_elem_of_fmap. apply reverse_bits_range. Qed.

Lemma xored_is_bytes (data : list Z) :
  is_bytes data → is_bytes (map (λ b, Z.lxor b 0xAA) data).
Proof.
  intros H. apply Forall_forall. intros b [x [-> Hx]]%list_elem_of_fmap.
  apply xor_AA_range. unfold is_bytes in H. rewrite Forall_forall in H. auto.
Qed.

(** The script's function as one map. *)
Lemma decrypt_exdf_map (data : list Z) :
  decrypt_exdf data = Ok (map (λ b, Z.lxor (reverse_bits b) 0xAA) data).
Proof.
  unfold decrypt_exdf.
  rewrite (bytes_of_ok _ (reversed_is_bytes data)). cbn.
  rewrite (bytes_of_ok _ (xored_is_bytes _ (reversed_is_bytes data))). cbn.
  by rewrite map_map.
Qed.

Lemma decrypt_inverse_map (data : list Z) :
  is_bytes data →
  decrypt_inverse data = Ok (map (λ b, reverse_bits (Z.lxor b 0xAA)) data).
Proof.
  intros H. unfold decrypt_inverse.
  rewrite (bytes_of_ok _ (xored_is_bytes _ H)). cbn.
  rewrite (bytes_of_ok _ (reversed_is_bytes _)). cbn.
  by rewrite map_map.
Qed.

Lemma reverse_bits_testbit (b : Z) :
  0 ≤ b < 256 → ∀ i, 0 ≤ i < 8 → Z.testbit (reverse_bits b) i = Z.testbit b (7 - i).
Proof.
  intros Hb i Hi.
  assert (H := byte_forall bit_reversed eq_refl b Hb).
  unfold bit_reversed in H. rewrite forallb_forall in H.
  apply Bool.eqb_prop, H.
  assert (i = 0 ∨ i = 1 ∨ i = 2 ∨ i = 3 ∨ i = 4 ∨ i = 5 ∨ i = 6 ∨ i = 7) as Hc by lia.
  cbn. intuition.
Qed.

(** C2: [decrypt_exdf] returns on every byte sequence, the empty one
    included; each output byte is the input byte with its eight bits
    reversed (bit [i] of the reversal is bit [7 - i] of the input) and then
    XOR-ed with 0xAA; 0x00, 0xFF and 0x01 go to 0xAA, 0x55 and 0x2A. *)
Theorem decrypt_exdf_total_per_byte (data : list Z) (Hdata : is_bytes data) :
  (∃ out, decrypt_exdf data = Ok out ∧ is_bytes out ∧ length out = length data ∧
     ∀ (k : nat) b, data !! k = Some b →
       out !! k = Some (Z.lxor (reverse_bits b) 0xAA) ∧
       0 ≤ reverse_bits b < 256 ∧
       ∀ i, 0 ≤ i < 8 → Z.testbit (reverse_bits b) i = Z.testbit b (7 - i)) ∧
  decrypt_exdf [] = Ok [] ∧
  decrypt_exdf [0x00] = Ok [0xAA] ∧
  decrypt_exdf [0xFF] = Ok [0x55] ∧
  decrypt_exdf [0x01] = Ok [0x2A].
Proof.
  split; [|by repeat split].
  exists (map (λ b, Z.lxor (reverse_bits b) 0xAA) data).
  split; [apply decrypt_exdf_map|].
  split.
  { rewrite <- (map_map reverse_bits (λ b, Z.lxor b 0xAA)).
    apply xored_is_bytes, reversed_is_bytes. }
  split; [by rewrite length_map|].
  intros k b Hk. split; [|split].
  - change (map ?f data) with (f <$> data). by rewrite list_lookup_fmap, Hk.
  - apply reverse_bits_range.
  - apply reverse_bits_testbit.
    unfold is_bytes in Hdata. rewrite Forall_forall in Hdata.
    apply Hdata. by eapply list_elem_of_lookup_2.
Qed.

Lemma decrypt_exdf_total_per_byte_witness :
  is_bytes [0x3C; 0x00; 0xFF] ∧
  ∃ out, decrypt_exdf [0x3C; 0x00; 0xFF] = Ok out ∧ is_bytes out.
Proof.
  assert (Hb : is_bytes [0x3C; 0x00; 0xFF]) by (repeat constructor; lia).
  split; [exact Hb|].
  destruct (decrypt_exdf_total_per_byte _ Hb) as [[out [H1 [H2 _]]] _].
  by exists out.
Defined.

Lemma round_trip_byte (b : Z) :
  0 ≤ b < 256 →
  Z.lxor (reverse_bits (reverse_bits (Z.lxor b 0xAA))) 0xAA = b ∧
  reverse_bits (Z.lxor (Z.lxor (reverse_bits b) 0xAA) 0xAA) = b.
Proof.
  intros Hb. assert (H := byte_forall round_trip eq_refl b Hb).
  unfold round_trip in H. apply andb_prop in H as [H1 H2].
  split; by apply Z.eqb_eq.
Qed.

Lemma map_id_on {A} (f : A → A) (l : list A) :
  (∀ x, x ∈ l → f x = x) → map f l = l.
Proof.
  induction l as [|x l IH]; intros H; [done|]. cbn.
  rewrite H by left. rewrite IH; [done|]. intros y Hy. apply H. by right.
Qed.

(** C3: with [decrypt_inverse] the XOR with 0xAA followed by the bit
    reversal, decrypting an inverted sequence gives the sequence back, and so
    does inverting a decrypted one. *)
Theorem decrypt_inverse_round_trip (b : list Z) (Hb : is_bytes b) :
  (x ← decrypt_inverse b; decrypt_exdf x) = Ok b ∧
  (y ← decrypt_exdf b; decrypt_inverse y) = Ok b.
Proof.
  unfold is_bytes in Hb. rewrite Forall_forall in Hb.
  split.
  - rewrite decrypt_inverse_map by by apply Forall_forall.
    cbn. rewrite decrypt_exdf_map, map_map. f_equal.
    apply map_id_on. intros x Hx. by apply round_trip_byte, Hb.
  - rewrite decrypt_exdf_map. cbn.
    rewrite decrypt_inverse_map.
    + rewrite map_map. f_equal.
      apply map_id_on. intros x Hx. by apply round_trip_byte, Hb.
    + rewrite <- (map_map reverse_bits (λ b, Z.lxor b 0xAA)).
      apply xored_is_bytes, reversed_is_bytes.
Qed.

Lemma decrypt_inverse_round_trip_witness :
  is_bytes [0x3C; 0x00; 0xFF; 0x80] ∧
  (x ← decrypt_inverse [0x3C; 0x00; 0xFF; 0x80]; decrypt_exdf x)
    = Ok [0x3C; 0x00; 0xFF; 0x80].
Proof.
  assert (Hb : is_bytes [0x3C; 0x00; 0xFF; 0x80]) by (repeat constructor; lia).
  split; [exact Hb|]. exact (proj1 (decrypt_inverse_round_trip _ Hb)).
Defined.

(** C9: reversing the bits and then XOR-ing with 0xAA differs from XOR-ing
    first and reversing afterwards, on every byte; so the cipher and the
    transform with the two steps swapped disagree on every non-empty byte
    sequence. *)
Theorem steps_do_not_commute (x : Z) (Hx : 0 ≤ x < 256) :
  Z.lxor (reverse_bits x) 0xAA ≠ reverse_bits (Z.lxor x 0xAA) ∧
  ∀ data, is_bytes data → decrypt_exdf (x :: data) ≠ decrypt_inverse (x :: data).
Proof.
  assert (Hne : Z.lxor (reverse_bits x) 0xAA ≠ reverse_bits (Z.lxor x 0xAA)).
  { assert (H := byte_forall steps_differ eq_refl x Hx).
    unfold steps_differ in H. apply negb_true_iff, Z.eqb_neq in H. exact H. }
  split; [exact Hne|].
  intros data Hdata.
  rewrite decrypt_exdf_map, decrypt_inverse_map by by constructor.
  cbn. intros [= H _]. by apply Hne.
Qed.

Lemma steps_do_not_commute_witness :
  0 ≤ 0x01 < 256 ∧ Z.lxor (reverse_bits 0x01) 0xAA ≠ reverse_bits (Z.lxor 0x01 0xAA).
Proof.
  assert (Hx : 0 ≤ 0x01 < 256) by lia.
  split; [exact Hx|]. exact (proj1 (steps_do_not_commute 0x01 Hx)).
Defined.

End CipherFacts.

(** ** The formatter *)

Module FormatFacts.
Import ET Script.

(** Induction on elements, with the hypothesis for every child. *)
Lemma Element_ind (P : Element → Prop) :
  (∀ tg at_ tx cs tl, Forall P cs → P (Elem tg at_ tx cs tl)) → ∀ e, P e.
Proof.
  intros step. fix IH 1. intros [tg at_ tx cs tl]. apply step.
  induction cs as [|c cs IHcs]; constructor; [apply IH|apply IHcs].
Qed.

Lemma indentation_blank (level : nat) : forallb is_space (indentation level) = true.
Proof.
  unfold indentation. cbn [forallb]. rewrite andb_true_l.
  induction level as [|n IH]; [done|]. cbn. exact IH.
Qed.

Lemma children_set_tail e t : children (set_tail e t) = children e.
Proof. by destruct e. Qed.

Lemma tail_set_tail e t : tail (set_tail e t) = t.
Proof. by destruct e. Qed.

Lemma set_tail_set_tail e t u : set_tail (set_tail e t) u = set_tail e u.
Proof. by destruct e. Qed.

Lemma set_tail_tail e : set_tail e (tail e) = e.
Proof. by destruct e. Qed.

Lemma _indent_children_set_tail level e t :
  _indent_children level (set_tail e t) = set_tail (_indent_children level e) t.
Proof. by destruct e. Qed.

Lemma tail__indent_children level e : tail (_indent_children level e) = tail e.
Proof. by destruct e. Qed.

Lemma dedent_last_nil ind cs : dedent_last ind cs = [] ↔ cs = [].
Proof.
  destruct cs as [|c [|c' cs]]; cbn; [done| |done].
  destruct (tail c) as [t|]; [destruct (forallb is_space t)|]; done.
Qed.

Lemma children__indent_children_nil level e :
  children (_indent_children level e) = [] ↔ children e = [].
Proof.
  destruct e as [tg at_ tx cs tl]. cbn. rewrite dedent_last_nil.
  destruct cs; cbn; done.
Qed.

(** What the loop body does to a child, in terms of the child's own
    indentation [r] and tail. *)
Lemma indent_child_eq recurse ci child :
  indent_child recurse ci child =
  let r := match children child with [] => child | _ :: _ => recurse child end in
  if blank (tail r) then set_tail r (Some ci) else r.
Proof. done. Qed.

Lemma indent_child_inner level ci child :
  indent_child (_indent_children level) ci child =
  if blank (tail (inner level child)) then set_tail (inner level child) (Some ci)
  else inner level child.
Proof. done. Qed.

Lemma tail_inner level e : tail (inner level e) = tail e.
Proof. unfold inner. destruct (children e); [done|apply tail__indent_children]. Qed.

Lemma inner_set_tail level e t : inner level (set_tail e t) = set_tail (inner level e) t.
Proof.
  unfold inner. rewrite children_set_tail.
  destruct (children e); [done|apply _indent_children_set_tail].
Qed.

Lemma inner_inner level e :
  _indent_children level (_indent_children level e) = _indent_children level e →
  inner level (inner level e) = inner level e.
Proof.
  intros IH. unfold inner at 2 3. destruct (children e) eqn:Hc.
  - unfold inner. by rewrite Hc.
  - unfold inner.
    destruct (children (_indent_children level e)) eqn:Hc'; [done|exact IH].
Qed.

Lemma inner_indent_child level ci c :
  _indent_children level (_indent_children level c) = _indent_children level c →
  inner level (indent_child (_indent_children level) ci c)
  = indent_child (_indent_children level) ci c.
Proof.
  intros IH. rewrite indent_child_inner.
  destruct (blank (tail (inner level c))).
  - by rewrite inner_set_tail, inner_inner.
  - by apply inner_inner.
Qed.

Lemma indent_child_idem level c :
  _indent_children level (_indent_children level c) = _indent_children level c →
  let step := indent_child (_indent_children level) (indentation level) in
  step (step c) = step c.
Proof.
  intros IH step. unfold step at 1. rewrite indent_child_inner.
  unfold step. rewrite inner_indent_child by done.
  rewrite indent_child_inner.
  destruct (blank (tail (inner level c))) eqn:Hb.
  - rewrite tail_set_tail. cbn [blank]. rewrite indentation_blank.
    by rewrite set_tail_set_tail.
  - by rewrite Hb.
Qed.

Lemma dedent_last_cons ind c cs :
  cs ≠ [] → dedent_last ind (c :: cs) = c :: dedent_last ind cs.
Proof. by destruct cs. Qed.

(** The last child: dedented, indented again as a child and dedented
    again, it is as after the first time. *)
Lemma dedent_step_last level ind c :
  forallb is_space ind = true →
  _indent_children level (_indent_children level c) = _indent_children level c →
  let step := indent_child (_indent_children level) (indentation level) in
  dedent_last ind (map step (dedent_last ind [step c])) = dedent_last ind [step c].
Proof.
  intros Hind IH step.
  assert (Hinner : inner level (step c) = step c) by by apply inner_indent_child.
  assert (Hidem : step (step c) = step c) by by apply indent_child_idem.
  cbn [dedent_last].
  destruct (tail (step c)) as [t|] eqn:Ht.
  - destruct (forallb is_space t) eqn:Hsp.
    + cbn [map]. unfold step at 1. rewrite indent_child_inner.
      rewrite inner_set_tail, Hinner, tail_set_tail. cbn [blank]. rewrite Hind.
      rewrite set_tail_set_tail. cbn [dedent_last].
      rewrite tail_set_tail, indentation_blank. by rewrite set_tail_set_tail.
    + cbn [map]. rewrite Hidem. cbn [dedent_last]. by rewrite Ht, Hsp.
  - cbn [map]. rewrite Hidem. cbn [dedent_last]. by rewrite Ht.
Qed.

Lemma indent_loop_idem level ind cs :
  forallb is_space ind = true →
  Forall (λ c, _indent_children level (_indent_children level c)
               = _indent_children level c) cs →
  let step := indent_child (_indent_children level) (indentation level) in
  dedent_last ind (map step (dedent_last ind (map step cs)))
  = dedent_last ind (map step cs).
Proof.
  intros Hind Hall step. induction Hall as [|c cs Hc Hcs IH]; [done|].
  destruct cs as [|c' cs].
  - by apply dedent_step_last.
  - assert (Hne : map step (c' :: cs) ≠ []) by done.
    assert (Hne' : dedent_last ind (map step (c' :: cs)) ≠ [])
      by (by rewrite dedent_last_nil).
    change (map step (c :: c' :: cs)) with (step c :: map step (c' :: cs)).
    rewrite (dedent_last_cons ind (step c)) by done.
    change (map step (step c :: ?l)) with (step (step c) :: map step l).
    rewrite dedent_last_cons.
    + rewrite IH. f_equal. by apply indent_child_idem.
    + intros Hnil. apply Hne'. by destruct (dedent_last ind (map step (c' :: cs))).
Qed.

Lemma _indent_children_idem (e : Element) :
  ∀ level, _indent_children level (_indent_children level e) = _indent_children level e.
Proof.
  induction e as [tg at_ tx cs tl IH] using Element_ind. intros level.
  cbn [_indent_children]. f_equal.
  - destruct (blank tx) eqn:Hb.
    + cbn [blank]. by rewrite indentation_blank.
    + by rewrite Hb.
  - apply (indent_loop_idem (S level)); [apply indentation_blank|].
    eapply Forall_impl; [exact IH|]. cbn. intros c Hc. apply Hc.
Qed.

(** [ET.indent] leaves an indented tree as it is. *)
Lemma indent_idem (tree : Element) : indent (indent tree) = indent tree.
Proof.
  unfold indent at 2 3. destruct (children tree) eqn:Hc.
  - unfold indent. by rewrite Hc.
  - unfold indent.
    destruct (children (_indent_children 0 tree)) eqn:Hc'; [done|].
    apply _indent_children_idem.
Qed.

Section WithLibrary.
Context {lib : Impl}.

(** C6: when [ET.fromstring] raises [ParseError], [pretty_print_xml] returns
    its argument unchanged, and [decrypt_exdf_file] goes on to create the
    parent directory and to write that very text. *)
Theorem pretty_print_xml_parse_error (xml_string : list Z)
    (Hparse : fromstring xml_string = Raise ParseError) :
  pretty_print_xml xml_string = Ok xml_string ∧
  ∀ root input_path output_path data decrypted σ,
    Fs.read_bytes root input_path = Ok data →
    decrypt_exdf data = Ok decrypted →
    Utf8.decode decrypted = Ok xml_string →
    decrypt_exdf_file root input_path output_path σ =
    Fs.try_except
      (Fs.mkdir (Pathlib.parent output_path);;
       Fs.write_text output_path xml_string;;
       mret true)
      (λ e, Fs.print (Fs.LFailed (Pathlib.name input_path) e);; mret false) σ.
Proof.
  assert (Hfmt : pretty_print_xml xml_string = Ok xml_string).
  { unfold pretty_print_xml. by rewrite Hparse. }
  split; [exact Hfmt|].
  intros root input_path output_path data decrypted σ Hread Hdec Hutf.
  unfold decrypt_exdf_file, try_body, Fs.try_except, Fs.lift.
  unfold mbind at 1 2 3 4, Fs.M_bind.
  by rewrite Hread, Hdec, Hutf, Hfmt.
Qed.

(** C8, as amended: for a well-formed [s] whose formatted text parses back
    to the indented tree it was written from, formatting the formatted text
    gives the same text again. *)
Theorem pretty_print_xml_idempotent (s : list Z) (root : Element)
    (Hparse : fromstring s = Ok root)
    (Hback : fromstring (tostring (indent root)) = Ok (indent root)) :
  (y ← pretty_print_xml s; pretty_print_xml y) = pretty_print_xml s.
Proof.
  unfold pretty_print_xml at 2 3. rewrite Hparse. cbn.
  unfold pretty_print_xml. rewrite Hback. by rewrite indent_idem.
Qed.

End WithLibrary.

Lemma pretty_print_xml_parse_error_witness :
  fromstring (Impl := reference) (str_of "not xml at all") = Raise ParseError ∧
  pretty_print_xml (lib := reference) (str_of "not xml at all")
    = Ok (str_of "not xml at all").
Proof.
  split; [reflexivity|].
  exact (proj1 (pretty_print_xml_parse_error (lib := reference)
                  (str_of "not xml at all") eq_refl)).
Defined.

Lemma pretty_print_xml_idempotent_witness :
  fromstring (Impl := reference) (str_of "<a><b/>t</a>")
    = Ok (Elem (str_of "a") [] None [Elem (str_of "b") [] None [] (Some (str_of "t"))] None) ∧
  (y ← pretty_print_xml (lib := reference) (str_of "<a><b/>t</a>");
   pretty_print_xml (lib := reference) y)
    = pretty_print_xml (lib := reference) (str_of "<a><b/>t</a>").
Proof.
  split; [reflexivity|].
  exact (pretty_print_xml_idempotent (lib := reference)
           (str_of "<a><b/>t</a>") _ eq_refl eq_refl).
Defined.

(** C8 as stated fails: a document with a character reference to a carriage
    return is well formed; its formatted text carries the carriage return
    unescaped, and formatting that text again reads it as a line feed. *)
Lemma pretty_print_xml_not_idempotent :
  fromstring (Impl := reference) (str_of "<a>x&#13;y</a>")
    = Ok (Elem (str_of "a") [] (Some [120; 13; 121]) [] None) ∧
  pretty_print_xml (lib := reference) (str_of "<a>x&#13;y</a>")
    = Ok (str_of "<a>x" ++ [13] ++ str_of "y</a>") ∧
  pretty_print_xml (lib := reference) (str_of "<a>x" ++ [13] ++ str_of "y</a>")
    = Ok (str_of "<a>x" ++ [10] ++ str_of "y</a>") ∧
  (y ← pretty_print_xml (lib := reference) (str_of "<a>x&#13;y</a>");
   pretty_print_xml (lib := reference) y)
    ≠ pretty_print_xml (lib := reference) (str_of "<a>x&#13;y</a>").
Proof. repeat split. vm_compute. discriminate. Qed.

End FormatFacts.

(** ** Files and the run *)

Module RunFacts.
Import Pathlib Fs Script.

Lemma bind_run {A B} (m : M A) (k : A → M B) σ :
  (m ≫= k) σ =
  match m σ with
  | (Ok a, σ') => k a σ'
  | (Raise e, σ') => (Raise e, σ')
  end.
Proof. done. Qed.

Lemma silent_bind {A B} (m : M A) (k : A → M B) :
  silent m → (∀ a, silent (k a)) → silent (m ≫= k).
Proof.
  intros Hm Hk σ. rewrite bind_run. specialize (Hm σ).
  destruct (m σ) as [[a|e] σ']; cbn in *; [|done].
  by rewrite Hk.
Qed.

Lemma silent_try {A} (m : M A) (h : exn → M A) :
  silent m → (∀ e, silent (h e)) → silent (try_except m h).
Proof.
  intros Hm Hh σ. unfold try_except. specialize (Hm σ).
  destruct (m σ) as [[a|e] σ']; cbn in *; [done|].
  by rewrite Hh.
Qed.

Lemma silent_ret {A} (a : A) : silent (mret a).
Proof. done. Qed.

Lemma silent_lift {A} (r : result A) : silent (lift r).
Proof. done. Qed.

Lemma silent_raise {A} (e : exn) : silent (raise (A := A) e).
Proof. done. Qed.

Lemma silent_get_out : silent get_out.
Proof. done. Qed.

Lemma silent_put p n : silent (put p n).
Proof. done. Qed.

Create HintDb silent.

#[local] Hint Resolve silent_ret silent_lift silent_raise silent_get_out silent_put : silent.

Ltac silent_step :=
  first [ apply silent_bind; [|intros ?] | apply silent_try; [|intros ?] ].

Lemma silent_is_dir p : silent (is_dir p).
Proof. unfold is_dir. silent_step; auto with silent. Qed.

Lemma silent_os_mkdir p : silent (os_mkdir p).
Proof.
  unfold os_mkdir. repeat silent_step; auto with silent.
  destruct (_ !! _); auto with silent.
Qed.

#[local] Hint Resolve silent_is_dir silent_os_mkdir : silent.

Lemma silent_after_is_dir p e : silent (d ← is_dir p; if d : bool then mret () else raise e).
Proof. silent_step; auto with silent. destruct a; auto with silent. Qed.

#[local] Hint Resolve silent_after_is_dir : silent.

Lemma silent_mkdir_here p : silent (mkdir_here p).
Proof.
  unfold mkdir_here. silent_step; auto with silent.
  destruct e; auto with silent.
Qed.

#[local] Hint Resolve silent_mkdir_here : silent.

Lemma silent_mkdir_rev rp : silent (mkdir_rev rp).
Proof.
  induction rp as [|c rq IH]; cbn [mkdir_rev]; silent_step; auto with silent.
  - destruct e; auto with silent.
  - destruct e; auto with silent. silent_step; auto with silent.
Qed.

Lemma silent_mkdir p : silent (mkdir p).
Proof. apply silent_mkdir_rev. Qed.

Lemma silent_open_w p : silent (open_w p).
Proof.
  unfold open_w. repeat silent_step; auto with silent.
  destruct (_ !! _) as [[]|]; auto with silent.
Qed.

#[local] Hint Resolve silent_mkdir silent_open_w : silent.

Lemma silent_write_text p data : silent (write_text p data).
Proof.
  unfold write_text. silent_step; auto with silent.
  silent_step; auto with silent.
Qed.

Lemma silent_copy2 root src dst : silent (copy2 root src dst).
Proof.
  unfold copy2. silent_step; auto with silent.
  silent_step; auto with silent. silent_step; auto with silent.
Qed.

#[local] Hint Resolve silent_write_text silent_copy2 : silent.

(** *** Statements that do not read the console *)

Lemma open_w_result p s cons :
  open_w p (State s cons) =
  match walk s [] p with
  | Ok _ =>
    match s !! p with
    | Some ODir => (Raise IsADirectoryError, State s cons)
    | _ => (Ok (), State (<[p := OFile []]> s) cons)
    end
  | Raise e => (Raise e, State s cons)
  end.
Proof.
  unfold open_w. rewrite bind_run. cbn [get_out out].
  rewrite bind_run. unfold lift. destruct (walk s [] p) as [[]|e]; [|done].
  by destruct (s !! p) as [[]|].
Qed.

(** What a call of [write_text] that returns has done. *)
Lemma write_text_returned p text σ σ' :
  write_text p text σ = (Ok (), σ') →
  ∃ bs, Utf8.encode text = Ok bs ∧
    σ' = State (<[p := OFile bs]> (out σ)) (console σ).
Proof.
  destruct σ as [s cons]. unfold write_text. rewrite bind_run, open_w_result.
  cbn [out console].
  destruct (walk s [] p) as [[]|e]; [|done].
  assert (Hgo : (bs ← lift (Utf8.encode text); put p (OFile bs))
                  (State (<[p := OFile []]> s) cons) = (Ok (), σ') →
                ∃ bs, Utf8.encode text = Ok bs ∧
                  σ' = State (<[p := OFile bs]> s) cons).
  { rewrite bind_run. unfold lift. destruct (Utf8.encode text) as [bs|]; [|done].
    unfold put. cbn [out console]. rewrite insert_insert_eq.
    intros [= <-]. by exists bs. }
  destruct (s !! p) as [[d|]|]; [|done|]; exact Hgo.
Qed.

Lemma uniform_bind {A B} (m : M A) (k : A → M B) :
  uniform m → (∀ a, uniform (k a)) → uniform (m ≫= k).
Proof.
  intros Hm Hk s c. rewrite !bind_run, (Hm s c).
  destruct (m (State s [])) as [[a|e] [s1 c1]]; cbn [fst snd out console].
  - rewrite (Hk a s1 (c ++ c1)), (Hk a s1 c1).
    cbn [fst snd out console]. by rewrite app_assoc.
  - done.
Qed.

Lemma uniform_try {A} (m : M A) (h : exn → M A) :
  uniform m → (∀ e, uniform (h e)) → uniform (try_except m h).
Proof.
  intros Hm Hh s c. unfold try_except. rewrite (Hm s c).
  destruct (m (State s [])) as [[a|e] [s1 c1]]; cbn [fst snd out console].
  - done.
  - rewrite (Hh e s1 (c ++ c1)), (Hh e s1 c1).
    cbn [fst snd out console]. by rewrite app_assoc.
Qed.

Lemma uniform_same {A} (m : M A) :
  (∀ s c, ∃ r s', m (State s c) = (r, State s' c) ∧ m (State s []) = (r, State s' [])) →
  uniform m.
Proof.
  intros H s c. destruct (H s c) as (r & s' & -> & ->). cbn. by rewrite app_nil_r.
Qed.

Lemma uniform_ret {A} (a : A) : uniform (mret a).
Proof. intros s c. cbn. by rewrite app_nil_r. Qed.

Lemma uniform_lift {A} (r : result A) : uniform (lift r).
Proof. intros s c. cbn. by rewrite app_nil_r. Qed.

Lemma uniform_raise {A} (e : exn) : uniform (raise (A := A) e).
Proof. intros s c. cbn. by rewrite app_nil_r. Qed.

Lemma uniform_get_out (k : gmap path onode → M ()) :
  (∀ s, uniform (k s)) → uniform (get_out ≫= k).
Proof.
  intros Hk s c. rewrite !bind_run. cbn [get_out out]. apply Hk.
Qed.

Lemma uniform_put p n : uniform (put p n).
Proof. intros s c. cbn. by rewrite app_nil_r. Qed.

Lemma uniform_print l : uniform (print l).
Proof. by intros s c. Qed.

Lemma uniform_is_dir p : uniform (is_dir p).
Proof. intros s c. cbn. by rewrite app_nil_r. Qed.

Lemma uniform_os_mkdir p : uniform (os_mkdir p).
Proof.
  unfold os_mkdir. apply uniform_get_out. intros s.
  apply uniform_bind; [apply uniform_lift|]. intros _.
  destruct (s !! p); [apply uniform_raise|apply uniform_put].
Qed.

Lemma uniform_after_is_dir p e :
  uniform (d ← is_dir p; if d : bool then mret () else raise e).
Proof.
  apply uniform_bind; [apply uniform_is_dir|].
  intros []; [apply uniform_ret|apply uniform_raise].
Qed.

Lemma uniform_mkdir_here p : uniform (mkdir_here p).
Proof.
  unfold mkdir_here. apply uniform_try; [apply uniform_os_mkdir|].
  intros []; first [apply uniform_raise|apply uniform_after_is_dir].
Qed.

Lemma uniform_mkdir_rev rp : uniform (mkdir_rev rp).
Proof.
  induction rp as [|c rq IH]; cbn [mkdir_rev];
    (apply uniform_try; [apply uniform_os_mkdir|]).
  - intros []; first [apply uniform_raise|apply uniform_after_is_dir].
  - intros []; try apply uniform_after_is_dir.
    apply uniform_bind; [exact IH|]. intros _. apply uniform_mkdir_here.
Qed.

Lemma uniform_mkdir p : uniform (mkdir p).
Proof. apply uniform_mkdir_rev. Qed.

Lemma uniform_open_w p : uniform (open_w p).
Proof.
  intros s c. rewrite !open_w_result.
  destruct (walk s [] p) as [[]|e]; [|by cbn; rewrite app_nil_r].
  destruct (s !! p) as [[d|]|]; cbn; by rewrite app_nil_r.
Qed.

Lemma uniform_write_text p text : uniform (write_text p text).
Proof.
  unfold write_text. apply uniform_bind; [apply uniform_open_w|]. intros _.
  apply uniform_bind; [apply uniform_lift|]. intros bs. apply uniform_put.
Qed.

Section WithLibrary.
Context {lib : ET.Impl}.

Lemma silent_try_body root input_path output_path :
  silent (try_body root input_path output_path).
Proof.
  unfold try_body. do 6 (silent_step; auto with silent).
Qed.

Lemma decrypt_exdf_file_run root input_path output_path σ :
  decrypt_exdf_file root input_path output_path σ =
  match try_body root input_path output_path σ with
  | (Ok b, σ') => (Ok b, σ')
  | (Raise e, σ') =>
    (Ok false, State (out σ') (console σ' ++ [LFailed (name input_path) e]))
  end.
Proof.
  unfold decrypt_exdf_file, try_except.
  by destruct (try_body root input_path output_path σ) as [[b|e] σ'].
Qed.

Lemma try_body_true root input_path output_path σ b σ' :
  try_body root input_path output_path σ = (Ok b, σ') → b = true.
Proof.
  unfold try_body. rewrite !bind_run. unfold lift.
  destruct (read_bytes _ _); [|done].
  rewrite !bind_run. destruct (decrypt_exdf _); [|done].
  rewrite !bind_run. destruct (Utf8.decode _); [|done].
  rewrite !bind_run. destruct (pretty_print_xml _); [|done].
  rewrite !bind_run. destruct (mkdir _ σ) as [[[]|] σ1]; [|done].
  rewrite !bind_run. destruct (write_text _ _ σ1) as [[[]|] σ2]; [|done].
  by intros [= <- _].
Qed.

(** A failure before the directory is made leaves the output folder alone. *)
Lemma decrypt_exdf_file_early_failure (root : node) (input_path output_path : path)
    (σ : state) (e : exn)
    (Hfail : read_bytes root input_path = Raise e ∨
             ∃ data decrypted, read_bytes root input_path = Ok data ∧
               decrypt_exdf data = Ok decrypted ∧
               Utf8.decode decrypted = Raise e) :
  decrypt_exdf_file root input_path output_path σ =
  (Ok false, State (out σ) (console σ ++ [LFailed (name input_path) e])).
Proof.
  rewrite decrypt_exdf_file_run. unfold try_body. rewrite !bind_run. unfold lift.
  destruct Hfail as [Hread|(data & decrypted & Hread & Hdec & Hutf)].
  - by rewrite Hread.
  - rewrite Hread, bind_run, Hdec, bind_run. by rewrite Hutf.
Qed.

(** C10: when reading the input raises, or when the decrypted bytes do not
    decode as UTF-8, [decrypt_exdf_file] reports the failure and returns
    [False] with the output folder exactly as it was: no directory was
    created and no file written. *)
Theorem decrypt_exdf_file_no_write (root : node) (input_path output_path : path)
    (σ : state) (e : exn)
    (Hfail : read_bytes root input_path = Raise e ∨
             ∃ data decrypted, read_bytes root input_path = Ok data ∧
               decrypt_exdf data = Ok decrypted ∧
               Utf8.decode decrypted = Raise e) :
  decrypt_exdf_file root input_path output_path σ =
  (Ok false, State (out σ) (console σ ++ [LFailed (name input_path) e])).
Proof. by apply decrypt_exdf_file_early_failure. Qed.

Lemma decrypt_exdf_file_returns root input_path output_path σ :
  ∃ b σ', decrypt_exdf_file root input_path output_path σ = (Ok b, σ') ∧
    if b : bool then console σ' = console σ
    else ∃ e, console σ' = console σ ++ [LFailed (name input_path) e].
Proof.
  rewrite decrypt_exdf_file_run.
  pose proof (silent_try_body root input_path output_path σ) as Hs.
  destruct (try_body root input_path output_path σ) as [[b|e] σ'] eqn:Hb; cbn in Hs.
  - apply try_body_true in Hb as ->. by exists true, σ'.
  - exists false. eexists. split; [done|]. cbn. exists e. by rewrite Hs.
Qed.

Lemma with_suffix_ok p sfx : name p ≠ EmptyString → ∃ q, with_suffix p sfx = Ok q.
Proof.
  intros Hne. unfold with_suffix.
  destruct (String.eqb (name p) EmptyString) eqn:He; [|by eexists].
  by apply String.eqb_eq in He.
Qed.

Lemma decrypt_loop_total root files :
  Forall (λ p, name p ≠ EmptyString) files →
  ∀ success failed σ, ∃ success' failed' σ' lines,
    decrypt_loop root files success failed σ = (Ok (success', failed'), σ') ∧
    console σ' = console σ ++ lines ∧
    Forall2 outcome_line files lines ∧
    (success' = success + length (List.filter is_decrypted lines))%nat ∧
    (success' + failed' = success + failed + length files)%nat.
Proof.
  induction 1 as [|p files Hp _ IH]; intros success failed σ.
  - exists success, failed, σ, []. cbn. rewrite app_nil_r.
    repeat split; [constructor|lia|lia].
  - destruct (with_suffix_ok p ".xml" Hp) as [q Hq].
    destruct (decrypt_exdf_file_returns root p q σ) as (b & σ1 & Hrun & Hcon).
    cbn [decrypt_loop]. rewrite bind_run. unfold lift at 1. rewrite Hq.
    rewrite bind_run, Hrun.
    destruct b.
    + rewrite bind_run. cbn [print].
      destruct (IH (S success) failed (State (out σ1) (console σ1 ++ [LDecrypted p])))
        as (s' & f' & σ' & lines & Hloop & Hc & Hall & Hs & Hsum).
      exists s', f', σ', (LDecrypted p :: lines).
      split; [exact Hloop|]. cbn in Hc. rewrite Hcon in Hc.
      split; [by rewrite Hc, <- app_assoc|].
      split; [constructor; [by left|done]|].
      cbn. lia.
    + destruct Hcon as [e Hcon].
      destruct (IH success (S failed) σ1)
        as (s' & f' & σ' & lines & Hloop & Hc & Hall & Hs & Hsum).
      exists s', f', σ', (LFailed (name p) e :: lines).
      split; [exact Hloop|]. rewrite Hcon in Hc.
      split; [by rewrite Hc, <- app_assoc|].
      split; [constructor; [right; by exists e|done]|].
      cbn. lia.
Qed.

Lemma insert_sorted_perm x l : insert_sorted x l ≡ₚ x :: l.
Proof.
  induction l as [|y l IH]; cbn; [done|].
  destruct (path_ltb y x); [|done].
  rewrite IH. apply Permutation_swap.
Qed.

Lemma sorted_perm l : sorted l ≡ₚ l.
Proof.
  induction l as [|x l IH]; cbn; [done|].
  by rewrite insert_sorted_perm, IH.
Qed.

Lemma name_snoc par nm : name (par ++ [nm]) = nm.
Proof. unfold name. apply last_last. Qed.

Lemma parent_snoc par nm : parent (par ++ [nm]) = par.
Proof. unfold parent. apply removelast_last. Qed.

(** Every path found by [rglob] ends in a name that matches the pattern. *)
Lemma rglob_matches matches root p n :
  In (p, n) (rglob matches root) → ∃ par nm, p = par ++ [nm] ∧ matches nm = true.
Proof.
  unfold rglob. intros [[pp entries] [_ Hsel]]%in_flat_map.
  cbn in Hsel. apply in_flat_map in Hsel as [[nm child] [_ Hin]].
  destruct (matches nm) eqn:Hm; [|done].
  destruct Hin as [[= <- <-]|[]]. by exists pp, nm.
Qed.

Lemma match_star_exdf_nonempty nm : match_star_exdf nm = true → nm ≠ EmptyString.
Proof. by intros H ->. Qed.

Lemma rglob_exdf_named root :
  Forall (λ p, name p ≠ EmptyString) (sorted (rglob match_star_exdf root).*1).
Proof.
  rewrite sorted_perm. apply Forall_forall. intros p Hp.
  apply list_elem_of_fmap in Hp as [[p' n] [-> Hin%list_elem_of_In]].
  apply rglob_matches in Hin as (par & nm & -> & Hm). cbn [fst].
  rewrite name_snoc. by apply match_star_exdf_nonempty.
Qed.

Lemma uniform_decrypt_exdf_file root input_path output_path :
  uniform (decrypt_exdf_file root input_path output_path).
Proof.
  unfold decrypt_exdf_file, try_body. apply uniform_try.
  - do 4 (apply uniform_bind; [apply uniform_lift|intros ?]).
    apply uniform_bind; [apply uniform_mkdir|]. intros _.
    apply uniform_bind; [apply uniform_write_text|]. intros _. apply uniform_ret.
  - intros e. apply uniform_bind; [apply uniform_print|]. intros _. apply uniform_ret.
Qed.

Lemma uniform_decrypt_loop root exdf_files : ∀ success failed,
  uniform (decrypt_loop root exdf_files success failed).
Proof.
  induction exdf_files as [|p rest IH]; intros success failed; cbn [decrypt_loop].
  - apply uniform_ret.
  - apply uniform_bind; [apply uniform_lift|]. intros q.
    apply uniform_bind; [apply uniform_decrypt_exdf_file|].
    intros []; [|apply IH].
    apply uniform_bind; [apply uniform_print|]. intros _. apply IH.
Qed.

(** The counters are accumulators: they do not steer the loop. *)
Lemma decrypt_loop_counters root exdf_files : ∀ success failed σ,
  decrypt_loop root exdf_files success failed σ =
  match decrypt_loop root exdf_files 0%nat 0%nat σ with
  | (Ok (a, b), σ') => (Ok ((success + a)%nat, (failed + b)%nat), σ')
  | (Raise e, σ') => (Raise e, σ')
  end.
Proof.
  induction exdf_files as [|p rest IH]; intros success failed σ.
  - cbn. by rewrite !Nat.add_0_r.
  - cbn [decrypt_loop]. rewrite !bind_run. unfold lift.
    destruct (with_suffix p ".xml") as [q|]; [|done].
    rewrite !bind_run.
    destruct (decrypt_exdf_file root p q σ) as [[[]|e] σ1]; [| |done].
    + rewrite !bind_run. cbn [print].
      rewrite (IH (S success) failed), (IH 1%nat 0%nat).
      destruct (decrypt_loop root rest 0%nat 0%nat _) as [[[a b]|e] σ']; [|done].
      do 3 f_equal; lia.
    + rewrite (IH success (S failed)), (IH 0%nat 1%nat).
      destruct (decrypt_loop root rest 0%nat 0%nat _) as [[[a b]|e] σ']; [|done].
      do 3 f_equal; lia.
Qed.

(** A call that returned [True] has written the transformed bytes. *)
Lemma decrypt_exdf_file_true root input_path output_path σ0 σ1 :
  decrypt_exdf_file root input_path output_path σ0 = (Ok true, σ1) →
  ∃ data bs, read_bytes root input_path = Ok data ∧ transform data = Ok bs ∧
    out σ1 !! output_path = Some (OFile bs) ∧ console σ1 = console σ0.
Proof.
  intros Hrun.
  pose proof (silent_try_body root input_path output_path σ0) as Hs.
  rewrite decrypt_exdf_file_run in Hrun.
  destruct (try_body root input_path output_path σ0) as [[b|e] σ'] eqn:Hb; [|done].
  injection Hrun as -> ->. cbn [snd] in Hs.
  unfold try_body in Hb. rewrite !bind_run in Hb. unfold lift in Hb.
  destruct (read_bytes root input_path) as [data|]; [|done].
  rewrite bind_run in Hb.
  destruct (decrypt_exdf data) as [decrypted|] eqn:Hdec; [|done].
  rewrite bind_run in Hb.
  destruct (Utf8.decode decrypted) as [xml_string|] eqn:Hutf; [|done].
  rewrite bind_run in Hb.
  destruct (pretty_print_xml xml_string) as [formatted_xml|] eqn:Hfmt; [|done].
  rewrite bind_run in Hb.
  destruct (mkdir (parent output_path) σ0) as [[[]|e] σm]; [|done].
  rewrite bind_run in Hb.
  destruct (write_text output_path formatted_xml σm) as [[[]|e] σw] eqn:Hwr; [|done].
  injection Hb as <-.
  apply write_text_returned in Hwr as (bs & Henc & ->).
  exists data, bs. split; [done|]. split; [|split; [|done]].
  - unfold transform. rewrite Hdec. cbn. rewrite Hutf. cbn. by rewrite Hfmt.
  - cbn [out]. by rewrite lookup_insert_eq.
Qed.

(** The loop visits every path: it returns, and what it returns and leaves
    is what the calls of [decrypt_exdf_file], one for each path in order,
    return and leave. *)
Lemma decrypt_loop_visits root files :
  Forall (λ p, name p ≠ EmptyString) files →
  ∀ success failed σ, ∃ σ' lines oks,
    decrypt_loop root files success failed σ
      = (Ok ((success + length (List.filter id oks))%nat,
             (failed + length (List.filter negb oks))%nat), σ') ∧
    visits root files σ oks σ' ∧
    console σ' = console σ ++ lines ∧
    Forall2 outcome_line files lines ∧
    Forall2 (λ (ok : bool) l, is_decrypted l = ok) oks lines.
Proof.
  induction 1 as [|p files Hp _ IH]; intros success failed σ.
  - exists σ, [], []. cbn. rewrite app_nil_r, !Nat.add_0_r.
    repeat split; constructor.
  - destruct (with_suffix_ok p ".xml" Hp) as [q Hq].
    destruct (decrypt_exdf_file_returns root p q σ) as (b & σ1 & Hrun & Hcon).
    cbn [decrypt_loop]. rewrite bind_run. unfold lift at 1. rewrite Hq.
    rewrite bind_run, Hrun.
    destruct b.
    + rewrite bind_run. cbn [print].
      destruct (IH (S success) failed (State (out σ1) (console σ1 ++ [LDecrypted p])))
        as (σ' & lines & oks & Hloop & Hvis & Hc & Hall & Hoks).
      exists σ', (LDecrypted p :: lines), (true :: oks).
      split; [rewrite Hloop; cbn; do 3 f_equal; lia|].
      split; [by econstructor|].
      cbn in Hc. rewrite Hcon in Hc.
      split; [by rewrite Hc, <- app_assoc|].
      split; [constructor; [by left|done]|by constructor].
    + destruct Hcon as [e Hcon].
      destruct (IH success (S failed) σ1)
        as (σ' & lines & oks & Hloop & Hvis & Hc & Hall & Hoks).
      exists σ', (LFailed (name p) e :: lines), (false :: oks).
      split; [rewrite Hloop; cbn; do 3 f_equal; lia|].
      split; [by econstructor|].
      rewrite Hcon in Hc.
      split; [by rewrite Hc, <- app_assoc|].
      split; [constructor; [right; by exists e|done]|by constructor].
Qed.

(** A file that fails before the directory is made leaves the run of the
    loop over the other files as it is, but for its line and its count. *)
Lemma decrypt_loop_isolates root l1 : ∀ l2 p e success failed σ success' failed' σ',
  name p ≠ EmptyString →
  (read_bytes root p = Raise e ∨
   ∃ data decrypted, read_bytes root p = Ok data ∧
     decrypt_exdf data = Ok decrypted ∧ Utf8.decode decrypted = Raise e) →
  decrypt_loop root (l1 ++ l2) success failed σ = (Ok (success', failed'), σ') →
  ∃ c1 c2, console σ' = c1 ++ c2 ∧
    decrypt_loop root (l1 ++ p :: l2) success failed σ
    = (Ok (success', S failed'),
       State (out σ') (c1 ++ [LFailed (name p) e] ++ c2)).
Proof.
  induction l1 as [|a l1 IH];
    intros l2 p e success failed σ success' failed' σ' Hp Hfail Hrun.
  - cbn [app] in *. cbn [decrypt_loop].
    destruct (with_suffix_ok p ".xml" Hp) as [q Hq].
    rewrite bind_run. unfold lift at 1. rewrite Hq, bind_run.
    rewrite (decrypt_exdf_file_early_failure root p q σ e Hfail).
    destruct σ as [s c].
    cbn [out console]. rewrite (uniform_decrypt_loop root l2 success (S failed) s).
    rewrite (uniform_decrypt_loop root l2 success failed s) in Hrun.
    rewrite decrypt_loop_counters in Hrun |- *.
    destruct (decrypt_loop root l2 0%nat 0%nat (State s [])) as [[[x y]|e'] [s2 c2]];
      [|done].
    cbn [fst snd out console] in Hrun |- *. injection Hrun as <- <- <-.
    exists c, c2. split; [done|]. cbn [out].
    by rewrite <- app_assoc.
  - cbn [app decrypt_loop] in Hrun |- *. rewrite bind_run in Hrun |- *.
    unfold lift in Hrun |- *.
    destruct (with_suffix a ".xml") as [q|]; [|done].
    rewrite bind_run in Hrun |- *.
    destruct (decrypt_exdf_file root a q σ) as [[[]|e'] σ1]; [| |done].
    + rewrite bind_run in Hrun |- *. cbn [print] in Hrun |- *.
      by apply IH.
    + by apply IH.
Qed.

Lemma count_decrypted (oks : list bool) (lines : list line) :
  Forall2 (λ (ok : bool) l, is_decrypted l = ok) oks lines →
  length (List.filter is_decrypted lines) = length (List.filter id oks) ∧
  (length (List.filter id oks) + length (List.filter negb oks))%nat = length lines.
Proof.
  induction 1 as [|ok l oks lines Hl _ [IH1 IH2]]; [done|].
  cbn [List.filter]. rewrite Hl. destruct ok; cbn; lia.
Qed.

(** C5: [decrypt_exdf_file] returns on every file and never raises.  When
    the input cannot be read, when the decrypted bytes are not UTF-8, or when
    the output location cannot be written, it returns [False] and prints the
    file name with the exception; when it returns [True] it has printed
    nothing and the output path holds the transformed bytes.  The loop of
    [main] over the [.exdf] files runs to its end whatever the outcomes: every
    path, in sorted order, is passed to [decrypt_exdf_file] in the state the
    paths before it left; each leaves one line, the [✓] line exactly when its
    call returned [True]; the two counters are the numbers of calls that
    returned [True] and [False].  A file that fails at reading or decoding
    changes nothing for the others: the loop over a list with it ends as the
    loop over the list without it, but for its line and its count. *)
Theorem decrypt_exdf_file_never_raises (root : node) (σ : state) :
  (∀ input_path output_path, ∃ b σ',
     decrypt_exdf_file root input_path output_path σ = (Ok b, σ') ∧
     if b : bool then console σ' = console σ
     else ∃ e, console σ' = console σ ++ [LFailed (name input_path) e]) ∧
  (∀ input_path output_path e,
     read_bytes root input_path = Raise e →
     decrypt_exdf_file root input_path output_path σ =
     (Ok false, State (out σ) (console σ ++ [LFailed (name input_path) e]))) ∧
  (∀ input_path output_path data decrypted e,
     read_bytes root input_path = Ok data →
     decrypt_exdf data = Ok decrypted →
     Utf8.decode decrypted = Raise e →
     decrypt_exdf_file root input_path output_path σ =
     (Ok false, State (out σ) (console σ ++ [LFailed (name input_path) e]))) ∧
  (∀ input_path output_path data decrypted xml_string formatted_xml e σ1,
     read_bytes root input_path = Ok data →
     decrypt_exdf data = Ok decrypted →
     Utf8.decode decrypted = Ok xml_string →
     pretty_print_xml xml_string = Ok formatted_xml →
     (mkdir (parent output_path);; write_text output_path formatted_xml) σ
       = (Raise e, σ1) →
     decrypt_exdf_file root input_path output_path σ =
     (Ok false, State (out σ1) (console σ ++ [LFailed (name input_path) e]))) ∧
  (∀ input_path output_path σ1,
     decrypt_exdf_file root input_path output_path σ = (Ok true, σ1) →
     ∃ data bs, read_bytes root input_path = Ok data ∧ transform data = Ok bs ∧
       out σ1 !! output_path = Some (OFile bs) ∧ console σ1 = console σ) ∧
  (∃ success failed σ' lines oks,
     decrypt_loop root (sorted (rglob match_star_exdf root).*1) 0%nat 0%nat σ
       = (Ok (success, failed), σ') ∧
     visits root (sorted (rglob match_star_exdf root).*1) σ oks σ' ∧
     console σ' = console σ ++ lines ∧
     Forall2 outcome_line (sorted (rglob match_star_exdf root).*1) lines ∧
     Forall2 (λ (ok : bool) l, is_decrypted l = ok) oks lines ∧
     success = length (List.filter is_decrypted lines) ∧
     success = length (List.filter id oks) ∧
     failed = length (List.filter negb oks) ∧
     (success + failed)%nat = length (rglob match_star_exdf root)) ∧
  (∀ l1 l2 p e success failed σ',
     name p ≠ EmptyString →
     (read_bytes root p = Raise e ∨
      ∃ data decrypted, read_bytes root p = Ok data ∧
        decrypt_exdf data = Ok decrypted ∧ Utf8.decode decrypted = Raise e) →
     decrypt_loop root (l1 ++ l2) 0%nat 0%nat σ = (Ok (success, failed), σ') →
     ∃ c1 c2, console σ' = c1 ++ c2 ∧
       decrypt_loop root (l1 ++ p :: l2) 0%nat 0%nat σ
       = (Ok (success, S failed),
          State (out σ') (c1 ++ [LFailed (name p) e] ++ c2))).
Proof.
  split; [intros; apply decrypt_exdf_file_returns|].
  split; [intros; by apply decrypt_exdf_file_early_failure; left|].
  split; [intros; apply decrypt_exdf_file_early_failure; right; eauto|].
  split.
  { intros input_path output_path data decrypted xml_string formatted_xml e σ1
      Hread Hdec Hutf Hfmt Hwrite.
    rewrite decrypt_exdf_file_run. unfold try_body. rewrite !bind_run. unfold lift.
    rewrite Hread, bind_run, Hdec, bind_run, Hutf, bind_run, Hfmt.
    assert (Hs : silent (mkdir (parent output_path);;
                         write_text output_path formatted_xml))
      by (silent_step; auto with silent).
    specialize (Hs σ). rewrite Hwrite in Hs. cbn in Hs.
    rewrite bind_run in Hwrite. rewrite bind_run.
    destruct (mkdir (parent output_path) σ) as [[[]|e1] σ2].
    + rewrite bind_run, Hwrite. by rewrite Hs.
    + injection Hwrite as -> ->. by rewrite Hs. }
  split; [intros; by apply decrypt_exdf_file_true|].
  split; [|intros; by apply (decrypt_loop_isolates root l1 l2 p e 0%nat 0%nat σ)].
  destruct (decrypt_loop_visits root _ (rglob_exdf_named root) 0%nat 0%nat σ)
    as (σ' & lines & oks & Hloop & Hvis & Hc & Hall & Hoks).
  destruct (count_decrypted oks lines Hoks) as [Hn1 Hn2].
  exists (length (List.filter id oks)), (length (List.filter negb oks)), σ', lines, oks.
  repeat split; try done.
  rewrite Hn2, <- (Forall2_length _ _ _ Hall).
  by rewrite (Permutation_length (sorted_perm _)), length_fmap.
Qed.

End WithLibrary.

Lemma decrypt_exdf_file_never_raises_witness :
  read_bytes (Dir [("locked.exdf", File false [])]) ["locked.exdf"]
    = Raise PermissionError ∧
  decrypt_exdf_file (lib := ET.reference) (Dir [("locked.exdf", File false [])])
    ["locked.exdf"] ["locked.xml"] (State ∅ [])
  = (Ok false, State ∅ [LFailed "locked.exdf" PermissionError]).
Proof.
  split; [reflexivity|].
  exact (proj1 (proj2 (decrypt_exdf_file_never_raises (lib := ET.reference)
    (Dir [("locked.exdf", File false [])]) (State ∅ [])))
    ["locked.exdf"] ["locked.xml"] PermissionError eq_refl).
Defined.

Lemma decrypt_exdf_file_no_write_witness :
  (read_bytes (Dir [("bad.exdf", File true [0x00])]) ["bad.exdf"]
     = Raise UnicodeDecodeError ∨
   ∃ data decrypted,
     read_bytes (Dir [("bad.exdf", File true [0x00])]) ["bad.exdf"] = Ok data ∧
     decrypt_exdf data = Ok decrypted ∧
     Utf8.decode decrypted = Raise UnicodeDecodeError) ∧
  decrypt_exdf_file (lib := ET.reference) (Dir [("bad.exdf", File true [0x00])])
    ["bad.exdf"] ["sub"; "bad.xml"] (State {[ [] := ODir ]} [])
  = (Ok false, State {[ [] := ODir ]} [LFailed "bad.exdf" UnicodeDecodeError]).
Proof.
  assert (H : read_bytes (Dir [("bad.exdf", File true [0x00])]) ["bad.exdf"]
                = Raise UnicodeDecodeError ∨
              ∃ data decrypted,
                read_bytes (Dir [("bad.exdf", File true [0x00])]) ["bad.exdf"] = Ok data ∧
                decrypt_exdf data = Ok decrypted ∧
                Utf8.decode decrypted = Raise UnicodeDecodeError).
  { right. exists [0x00], [0xAA]. by repeat split. }
  split; [exact H|].
  exact (decrypt_exdf_file_no_write (lib := ET.reference) _ ["bad.exdf"]
           ["sub"; "bad.xml"] (State {[ [] := ODir ]} []) UnicodeDecodeError H).
Defined.

(** C4 fails on the script: one [.exdf] file whose decrypted bytes are not
    UTF-8 is counted as failed, the summary says so, and [main] still
    reaches its last statement, so the interpreter exits with status 0.  The
    sibling script ends with [sys.exit(0 if failed == 0 else 1)] and exits
    with 1 for the same count. *)
Theorem main_exit_status_ignores_failed :
  main (lib := ET.reference) ["decrypt_exdf.py"; "in"; "out"]
    (Some (Dir [("bad.exdf", File true [0x00])])) (State ∅ [])
  = (Ok Completed,
     State {[ [] := ODir ]}
       [LFound 1; LOutputDirectory; LRule;
        LFailed "bad.exdf" UnicodeDecodeError;
        LRule; LCopying; LCopied 0; LRule; LDone 0 1 0]) ∧
  exit_status (main (lib := ET.reference) ["decrypt_exdf.py"; "in"; "out"]
    (Some (Dir [("bad.exdf", File true [0x00])])) (State ∅ [])).1 = 0 ∧
  Decompile.main_exit 1 = 1.
Proof. by vm_compute. Qed.

(** C7 fails on the script.  A regular file named [A.EXDF] is not matched by
    [rglob("*.exdf")], which compares case, and is skipped by the copy loop,
    which lowers the suffix first: one regular file, and the three counters
    are all 0.  A directory named [d.exdf] is matched by [rglob("*.exdf")],
    fails to be read and is counted as failed: no regular file, and the
    counters add up to 1. *)
Theorem counters_miss_regular_files :
  (length (regular_files (Dir [("A.EXDF", File true [0x3C])])) = 1%nat ∧
   main (lib := ET.reference) ["decrypt_exdf.py"; "in"; "out"]
     (Some (Dir [("A.EXDF", File true [0x3C])])) (State ∅ [])
   = (Ok Completed,
      State {[ [] := ODir ]}
        [LFound 0; LOutputDirectory; LRule; LRule; LCopying; LCopied 0; LRule;
         LDone 0 0 0])) ∧
  (length (regular_files (Dir [("d.exdf", Dir [])])) = 0%nat ∧
   main (lib := ET.reference) ["decrypt_exdf.py"; "in"; "out"]
     (Some (Dir [("d.exdf", Dir [])])) (State ∅ [])
   = (Ok Completed,
      State {[ [] := ODir ]}
        [LFound 1; LOutputDirectory; LRule; LFailed "d.exdf" IsADirectoryError;
         LRule; LCopying; LCopied 0; LRule; LDone 0 1 0])).
Proof. by vm_compute. Qed.

(** C1 as stated fails: the input folder holds one regular file, an [.exdf]
    file whose decrypted bytes are not UTF-8; the run completes and the
    output folder holds no file at all. *)
Lemma mirror_drops_failed_file :
  length (regular_files (Dir [("bad.exdf", File true [0x00])])) = 1%nat ∧
  (main (lib := ET.reference) ["decrypt_exdf.py"; "in"; "out"]
     (Some (Dir [("bad.exdf", File true [0x00])])) (State ∅ [])).1 = Ok Completed ∧
  files (out (main (lib := ET.reference) ["decrypt_exdf.py"; "in"; "out"]
     (Some (Dir [("bad.exdf", File true [0x00])])) (State ∅ [])).2) = ∅.
Proof. by vm_compute. Qed.

End RunFacts.

(** ** The mirrored tree *)

Module MirrorFacts.
Import Pathlib Fs Script RunFacts.

(** *** The output folder *)

Lemma walk_ok s pre comps :
  (∀ k, (k < length comps)%nat → s !! (pre ++ take k comps) = Some ODir) →
  walk s pre comps = Ok ().
Proof.
  revert pre. induction comps as [|c cs IH]; intros pre H; [done|].
  cbn [walk]. pose proof (H 0%nat ltac:(cbn; lia)) as H0.
  cbn in H0. rewrite app_nil_r in H0. rewrite H0.
  apply IH. intros k Hk. specialize (H (S k) ltac:(cbn; lia)).
  cbn in H. by rewrite <- app_assoc.
Qed.

Lemma walk_inv s pre comps :
  walk s pre comps = Ok () →
  ∀ k, (k < length comps)%nat → s !! (pre ++ take k comps) = Some ODir.
Proof.
  revert pre. induction comps as [|c cs IH]; intros pre H k Hk; [cbn in Hk; lia|].
  cbn [walk] in H. destruct (s !! pre) as [[]|] eqn:Hpre; try done.
  destruct k as [|k]; [cbn; by rewrite app_nil_r|].
  cbn [take]. change (c :: take k cs) with ([c] ++ take k cs).
  rewrite app_assoc. apply IH; [done|cbn in Hk; lia].
Qed.

Lemma walk_no_file s pre comps :
  (∀ k d, (k < length comps)%nat → s !! (pre ++ take k comps) ≠ Some (OFile d)) →
  walk s pre comps = Ok () ∨ walk s pre comps = Raise FileNotFoundError.
Proof.
  revert pre. induction comps as [|c cs IH]; intros pre H; [by left|].
  cbn [walk]. destruct (s !! pre) as [[d|]|] eqn:Hpre.
  - exfalso. apply (H 0%nat d); [cbn; lia|]. cbn. by rewrite app_nil_r.
  - apply IH. intros k d Hk. specialize (H (S k) d ltac:(cbn; lia)).
    cbn in H. by rewrite <- app_assoc.
  - by right.
Qed.

Lemma wf_store_ancestors s p :
  wf_store s → is_Some (s !! p) →
  ∀ k, (k < length p)%nat → s !! take k p = Some ODir.
Proof.
  intros Hwf. induction p as [|c p IH] using rev_ind; intros Hp k Hk; [cbn in Hk; lia|].
  rewrite length_app in Hk. cbn in Hk.
  pose proof (Hwf p c Hp) as Hpar.
  destruct (decide (k = length p)) as [->|Hne].
  - by rewrite take_app_length.
  - rewrite take_app_le by lia. apply IH; [by rewrite Hpar|lia].
Qed.

Lemma prefix_take_iff (q p : path) :
  q `prefix_of` p ↔ ∃ k, (k ≤ length p)%nat ∧ q = take k p.
Proof.
  split.
  - intros [r ->]. exists (length q). rewrite length_app. split; [lia|].
    by rewrite take_app_length.
  - intros (k & _ & ->). apply prefix_take.
Qed.

Lemma prefix_snoc_iff (q p : path) c :
  q `prefix_of` p ++ [c] ↔ q = p ++ [c] ∨ q `prefix_of` p.
Proof.
  split.
  - intros [r Hr]. destruct r as [|x r _] using rev_ind.
    + left. by rewrite app_nil_r in Hr.
    + right. rewrite app_assoc in Hr. apply app_inj_tail in Hr as [-> _].
      by exists r.
  - intros [->|H]; [done|by apply prefix_app_r].
Qed.

Lemma os_mkdir_run p s cons :
  os_mkdir p (State s cons) =
  match walk s [] p with
  | Ok _ =>
    match s !! p with
    | Some _ => (Raise FileExistsError, State s cons)
    | None => (Ok (), State (<[p := ODir]> s) cons)
    end
  | Raise e => (Raise e, State s cons)
  end.
Proof.
  unfold os_mkdir. rewrite bind_run. cbn [get_out out]. rewrite bind_run.
  unfold lift. destruct (walk s [] p); [|done]. by destruct (s !! p).
Qed.

Lemma is_dir_run p s cons :
  is_dir p (State s cons) =
  (Ok (match walk s [] p, s !! p with
       | Ok _, Some ODir => true
       | _, _ => false
       end), State s cons).
Proof. done. Qed.

Lemma mkdir_rev_eq rp :
  mkdir_rev rp =
  try_except (os_mkdir (rev rp)) (λ e,
    match e with
    | FileNotFoundError =>
      match rp with
      | [] => raise e
      | _ :: rq => mkdir_rev rq;; mkdir_here (rev rp)
      end
    | _ => d ← is_dir (rev rp); if d : bool then mret () else raise e
    end).
Proof. by destruct rp. Qed.

Lemma wf_store_insert_dir s p :
  wf_store s → (∀ q c, p = q ++ [c] → s !! q = Some ODir) →
  wf_store (<[p := ODir]> s).
Proof.
  intros Hwf Hpar q c Hq.
  destruct (decide (p = q)) as [->|Hne]; [by rewrite lookup_insert_eq|].
  rewrite lookup_insert_ne by done.
  destruct (decide (p = q ++ [c])) as [->|Hne']; [by eapply Hpar|].
  rewrite lookup_insert_ne in Hq by done. by eapply Hwf.
Qed.

Lemma mkdir_rev_spec rp : ∀ s cons,
  wf_store s →
  (∀ q d, q `prefix_of` rev rp → s !! q ≠ Some (OFile d)) →
  ∃ s1, mkdir_rev rp (State s cons) = (Ok (), State s1 cons) ∧
    wf_store s1 ∧
    ∀ q, s1 !! q = if decide (q `prefix_of` rev rp) then Some ODir else s !! q.
Proof.
  induction rp as [|c rq IH]; intros s cons Hwf Hnf.
  - (* the output folder itself *)
    rewrite mkdir_rev_eq. unfold try_except. rewrite os_mkdir_run. cbn [rev walk].
    destruct (s !! []) as [[d|]|] eqn:Hroot.
    + by destruct (Hnf [] d).
    + rewrite bind_run, is_dir_run. cbn [walk]. rewrite Hroot.
      exists s. split; [done|]. split; [done|].
      intros q. case_decide as Hq; [|done].
      apply prefix_nil_inv in Hq as ->. done.
    + exists (<[ [] := ODir ]> s). split; [done|]. split.
      { apply wf_store_insert_dir; [done|]. intros q c' Hq. by destruct q. }
      intros q. case_decide as Hq.
      * apply prefix_nil_inv in Hq as ->. by rewrite lookup_insert_eq.
      * rewrite lookup_insert_ne; [done|]. intros <-. by apply Hq.
  - rewrite mkdir_rev_eq. set (p := rev (c :: rq)) in *.
    assert (Hp : p = rev rq ++ [c]) by done. clearbody p.
    unfold try_except. rewrite os_mkdir_run.
    assert (Hpre : ∀ q, q `prefix_of` p ↔ q = p ∨ q `prefix_of` rev rq).
    { intros q. rewrite Hp. apply prefix_snoc_iff. }
    destruct (walk s [] p) as [[]|e] eqn:Hw.
    + (* every ancestor is there *)
      pose proof (walk_inv _ _ _ Hw) as Hanc. cbn [app] in Hanc.
      assert (Hdirs : ∀ q, q `prefix_of` rev rq → s !! q = Some ODir).
      { intros q [k [Hk ->]]%prefix_take_iff.
        specialize (Hanc k). rewrite Hp, length_app in Hanc. cbn in Hanc.
        rewrite take_app_le in Hanc by lia. apply Hanc. lia. }
      destruct (s !! p) as [[d|]|] eqn:Hsp.
      * by destruct (Hnf p d).
      * rewrite bind_run, is_dir_run, Hw, Hsp.
        exists s. split; [done|]. split; [done|].
        intros q. case_decide as Hq; [|done].
        apply Hpre in Hq as [->|Hq]; [done|by apply Hdirs].
      * exists (<[p := ODir]> s). split; [done|]. split.
        { apply wf_store_insert_dir; [done|]. intros q c' Hq.
          rewrite Hp in Hq. apply app_inj_tail in Hq as [<- _].
          by apply Hdirs. }
        intros q. case_decide as Hq.
        -- apply Hpre in Hq as [->|Hq]; [by rewrite lookup_insert_eq|].
           rewrite lookup_insert_ne; [by apply Hdirs|].
           intros <-. rewrite Hdirs in Hsp; [done|]. done.
        -- rewrite lookup_insert_ne; [done|]. intros <-. by apply Hq.
    + (* an ancestor is missing *)
      assert (e = FileNotFoundError) as ->.
      { destruct (walk_no_file s [] p) as [Hok|Hfnf]; [|congruence|congruence].
        intros k d Hk. cbn [app]. apply Hnf. apply prefix_take. }
      destruct (IH s cons Hwf) as (s' & Hrec & Hwf' & Hlook).
      { intros q d Hq. apply Hnf. apply Hpre. by right. }
      rewrite bind_run, Hrec. unfold mkdir_here, try_except. rewrite os_mkdir_run.
      assert (Hnot : ¬ p `prefix_of` rev rq).
      { rewrite Hp. apply prefix_snoc_not. }
      assert (Hw' : walk s' [] p = Ok ()).
      { apply walk_ok. intros k Hk. cbn [app]. rewrite Hlook.
        rewrite decide_True; [done|].
        rewrite Hp, length_app in Hk. cbn in Hk.
        rewrite Hp, take_app_le by lia. apply prefix_take. }
      rewrite Hw'.
      assert (Hsp : s' !! p = None).
      { rewrite Hlook, decide_False by done.
        destruct (s !! p) as [[d|]|] eqn:Hsp; [by destruct (Hnf p d)| |done].
        exfalso.
        assert (walk s [] p = Ok ()); [|congruence].
        apply walk_ok. intros k Hk. cbn [app].
        apply wf_store_ancestors; [done|by rewrite Hsp|done]. }
      rewrite Hsp. exists (<[p := ODir]> s'). split; [done|]. split.
      { apply wf_store_insert_dir; [done|]. intros q c' Hq.
        rewrite Hp in Hq. apply app_inj_tail in Hq as [<- _].
        rewrite Hlook. by rewrite decide_True. }
      intros q. case_decide as Hq.
      * apply Hpre in Hq as [->|Hq]; [by rewrite lookup_insert_eq|].
        rewrite lookup_insert_ne; [by rewrite Hlook, decide_True|].
        intros <-. by apply Hnot.
      * rewrite lookup_insert_ne; [|intros <-; by apply Hq].
        rewrite Hlook, decide_False; [done|].
        intros Hq'. apply Hq, Hpre. by right.
Qed.

Lemma mkdir_spec p s cons :
  wf_store s →
  (∀ q d, q `prefix_of` p → s !! q ≠ Some (OFile d)) →
  ∃ s1, mkdir p (State s cons) = (Ok (), State s1 cons) ∧
    wf_store s1 ∧
    ∀ q, s1 !! q = if decide (q `prefix_of` p) then Some ODir else s !! q.
Proof.
  intros Hwf Hnf. unfold mkdir.
  destruct (mkdir_rev_spec (rev p) s cons Hwf) as (s1 & H1 & H2 & H3).
  { by rewrite rev_involutive. }
  exists s1. rewrite rev_involutive in H3. done.
Qed.

Lemma prepare_spec s done p cons :
  holds s done → p ≠ [] → apart p done.*1 →
  ∃ s1, mkdir (parent p) (State s cons) = (Ok (), State s1 cons) ∧
    s1 !! p = None ∧ walk s1 [] p = Ok () ∧
    ∀ d, holds (<[p := OFile d]> s1) ((p, d) :: done).
Proof.
  intros (Hwf & Hroot & Hfiles & Hdirs) Hne Hapart.
  destruct (exists_last Hne) as (par & c & ->).
  rewrite parent_snoc.
  assert (Hnf : ∀ q d, q `prefix_of` par → s !! q ≠ Some (OFile d)).
  { intros q d Hq Hs. apply Hfiles in Hs.
    destruct (Hapart q) as [_ H]; [|apply H; by apply prefix_app_r].
    apply list_elem_of_fmap. by exists (q, d). }
  destruct (mkdir_spec par s cons Hwf Hnf) as (s1 & Hrun & Hwf1 & Hlook).
  assert (Hnot : ¬ par ++ [c] `prefix_of` par) by apply prefix_snoc_not.
  assert (Hsp : s !! (par ++ [c]) = None).
  { destruct (s !! (par ++ [c])) as [[d|]|] eqn:Hs; [| |done].
    - apply Hfiles in Hs. destruct (Hapart (par ++ [c])) as [H _]; [|by destruct H].
      apply list_elem_of_fmap. by exists (par ++ [c], d).
    - apply Hdirs in Hs as [Hs|(p' & Hp' & _ & Hpre)]; [by destruct par|].
      by destruct (Hapart p' Hp') as [H _]. }
  assert (Hs1p : s1 !! (par ++ [c]) = None) by by rewrite Hlook, decide_False.
  exists s1. split; [done|]. split; [done|]. split.
  { apply walk_ok. intros k Hk. cbn [app]. rewrite length_app in Hk. cbn in Hk.
    rewrite take_app_le by lia. rewrite Hlook, decide_True; [done|apply prefix_take]. }
  intros d. split; [|split; [|split]].
  - intros q c' Hq.
    destruct (decide (par ++ [c] = q)) as [<-|Hneq].
    { rewrite lookup_insert_ne in Hq.
      - apply Hwf1 in Hq. congruence.
      - intros H. apply (f_equal length) in H. rewrite !length_app in H. cbn in H. lia. }
    rewrite lookup_insert_ne by done.
    destruct (decide (par ++ [c] = q ++ [c'])) as [Heq|Hneq'].
    + apply app_inj_tail in Heq as [<- _]. by rewrite Hlook, decide_True.
    + rewrite lookup_insert_ne in Hq by done. exact (Hwf1 q c' Hq).
  - rewrite lookup_insert_ne by by destruct par.
    rewrite Hlook, decide_True; [done|apply prefix_nil].
  - intros q d'. destruct (decide (par ++ [c] = q)) as [<-|Hneq].
    + rewrite lookup_insert_eq. split.
      * intros [= <-]. left.
      * intros [[= <-]|Hin]%elem_of_cons; [done|].
        destruct (Hapart (par ++ [c])) as [H _]; [|by destruct H].
        apply list_elem_of_fmap. by exists (par ++ [c], d').
    + rewrite lookup_insert_ne by done. rewrite Hlook. case_decide as Hq.
      * split; [done|]. intros [[= ? ?]|Hin]%elem_of_cons; [congruence|].
        apply Hfiles in Hin. by destruct (Hnf q d').
      * rewrite Hfiles. split; [by right|].
        intros [[= ? ?]|Hin]%elem_of_cons; [congruence|done].
  - intros q Hq. destruct (decide (par ++ [c] = q)) as [<-|Hneq].
    { by rewrite lookup_insert_eq in Hq. }
    rewrite lookup_insert_ne in Hq by done. rewrite Hlook in Hq.
    case_decide as Hpre.
    + right. exists (par ++ [c]). split; [cbn; left|].
      split; [done|by apply prefix_app_r].
    + apply Hdirs in Hq as [->|(p' & Hp' & Hne' & Hpre')]; [by left|].
      right. exists p'. split; [cbn; by right|done].
Qed.

Lemma open_w_run p s cons :
  walk s [] p = Ok () → s !! p = None →
  open_w p (State s cons) = (Ok (), State (<[p := OFile []]> s) cons).
Proof.
  intros Hw Hp. unfold open_w. rewrite bind_run. cbn [get_out out].
  rewrite bind_run. unfold lift. by rewrite Hw, Hp.
Qed.

Lemma write_text_run p text bs s cons :
  walk s [] p = Ok () → s !! p = None → Utf8.encode text = Ok bs →
  write_text p text (State s cons) = (Ok (), State (<[p := OFile bs]> s) cons).
Proof.
  intros Hw Hp Henc. unfold write_text.
  rewrite bind_run, open_w_run by done. rewrite bind_run. unfold lift. rewrite Henc.
  unfold put. cbn [out console]. by rewrite insert_insert_eq.
Qed.

Lemma copy2_run root src dst data s cons :
  walk s [] dst = Ok () → s !! dst = None → read_bytes root src = Ok data →
  copy2 root src dst (State s cons) = (Ok (), State (<[dst := OFile data]> s) cons).
Proof.
  intros Hw Hp Hread. unfold copy2.
  rewrite bind_run, is_dir_run, Hw, Hp.
  rewrite bind_run. unfold lift. rewrite Hread.
  rewrite bind_run, open_w_run by done.
  unfold put. cbn [out console]. by rewrite insert_insert_eq.
Qed.

(** *** The input folder *)

Lemma node_ind (P : node → Prop) :
  (∀ r d, P (File r d)) →
  (∀ entries, Forall (λ e, P e.2) entries → P (Dir entries)) →
  ∀ n, P n.
Proof.
  intros Hfile Hdir. fix IH 1. intros [r d|entries]; [apply Hfile|].
  apply Hdir. induction entries as [|[nm c] entries IHe]; constructor; [apply IH|apply IHe].
Qed.

Lemma find_entry_in nm child entries :
  NoDup entries.*1 → In (nm, child) entries → find_entry nm entries = Some child.
Proof.
  induction entries as [|[k n] entries IH]; intros Hnd Hin; [done|].
  cbn in Hnd. apply NoDup_cons in Hnd as [Hk Hnd]. cbn [find_entry].
  destruct Hin as [[= -> ->]|Hin].
  - by rewrite String.eqb_refl.
  - destruct (String.eqb k nm) eqn:He.
    + apply String.eqb_eq in He as ->. exfalso. apply Hk.
      apply list_elem_of_fmap. exists (nm, child). split; [done|by apply list_elem_of_In].
    + by apply IH.
Qed.

Lemma lookup_node_app root rel rest :
  lookup_node root (rel ++ rest) = n ← lookup_node root rel; lookup_node n rest.
Proof.
  revert root. induction rel as [|c rel IH]; intros root; [done|].
  cbn. destruct root as [|entries]; [done|].
  destruct (find_entry c entries) as [n|]; cbn; [apply IH|done].
Qed.

Lemma wf_node_entry nm child entries :
  wf_node (Dir entries) = true → In (nm, child) entries →
  wf_node child = true ∧ find_entry nm entries = Some child.
Proof.
  cbn. intros [Hnd Hall]%andb_prop Hin. apply bool_decide_eq_true in Hnd.
  split; [|by apply find_entry_in].
  rewrite forallb_forall in Hall. apply (Hall (nm, child) Hin).
Qed.

(** Every directory listed by [_iterate_directories] is where its path
    says. *)
Lemma iterate_lookup n : ∀ pre pp es,
  wf_node n = true → In (pp, es) (_iterate_directories pre n) →
  ∃ rel, pp = pre ++ rel ∧ lookup_node n rel = Some (Dir es) ∧
         wf_node (Dir es) = true.
Proof.
  induction n as [r d|entries IH] using node_ind; intros pre pp es Hwf Hin; [done|].
  cbn [_iterate_directories] in Hin. destruct Hin as [[= <- <-]|Hin].
  - exists []. by rewrite app_nil_r.
  - apply in_flat_map in Hin as [[nm child] [Hent Hin]].
    destruct (wf_node_entry nm child entries Hwf Hent) as [Hwfc Hfind].
    rewrite Forall_forall in IH.
    destruct (IH (nm, child) ltac:(by apply list_elem_of_In) _ _ _ Hwfc Hin)
      as (rel & -> & Hlook & Hwfd).
    exists (nm :: rel). split; [by rewrite <- app_assoc|].
    split; [|done]. cbn. by rewrite Hfind.
Qed.

(** What [rglob] finds at a path is what is at that path. *)
Lemma rglob_lookup matches root p n :
  wf_node root = true → In (p, n) (rglob matches root) →
  lookup_node root p = Some n.
Proof.
  intros Hwf. unfold rglob. intros [[pp es] [Hdir Hsel]]%in_flat_map.
  apply iterate_lookup in Hdir as (rel & -> & Hlook & Hwfd); [|done].
  cbn in Hsel. apply in_flat_map in Hsel as [[nm child] [Hent Hin]].
  destruct (matches nm); [|done]. destruct Hin as [[= <- <-]|[]].
  rewrite lookup_node_app, Hlook. cbn.
  destruct (wf_node_entry nm child es Hwfd Hent) as [_ ->]. done.
Qed.

Lemma filter_flat_map {A B} (f : B → bool) (g : A → list B) (l : list A) :
  List.filter f (flat_map g l) = flat_map (λ x, List.filter f (g x)) l.
Proof.
  induction l as [|x l IH]; [done|]. cbn. by rewrite List.filter_app, IH.
Qed.

(** [rglob(pattern)] finds the entries of [rglob("*")] whose name matches. *)
Lemma rglob_filter matches root :
  rglob matches root
  = List.filter (λ found, matches (name found.1)) (rglob match_star root).
Proof.
  unfold rglob. rewrite filter_flat_map. apply flat_map_ext.
  intros [pp es]. cbn [_select_from]. rewrite filter_flat_map. apply flat_map_ext.
  intros [nm child]. unfold match_star. cbn [List.filter fst].
  rewrite name_snoc. by destruct (matches nm).
Qed.

(** *** File names *)

Lemma append_nil (b : string) : EmptyString +:+ b = b.
Proof. done. Qed.

Lemma append_cons x (a b : string) : String x a +:+ b = String x (a +:+ b).
Proof. done. Qed.

Lemma length_append (a b : string) :
  String.length (a +:+ b) = (String.length a + String.length b)%nat.
Proof.
  induction a as [|x a IH]; [done|].
  rewrite append_cons. cbn. by rewrite IH.
Qed.

Lemma substring_full (s : string) : substring 0 (String.length s) s = s.
Proof. induction s as [|a s IH]; cbn; [done|by rewrite IH]. Qed.

Lemma substring_split (k : nat) : ∀ s : string,
  (k ≤ String.length s)%nat →
  s = substring 0 k s +:+ substring k (String.length s - k) s.
Proof.
  induction k as [|k IH]; intros s Hk.
  - rewrite Nat.sub_0_r, substring_full. by destruct s.
  - destruct s as [|a s]; [cbn in Hk; lia|].
    cbn [substring String.length]. cbn in Hk. rewrite append_cons.
    replace (S (String.length s) - S k)%nat with (String.length s - k)%nat by lia.
    rewrite <- IH by lia. done.
Qed.

Lemma substring_append_r (a b : string) n :
  substring (String.length a) n (a +:+ b) = substring 0 n b.
Proof. induction a as [|x a IH]; [done|]. rewrite append_cons. exact IH. Qed.

Lemma rfind_dot_append_exdf (stem : string) :
  rfind_dot (stem +:+ ".exdf") = len stem.
Proof.
  induction stem as [|a stem IH]; [done|].
  rewrite append_cons. cbn [rfind_dot]. rewrite IH. unfold len. cbn [String.length].
  destruct (0 <=? Z.of_nat (String.length stem)) eqn:H; [lia|].
  apply Z.leb_gt in H. lia.
Qed.

(** A name that ends in [.exdf] and is more than those five characters has
    [.exdf] as its suffix. *)
Lemma suffix_exdf (p : path) :
  match_star_exdf (name p) = true → name p ≠ ".exdf"%string →
  suffix p = ".exdf"%string.
Proof.
  unfold suffix. generalize (name p) as nm. intros nm.
  intros [Hlen Heq]%andb_prop Hne.
  apply Z.leb_le in Hlen. apply String.eqb_eq in Heq.
  unfold len in *. unfold slice_from in Heq.
  set (k := (String.length nm - 5)%nat).
  assert (Hk : Z.to_nat (Z.of_nat (String.length nm) - 5) = k) by lia.
  rewrite Hk in Heq.
  assert (Hk5 : (String.length nm - k = 5)%nat) by lia.
  rewrite Hk5 in Heq.
  pose proof (substring_split k nm ltac:(lia)) as Hsplit.
  rewrite Hk5, Heq in Hsplit.
  set (stem := substring 0 k nm) in *.
  assert (Hstem : String.length stem = k).
  { apply (f_equal String.length) in Hsplit. rewrite length_append in Hsplit.
    cbn in Hsplit. lia. }
  assert (Hk0 : (0 < k)%nat).
  { destruct k; [|lia]. destruct stem; [|done]. by destruct Hne. }
  rewrite Hsplit, rfind_dot_append_exdf.
  unfold len. rewrite length_append, Hstem. cbn [String.length].
  replace ((0 <? Z.of_nat k) && (Z.of_nat k <? Z.of_nat (k + 5) - 1)) with true.
  - unfold slice_from. rewrite length_append, Hstem, Nat2Z.id.
    rewrite <- Hstem at 1. rewrite substring_append_r.
    replace (k + String.length ".exdf" - k)%nat with 5%nat by (cbn; lia). done.
  - symmetry. apply andb_true_intro. split; apply Z.ltb_lt; lia.
Qed.

Lemma with_suffix_nonempty p sfx q : with_suffix p sfx = Ok q → q ≠ [].
Proof.
  unfold with_suffix. destruct (String.eqb (name p) EmptyString); [done|].
  intros [= <-]. by destruct (parent p).
Qed.

(** A name that ends in [.exdf] splits into a stem and the extension. *)
Lemma match_star_exdf_stem (nm : string) :
  match_star_exdf nm = true →
  ∃ stem, nm = stem +:+ ".exdf" ∧ stem = slice_to (len nm - 5) nm.
Proof.
  intros [Hlen Heq]%andb_prop.
  apply Z.leb_le in Hlen. apply String.eqb_eq in Heq.
  unfold len in *. unfold slice_from in Heq. unfold slice_to.
  set (k := (String.length nm - 5)%nat).
  assert (Hk : Z.to_nat (Z.of_nat (String.length nm) - 5) = k) by lia.
  rewrite Hk in Heq |- *.
  assert (Hk5 : (String.length nm - k = 5)%nat) by lia.
  rewrite Hk5 in Heq.
  pose proof (substring_split k nm ltac:(lia)) as Hsplit.
  rewrite Hk5, Heq in Hsplit. by exists (substring 0 k nm).
Qed.

(** [with_suffix(".xml")] on such a name keeps the stem and the folder. *)
Lemma with_suffix_exdf (p : path) :
  match_star_exdf (name p) = true → name p ≠ ".exdf"%string →
  ∃ stem, name p = stem +:+ ".exdf" ∧
    with_suffix p ".xml" = Ok (parent p ++ [stem +:+ ".xml"]).
Proof.
  intros Hm Hne. destruct (match_star_exdf_stem _ Hm) as (stem & Hnm & Hstem).
  exists stem. split; [done|]. unfold with_suffix.
  rewrite (suffix_exdf p Hm Hne).
  destruct (String.eqb (name p) EmptyString) eqn:He.
  { apply String.eqb_eq in He. by rewrite He in Hm. }
  cbn [String.eqb Ascii.eqb]. change (len ".exdf") with 5. by rewrite <- Hstem.
Qed.

(** *** The two loops *)

Lemma no_conflict_all_apart ps : no_conflict ps = true → all_apart ps.
Proof.
  induction ps as [|p ps IH]; [done|]. cbn. intros [Hp Hps]%andb_prop.
  split; [|by apply IH]. intros q Hq%list_elem_of_In.
  rewrite forallb_forall in Hp. apply Hp in Hq.
  apply andb_prop in Hq as [H1%negb_true_iff H2%negb_true_iff].
  apply bool_decide_eq_false in H1, H2. done.
Qed.

Lemma apart_sym p q ps : apart p (q :: ps) → apart p ps ∧ ¬ p `prefix_of` q ∧ ¬ q `prefix_of` p.
Proof.
  intros H. split; [|apply H; left].
  intros p' Hp'. apply H. by right.
Qed.

Lemma apart_perm p ps ps' : ps ≡ₚ ps' → apart p ps → apart p ps'.
Proof. intros Hperm H q Hq. apply H. by rewrite Hperm. Qed.

Lemma all_apart_perm ps ps' : ps ≡ₚ ps' → all_apart ps → all_apart ps'.
Proof.
  induction 1 as [|x l l' Hperm IH|x y l|l l' l'' _ IH1 _ IH2]; [done| | |auto].
  - cbn. intros [Hx Hl]. split; [by eapply apart_perm|by apply IH].
  - cbn. intros (Hy & Hx & Hl).
    apply apart_sym in Hy as (Hy & Hyx & Hxy).
    split; [|done]. intros q [->|Hq]%elem_of_cons; [done|by apply Hx].
Qed.

Lemma all_apart_app_r ps qs : all_apart (ps ++ qs) → all_apart qs.
Proof. induction ps as [|p ps IH]; [done|]. cbn. intros [_ H]. by apply IH. Qed.

Lemma all_apart_NoDup ps : all_apart ps → NoDup ps.
Proof.
  induction ps as [|p ps IH]; [constructor|]. cbn. intros [Hp Hps].
  constructor; [|by apply IH]. intros Hin. by destruct (Hp p Hin) as [H _].
Qed.

Section WithLibrary.
Context {lib : ET.Impl}.

Lemma decrypt_exdf_file_holds root p q data bs s done cons :
  read_bytes root p = Ok data → transform data = Ok bs →
  with_suffix p ".xml" = Ok q →
  holds s done → apart q done.*1 →
  ∃ s2, decrypt_exdf_file root p q (State s cons) = (Ok true, State s2 cons) ∧
        holds s2 ((q, bs) :: done).
Proof.
  intros Hread Htr Hq Hholds Hapart.
  unfold transform in Htr.
  destruct (decrypt_exdf data) as [dec|] eqn:Hdec; [|done].
  cbn in Htr. destruct (Utf8.decode dec) as [x|] eqn:Hutf; [|done].
  cbn in Htr. destruct (pretty_print_xml x) as [f|] eqn:Hfmt; [|done].
  cbn in Htr.
  destruct (prepare_spec s done q cons Hholds (with_suffix_nonempty _ _ _ Hq) Hapart)
    as (s1 & Hmk & Hnone & Hwalk & Hnext).
  exists (<[q := OFile bs]> s1). split; [|apply Hnext].
  rewrite decrypt_exdf_file_run. unfold try_body. rewrite !bind_run. unfold lift.
  rewrite Hread, bind_run, Hdec, bind_run, Hutf, bind_run, Hfmt, bind_run, Hmk.
  rewrite bind_run, (write_text_run _ _ bs) by done. done.
Qed.

Lemma decrypt_loop_holds root L : ∀ jobs s done cons success failed,
  Forall2 (λ p (job : path * list Z), ∃ data,
    read_bytes root p = Ok data ∧ transform data = Ok job.2 ∧
    with_suffix p ".xml" = Ok job.1) L jobs →
  all_apart (jobs.*1 ++ done.*1) → holds s done →
  ∃ s', decrypt_loop root L success failed (State s cons)
        = (Ok ((success + length L)%nat, failed),
           State s' (cons ++ map LDecrypted L)) ∧
        holds s' (rev jobs ++ done).
Proof.
  induction L as [|p L IH]; intros jobs s done cons success failed Hjobs Hapart Hholds.
  - apply Forall2_nil_inv_l in Hjobs as ->. exists s. cbn.
    rewrite app_nil_r, Nat.add_0_r. done.
  - apply Forall2_cons_inv_l in Hjobs as ([q bs] & jobs' & (data & Hread & Htr & Hq) & Hjobs & ->).
    cbn [fst snd] in Htr, Hq. rewrite fmap_cons in Hapart.
    cbn [app all_apart fst] in Hapart. destruct Hapart as [Hqa Hrest].
    destruct (decrypt_exdf_file_holds root p q data bs s done cons Hread Htr Hq Hholds)
      as (s2 & Hrun & Hholds2).
    { intros p' Hp'. apply Hqa. apply elem_of_app. by right. }
    destruct (IH jobs' s2 ((q, bs) :: done) (cons ++ [LDecrypted p]) (S success) failed Hjobs)
      as (s' & Hloop & Hholds'); [|done|].
    { apply (all_apart_perm (q :: jobs'.*1 ++ done.*1));
        [|split; [exact Hqa|exact Hrest]].
      rewrite fmap_cons. apply Permutation_middle. }
    exists s'. split.
    + cbn [decrypt_loop]. rewrite bind_run. unfold lift at 1. rewrite Hq.
      rewrite bind_run, Hrun, bind_run. cbn [print out console].
      rewrite Hloop. cbn [length map]. rewrite <- app_assoc. cbn [app].
      do 3 f_equal. lia.
    + cbn [rev]. by rewrite <- app_assoc.
Qed.

End WithLibrary.

Lemma copy_jobs_cons p n F :
  copy_jobs ((p, n) :: F) =
  match n with
  | File _ data =>
    if String.eqb (lower (suffix p)) ".exdf" then [] else [(p, data)]
  | Dir _ => []
  end ++ copy_jobs F.
Proof. done. Qed.

Lemma copy_loop_holds root F : ∀ s done cons k,
  Forall (λ '(p, n), is_file n = true →
    String.eqb (lower (suffix p)) ".exdf" = false →
    p ≠ [] ∧ ∃ data, n = File true data ∧ read_bytes root p = Ok data) F →
  all_apart ((copy_jobs F).*1 ++ done.*1) → holds s done →
  ∃ s', copy_loop root F k (State s cons)
        = (Ok (k + length (copy_jobs F))%nat, State s' cons) ∧
        holds s' (rev (copy_jobs F) ++ done).
Proof.
  induction F as [|[p n] F IH]; intros s done cons k Hall Hapart Hholds.
  - exists s. cbn. by rewrite Nat.add_0_r.
  - apply Forall_cons in Hall as [Hp Hall]. cbn [copy_loop].
    destruct n as [r data|entries]; cbn [is_file].
    + destruct (String.eqb (lower (suffix p)) ".exdf") eqn:Hsfx.
      * rewrite copy_jobs_cons, Hsfx in *. cbn [app] in *.
        by apply IH.
      * destruct (Hp eq_refl eq_refl) as (Hne & data' & [= -> ->] & Hread).
        rewrite copy_jobs_cons, Hsfx in *. cbn [app] in *.
        rewrite fmap_cons in Hapart. cbn [app all_apart fst] in Hapart.
        destruct Hapart as [Hpa Hrest].
        destruct (prepare_spec s done p cons Hholds Hne) as (s1 & Hmk & Hnone & Hwalk & Hnext).
        { intros p' Hp'. apply Hpa. apply elem_of_app. by right. }
        destruct (IH (<[p := OFile data']> s1) ((p, data') :: done) cons (S k) Hall)
          as (s' & Hloop & Hholds'); [|done|].
        { apply (all_apart_perm (p :: (copy_jobs F).*1 ++ done.*1));
            [|split; [exact Hpa|exact Hrest]].
          rewrite fmap_cons. apply Permutation_middle. }
        exists s'. split.
        -- rewrite bind_run, Hmk, bind_run, (copy2_run _ _ _ data') by done.
           rewrite Hloop. cbn [app length]. do 2 f_equal. lia.
        -- cbn [app rev]. by rewrite <- app_assoc.
    + rewrite copy_jobs_cons in *. cbn [app] in *. by apply IH.
Qed.

Lemma all_apart_app_l ps qs : all_apart (ps ++ qs) → all_apart ps.
Proof.
  intros H. apply (all_apart_app_r qs ps).
  eapply all_apart_perm; [|exact H]. apply Permutation_app_comm.
Qed.

Lemma holds_files s done :
  holds s done → NoDup done.*1 → files s = list_to_map done.
Proof.
  intros (_ & _ & Hfiles & _) Hnd. apply map_eq. intros q.
  apply option_eq. intros d. unfold files. rewrite lookup_omap_Some.
  rewrite <- elem_of_list_to_map by done. rewrite <- Hfiles. split.
  - intros ([d'|] & [= ->] & Hs). done.
  - intros Hs. by exists (OFile d).
Qed.

Lemma holds_size s done :
  holds s done → NoDup done.*1 → size (files s) = length done.
Proof.
  intros Hh Hnd. rewrite (holds_files _ _ Hh Hnd).
  by apply map_size_list_to_map.
Qed.

Lemma holds_root (s : gmap path onode) :
  s = ∅ ∨ s = {[ [] := ODir ]} →
  ∀ s1, (∀ q, s1 !! q = if decide (q `prefix_of` []) then Some ODir else s !! q) →
  wf_store s1 → holds s1 [].
Proof.
  intros Hs s1 Hlook Hwf.
  assert (Hs1 : ∀ q, s1 !! q = if decide (q = []) then Some ODir else None).
  { intros q. rewrite Hlook. destruct (decide (q = [])) as [->|Hne].
    - by rewrite decide_True.
    - rewrite decide_False; [|by intros ?%prefix_nil_inv].
      destruct Hs as [->| ->]; [done|]. by rewrite lookup_singleton_ne. }
  split; [done|]. split; [by rewrite Hs1|]. split.
  - intros q d. rewrite Hs1. case_decide; split; try done; by intros ?%elem_of_nil.
  - intros q. rewrite Hs1. case_decide; [by left|done].
Qed.

Lemma wf_store_initial (s : gmap path onode) : s = ∅ ∨ s = {[ [] := ODir ]} → wf_store s.
Proof.
  intros [->| ->] q c [x Hx]; [done|].
  rewrite lookup_singleton_ne in Hx; [done|]. by destruct q.
Qed.

Section WithLibrary.
Context {lib : ET.Impl}.

Lemma read_bytes_found matches root p data :
  wf_node root = true → In (p, File true data) (rglob matches root) →
  read_bytes root p = Ok data.
Proof.
  intros Hwf Hin. unfold read_bytes. by rewrite (rglob_lookup _ _ _ _ Hwf Hin).
Qed.

Lemma xml_job_spec root p n :
  wf_node root = true → In (p, n) (rglob match_star_exdf root) →
  transformable (p, n) →
  ∃ data, n = File true data ∧ read_bytes root p = Ok data ∧
    transform data = Ok (xml_job root p).2 ∧
    with_suffix p ".xml" = Ok (xml_job root p).1.
Proof.
  intros Hwf Hin (_ & data & bs & Hn & Htr). cbn in Hn. subst n.
  pose proof (read_bytes_found _ _ _ _ Hwf Hin) as Hread.
  exists data. split; [done|]. split; [done|].
  unfold xml_job, xml_path. cbn [fst snd]. rewrite Hread, Htr. split; [done|].
  apply rglob_matches in Hin as (par & nm & -> & Hm).
  destruct (with_suffix_ok (par ++ [nm]) ".xml") as [q ->]; [|done].
  rewrite name_snoc. by apply match_star_exdf_nonempty.
Qed.

Lemma lower_exdf : lower ".exdf" = ".exdf"%string.
Proof. done. Qed.

Lemma count_split (A : list (path * node)) :
  Forall (λ found, match_star_exdf (name found.1) = true → transformable found) A →
  Forall copyable A →
  length (List.filter (λ found, is_file found.2) A) =
  (length (List.filter (λ found, match_star_exdf (name found.1)) A) +
   length (copy_jobs A))%nat.
Proof.
  induction A as [|[p n] A IH]; intros Hx Hc; [done|].
  apply Forall_cons in Hx as [Hx1 Hx]. apply Forall_cons in Hc as [Hc1 Hc].
  specialize (IH Hx Hc). rewrite copy_jobs_cons, length_app.
  cbn [List.filter fst snd] in *.
  destruct (match_star_exdf (name p)) eqn:Hm.
  - destruct (Hx1 eq_refl) as (Hne & data & bs & Hn & _).
    cbn [fst snd] in Hne, Hn. subst n. cbn [is_file].
    rewrite (suffix_exdf p Hm Hne), lower_exdf. cbn. lia.
  - destruct n as [r data|entries]; cbn [is_file]; [|cbn; lia].
    destruct (Hc1 eq_refl Hm) as (Hsfx & _). cbn [fst] in Hsfx.
    apply String.eqb_neq in Hsfx. rewrite Hsfx. cbn. lia.
Qed.

Lemma rev_reverse {A} (l : list A) : rev l = reverse l.
Proof. unfold reverse. apply rev_alt. Qed.

Lemma print_bind {A} l (k : () → M A) σ :
  (print l ≫= k) σ = k () (State (out σ) (console σ ++ [l])).
Proof. done. Qed.

Lemma main_run argv root σ :
  length argv = 3%nat →
  main argv (Some root) σ =
  (let exdf_files := (rglob match_star_exdf root).*1 in
   print (LFound (length exdf_files));;
   print LOutputDirectory;;
   print LRule;;
   mkdir [];;
   '(success, failed) ← decrypt_loop root (sorted exdf_files) 0%nat 0%nat;
   print LRule;;
   print LCopying;;
   copied_count ← copy_loop root (rglob match_star root) 0%nat;
   print (LCopied copied_count);;
   print LRule;;
   print (LDone success failed copied_count);;
   mret Completed) σ.
Proof.
  intros H. unfold main. rewrite bool_decide_eq_false_2; [done|].
  intros Hne. by apply Hne.
Qed.

(** C1, as amended: on a fresh or empty output folder that lies outside
    the input folder, when every entry matched by [*.exdf] is a readable
    regular file that the script can transform, every other regular file is
    readable and has no [.exdf] suffix in another case, and no two output
    paths collide, the run completes and each regular file of the input
    appears once in the output: an [.exdf] file as its transformed bytes at
    the same place with the extension [.xml], any other file as its own
    bytes at its own path; the output holds as many regular files as the
    input, and the summary counts no failure. *)
Theorem mirror_complete (argv : list string) (root : node) (σ : state)
    (Hargv : length argv = 3%nat)
    (Hwf : wf_node root = true)
    (Hout : out σ = ∅ ∨ out σ = {[ [] := ODir ]})
    (Hexdf : Forall transformable (rglob match_star_exdf root))
    (Hother : Forall copyable (rglob match_star root))
    (Hplan : no_conflict (planned root) = true) :
  ∃ σ', main argv (Some root) σ = (Ok Completed, σ') ∧
    (∀ p n, In (p, n) (regular_files root) →
       if match_star_exdf (name p)
       then ∃ stem data bs, name p = stem +:+ ".exdf" ∧ n = File true data ∧
              transform data = Ok bs ∧
              out σ' !! (parent p ++ [stem +:+ ".xml"]) = Some (OFile bs)
       else ∃ data, n = File true data ∧ out σ' !! p = Some (OFile data)) ∧
    size (files (out σ')) = length (regular_files root) ∧
    List.last (console σ') LRule =
      LDone (length (rglob match_star_exdf root)) 0
            (length (regular_files root) - length (rglob match_star_exdf root)).
Proof.
  set (E := rglob match_star_exdf root) in *.
  set (A := rglob match_star root) in *.
  set (Es := sorted E.*1).
  set (jobs := map (xml_job root) Es).
  set (cjobs := copy_jobs A).
  assert (HEs : Es ≡ₚ E.*1) by apply sorted_perm.
  assert (HE : E = List.filter (λ found, match_star_exdf (name found.1)) A)
    by apply rglob_filter.
  (* the jobs of the first loop *)
  assert (Hjobs : Forall2 (λ p (job : path * list Z), ∃ data,
            read_bytes root p = Ok data ∧ transform data = Ok job.2 ∧
            with_suffix p ".xml" = Ok job.1) Es jobs).
  { unfold jobs. change (map ?f ?l) with (f <$> l). apply Forall2_fmap_r.
    apply Forall_Forall2_diag, Forall_forall. intros p Hp.
    rewrite HEs in Hp. apply list_elem_of_fmap in Hp as [[p' n] [-> Hin]].
    apply list_elem_of_In in Hin. rewrite Forall_forall in Hexdf.
    destruct (xml_job_spec root p' n Hwf Hin) as (data & _ & H); [|by exists data].
    apply Hexdf. by apply list_elem_of_In. }
  assert (Hjobs1 : jobs.*1 = map xml_path Es).
  { unfold jobs. change (map ?f ?l) with (f <$> l). by rewrite <- list_fmap_compose. }
  (* the plan is free of conflicts in the order the script follows *)
  apply no_conflict_all_apart in Hplan. unfold planned in Hplan. fold E A cjobs in Hplan.
  assert (Hplan1 : all_apart (jobs.*1 ++ cjobs.*1)).
  { eapply all_apart_perm; [|exact Hplan]. rewrite Hjobs1.
    apply Permutation_app; [|done]. change (map ?f ?l) with (f <$> l).
    by rewrite HEs. }
  (* the files the second loop copies *)
  assert (Hcopy : Forall (λ '(p, n), is_file n = true →
            String.eqb (lower (suffix p)) ".exdf" = false →
            p ≠ [] ∧ ∃ data, n = File true data ∧ read_bytes root p = Ok data) A).
  { apply Forall_forall. intros [p n] Hin%list_elem_of_In Hfile Hsfx.
    split. { apply rglob_matches in Hin as (par & nm & -> & _). by destruct par. }
    destruct (match_star_exdf (name p)) eqn:Hm.
    - exfalso. assert (HinE : In (p, n) E).
      { rewrite HE. apply filter_In. by split. }
      rewrite Forall_forall in Hexdf.
      destruct (Hexdf (p, n) ltac:(by apply list_elem_of_In)) as (Hne & _).
      cbn [fst] in Hne. rewrite (suffix_exdf p Hm Hne), lower_exdf in Hsfx. done.
    - rewrite Forall_forall in Hother.
      destruct (Hother (p, n) ltac:(by apply list_elem_of_In) Hfile Hm)
        as (_ & data & Hn). cbn [snd] in Hn. subst n.
      exists data. split; [done|]. by eapply read_bytes_found. }
  (* the run *)
  rewrite main_run by done. cbn zeta. fold E A Es.
  rewrite !print_bind. cbn [out console]. rewrite bind_run.
  match goal with |- context [mkdir [] (State ?s ?c)] =>
    destruct (mkdir_spec [] s c) as (s0 & Hmk & Hwf0 & Hlook0)
  end.
  { by apply wf_store_initial. }
  { intros q d ->%prefix_nil_inv. destruct Hout as [-> | ->]; [done|].
    by rewrite lookup_singleton_eq. }
  rewrite Hmk.
  pose proof (holds_root _ Hout s0 Hlook0 Hwf0) as Hh0.
  rewrite bind_run.
  match goal with |- context [decrypt_loop root Es _ _ (State ?s ?c)] =>
    destruct (decrypt_loop_holds root Es jobs s [] c 0%nat 0%nat Hjobs)
      as (s1 & Hloop1 & Hh1); [|done|]
  end.
  { cbn [fmap list_fmap]. rewrite app_nil_r. eapply all_apart_app_l, Hplan1. }
  rewrite Hloop1. rewrite !print_bind. cbn [out console]. rewrite bind_run.
  match goal with |- context [copy_loop root A _ (State ?s ?c)] =>
    destruct (copy_loop_holds root A s (rev jobs ++ []) c 0%nat Hcopy)
      as (s2 & Hloop2 & Hh2); [|done|]
  end.
  { fold cjobs. eapply all_apart_perm; [|exact Hplan1].
    rewrite app_nil_r, rev_reverse, fmap_reverse, reverse_Permutation.
    apply Permutation_app_comm. }
  rewrite Hloop2. rewrite !print_bind. cbn [out console]. fold cjobs in Hh2 |- *.
  eexists. split; [reflexivity|]. cbn [out console].
  assert (Hnd : NoDup (rev cjobs ++ rev jobs ++ []).*1).
  { apply all_apart_NoDup. eapply all_apart_perm; [|exact Hplan1].
    rewrite app_nil_r, !rev_reverse, fmap_app, !fmap_reverse, !reverse_Permutation.
    apply Permutation_app_comm. }
  assert (Hcount : length (regular_files root) = (length E + length cjobs)%nat).
  { unfold regular_files. fold A. rewrite HE. apply count_split; [|done].
    apply Forall_forall. intros [p n] Hin Hm. rewrite Forall_forall in Hexdf.
    apply Hexdf. apply list_elem_of_In. rewrite HE. apply filter_In.
    split; [by apply list_elem_of_In|done]. }
  destruct Hh2 as (Hwf2 & Hroot2 & Hfiles2 & Hdirs2).
  split; [|split].
  - intros p n [Hin Hfile]%filter_In. cbn [snd] in Hfile. fold A in Hin.
    destruct (match_star_exdf (name p)) eqn:Hm.
    + assert (HinE : In (p, n) E) by (rewrite HE; apply filter_In; by split).
      rewrite Forall_forall in Hexdf.
      pose proof (Hexdf (p, n) ltac:(by apply list_elem_of_In)) as Htr.
      destruct (xml_job_spec root p n Hwf HinE Htr) as (data & -> & _ & Htrd & Hq).
      destruct (with_suffix_exdf p Hm (proj1 Htr)) as (stem & Hstem & Hq').
      rewrite Hq in Hq'. injection Hq' as Hq'.
      exists stem, data, (xml_job root p).2.
      split; [done|]. split; [done|]. split; [done|]. rewrite <- Hq'.
      apply Hfiles2. apply elem_of_app. right. apply elem_of_app. left.
      rewrite rev_reverse. apply elem_of_reverse. unfold jobs. change (map ?f ?l) with (f <$> l).
      apply list_elem_of_fmap. exists p. split; [reflexivity|].
      rewrite HEs. apply list_elem_of_fmap. exists (p, File true data).
      split; [done|by apply list_elem_of_In].
    + rewrite Forall_forall in Hother.
      destruct (Hother (p, n) ltac:(by apply list_elem_of_In) Hfile Hm)
        as (Hsfx & data & Hn). cbn [fst snd] in Hsfx, Hn. subst n.
      exists data. split; [done|].
      apply Hfiles2. apply elem_of_app. left. rewrite rev_reverse. apply elem_of_reverse.
      apply list_elem_of_In. unfold cjobs, copy_jobs. apply in_flat_map.
      exists (p, File true data). split; [done|].
      apply String.eqb_neq in Hsfx. rewrite Hsfx. by left.
  - rewrite (holds_size _ (rev cjobs ++ rev jobs ++ [])); [|done|done].
    rewrite Hcount, app_nil_r, length_app, !length_rev.
    unfold jobs. rewrite length_map, (Permutation_length HEs), length_fmap. lia.
  - rewrite last_last.
    rewrite Hcount. f_equal.
    + rewrite (Permutation_length HEs), length_fmap. lia.
    + lia.
Qed.

End WithLibrary.

Lemma mirror_complete_witness :
  wf_node (Dir [("a.exdf", File true [105; 211; 41; 105; 19; 161; 41; 105; 161; 211; 41]);
                ("sub", Dir [("n.txt", File true [1; 2])])]) = true ∧
  no_conflict (planned (Dir [("a.exdf", File true [105; 211; 41; 105; 19; 161; 41; 105; 161; 211; 41]);
                ("sub", Dir [("n.txt", File true [1; 2])])])) = true ∧
  ∃ σ', main (lib := ET.reference) ["decrypt_exdf.py"; "in"; "out"]
          (Some (Dir [("a.exdf", File true [105; 211; 41; 105; 19; 161; 41; 105; 161; 211; 41]);
                      ("sub", Dir [("n.txt", File true [1; 2])])])) (State ∅ [])
        = (Ok Completed, σ') ∧
        size (files (out σ')) = 2%nat.
Proof.
  split; [reflexivity|]. split; [reflexivity|].
  assert (Hexdf : Forall (transformable (lib := ET.reference))
            (rglob match_star_exdf
               (Dir [("a.exdf", File true [105; 211; 41; 105; 19; 161; 41; 105; 161; 211; 41]);
                     ("sub", Dir [("n.txt", File true [1; 2])])]))).
  { set (found := rglob _ _). vm_compute in found. subst found.
    apply Forall_cons_2; [|apply Forall_nil_2].
    split; [discriminate|]. eexists _, _. split; reflexivity. }
  assert (Hother : Forall copyable
            (rglob match_star
               (Dir [("a.exdf", File true [105; 211; 41; 105; 19; 161; 41; 105; 161; 211; 41]);
                     ("sub", Dir [("n.txt", File true [1; 2])])]))).
  { set (found := rglob _ _). vm_compute in found. subst found. unfold copyable.
    repeat apply Forall_cons_2; try apply Forall_nil_2;
      cbn [fst snd is_file]; intros H1 H2; try discriminate.
    split; [discriminate|by eexists]. }
  destruct (mirror_complete (lib := ET.reference) ["decrypt_exdf.py"; "in"; "out"]
              (Dir [("a.exdf", File true [105; 211; 41; 105; 19; 161; 41; 105; 161; 211; 41]);
                    ("sub", Dir [("n.txt", File true [1; 2])])])
              (State ∅ []) eq_refl eq_refl (or_introl eq_refl) Hexdf Hother eq_refl)
    as (σ' & Hrun & _ & Hsize & _).
  exists σ'. split; [exact Hrun|exact Hsize].
Defined.

End MirrorFacts.

(** ** More on the cipher *)

Module CipherLaws.
Import Cipher CipherFacts.

Lemma land_low_byte (n m : Z) : Z.land 255 m = m → Z.land (n mod 256) m = Z.land n m.
Proof.
  intros Hm. change 256 with (2 ^ 8). rewrite <- Z.land_ones by lia.
  change (Z.ones 8) with 255. by rewrite <- Z.land_assoc, Hm.
Qed.

(** X1: reversing the bits of a byte twice gives the byte back. *)
Theorem reverse_bits_involutive (b : Z) (Hb : 0 ≤ b < 256) :
  reverse_bits (reverse_bits b) = b.
Proof.
  apply Z.eqb_eq.
  exact (byte_forall (λ b, reverse_bits (reverse_bits b) =? b) eq_refl b Hb).
Qed.

Lemma reverse_bits_involutive_witness :
  0 ≤ 0x16 < 256 ∧ reverse_bits (reverse_bits 0x16) = 0x16.
Proof.
  assert (Hb : 0 ≤ 0x16 < 256) by lia.
  split; [exact Hb|]. exact (reverse_bits_involutive 0x16 Hb).
Defined.

(** X2: [reverse_bits] reads only the low eight bits of its argument and
    returns a value in [range(256)] for every integer, a negative one
    included; so [decrypt_exdf] raises on no sequence of integers, and what it
    returns is what it returns for the low bytes of the sequence. *)
Theorem decrypt_exdf_any_integers (data : list Z) :
  (∀ n : Z, reverse_bits n = reverse_bits (n mod 256) ∧ 0 ≤ reverse_bits n < 256) ∧
  ∃ out, decrypt_exdf data = Ok out ∧ is_bytes out ∧
         decrypt_exdf (map (λ n, n mod 256) data) = Ok out.
Proof.
  assert (Hlow : ∀ n, reverse_bits n = reverse_bits (n mod 256)).
  { intros n. unfold reverse_bits. by rewrite !land_low_byte by reflexivity. }
  split; [intros n; split; [apply Hlow|apply reverse_bits_range]|].
  exists (map (λ b, Z.lxor (reverse_bits b) 0xAA) data).
  split; [apply decrypt_exdf_map|]. split.
  - rewrite <- (map_map reverse_bits (λ b, Z.lxor b 0xAA)).
    apply xored_is_bytes, reversed_is_bytes.
  - rewrite decrypt_exdf_map, map_map. f_equal. apply map_ext. intros n.
    by rewrite <- Hlow.
Qed.

Lemma twice_byte (b : Z) :
  0 ≤ b < 256 → Z.lxor (reverse_bits (Z.lxor (reverse_bits b) 0xAA)) 0xAA = 255 - b.
Proof.
  intros Hb. apply Z.eqb_eq.
  exact (byte_forall
    (λ b, Z.lxor (reverse_bits (Z.lxor (reverse_bits b) 0xAA)) 0xAA =? 255 - b)
    eq_refl b Hb).
Qed.

(** X3: decrypting twice is not the identity: it complements every byte,
    [b] becoming [255 - b]; on a sequence that is not empty the result differs
    from the input. *)
Theorem decrypt_exdf_twice (data : list Z) (Hdata : is_bytes data) :
  (y ← decrypt_exdf data; decrypt_exdf y) = Ok (map (λ b, 255 - b) data) ∧
  (data ≠ [] → (y ← decrypt_exdf data; decrypt_exdf y) ≠ Ok data).
Proof.
  assert (Heq : (y ← decrypt_exdf data; decrypt_exdf y) = Ok (map (λ b, 255 - b) data)).
  { rewrite decrypt_exdf_map. cbn. rewrite decrypt_exdf_map, map_map. f_equal.
    apply map_ext_in. intros b Hb. apply twice_byte.
    unfold is_bytes in Hdata. rewrite Forall_forall in Hdata.
    by apply Hdata, list_elem_of_In. }
  split; [exact Heq|].
  rewrite Heq. destruct data as [|b data]; [done|].
  intros _ [= H _]. lia.
Qed.

Lemma decrypt_exdf_twice_witness :
  is_bytes [0x3C; 0x00] ∧
  (y ← decrypt_exdf [0x3C; 0x00]; decrypt_exdf y) = Ok [0xC3; 0xFF].
Proof.
  assert (Hb : is_bytes [0x3C; 0x00]) by (repeat constructor; lia).
  split; [exact Hb|]. exact (proj1 (decrypt_exdf_twice _ Hb)).
Defined.

(** X4: [decrypt_exdf] works byte by byte: the decryption of a
    concatenation is the concatenation of the decryptions. *)
Theorem decrypt_exdf_app (a b : list Z) :
  decrypt_exdf (a ++ b) = (x ← decrypt_exdf a; y ← decrypt_exdf b; Ok (x ++ y)).
Proof. rewrite !decrypt_exdf_map. cbn. by rewrite map_app. Qed.
End CipherLaws.

(** ** The codec *)

Module Utf8Facts.
Import Utf8.

(** Bit operations on the ranges the codec uses, as arithmetic. *)
Lemma lor_add (hi lo k : Z) :
  0 ≤ k → 0 ≤ lo < 2 ^ k → Z.lor (hi * 2 ^ k) lo = hi * 2 ^ k + lo.
Proof.
  intros Hk Hlo.
  assert (Hand : Z.land (hi * 2 ^ k) lo = 0).
  { apply Z.bits_inj'. intros n Hn. rewrite Z.land_spec, Z.bits_0.
    destruct (Z.lt_ge_cases n k) as [Hlt|Hge].
    - by rewrite Z.mul_pow2_bits_low.
    - rewrite <- (Z.mod_small lo (2 ^ k)) by lia.
      rewrite Z.mod_pow2_bits_high by lia. apply andb_false_r. }
  rewrite <- Z.lxor_lor by done. by rewrite Z.add_nocarry_lxor.
Qed.

Lemma between_true lo hi b : between lo hi b = true ↔ lo ≤ b ≤ hi.
Proof. unfold between. rewrite andb_true_iff, !Z.leb_le. lia. Qed.

Lemma between_false lo hi b : between lo hi b = false ↔ b < lo ∨ hi < b.
Proof. unfold between. rewrite andb_false_iff, !Z.leb_gt. lia. Qed.

Ltac arith :=
  unfold cont, low6;
  change 0x3F with (Z.ones 6); change 0x1F with (Z.ones 5);
  change 0x0F with (Z.ones 4); change 0x07 with (Z.ones 3);
  rewrite ?Z.land_ones by lia;
  rewrite ?Z.shiftl_mul_pow2, ?Z.shiftr_div_pow2 by lia.

Ltac ranges :=
  repeat match goal with
  | H : _ && _ = true |- _ => apply andb_prop in H as [? ?]
  | H : between _ _ _ = true |- _ => apply between_true in H
  | H : between _ _ _ = false |- _ => apply between_false in H
  | H : (_ =? _) = true |- _ => apply Z.eqb_eq in H
  | H : (_ =? _) = false |- _ => apply Z.eqb_neq in H
  end.

Lemma lor_lead (m x k : Z) :
  0 ≤ k → 0 ≤ x < 2 ^ k → Z.lor (m * 2 ^ k) x = m * 2 ^ k + x.
Proof. apply lor_add. Qed.

Lemma encode_char_1 b0 : between 0x00 0x7F b0 = true → encode_char b0 = Ok [b0].
Proof. intros H. unfold encode_char. by rewrite H. Qed.

Lemma encode_char_2 b0 b1 :
  between 0xC2 0xDF b0 = true → between 0x80 0xBF b1 = true →
  encode_char (Z.lor (Z.shiftl (Z.land b0 0x1F) 6) (low6 b1)) = Ok [b0; b1].
Proof.
  intros H0 H1. ranges. arith.
  rewrite (lor_add _ _ 6) by (try lia; Z.div_mod_to_equations; lia).
  set (c := b0 mod 2 ^ 5 * 2 ^ 6 + b1 mod 2 ^ 6).
  assert (Hc : c = (b0 - 192) * 64 + (b1 - 128)).
  { unfold c. Z.div_mod_to_equations. lia. }
  unfold encode_char.
  replace (between 0x00 0x7F c) with false by (symmetry; apply between_false; lia).
  replace (between 0x80 0x7FF c) with true by (symmetry; apply between_true; lia).
  arith.
  change 0xC0 with (3 * 2 ^ 6). change 0x80 with (2 * 2 ^ 6).
  rewrite !(lor_add _ _ 6) by (try lia; Z.div_mod_to_equations; lia).
  do 2 f_equal; [|f_equal]; Z.div_mod_to_equations; lia.
Qed.

Lemma encode_char_3 b0 b1 b2 :
  between 0xE0 0xEF b0 = true →
  between (if b0 =? 0xE0 then 0xA0 else 0x80) (if b0 =? 0xED then 0x9F else 0xBF) b1
    = true →
  between 0x80 0xBF b2 = true →
  encode_char (Z.lor (Z.shiftl (Z.land b0 0x0F) 12)
                 (Z.lor (Z.shiftl (low6 b1) 6) (low6 b2))) = Ok [b0; b1; b2].
Proof.
  intros H0 H1 H2. ranges.
  assert (0x80 ≤ b1 ≤ 0xBF ∧ (b0 = 0xE0 → 0xA0 ≤ b1) ∧ (b0 = 0xED → b1 ≤ 0x9F))
    as (Hb1 & Hlo & Hhi).
  { destruct (Z.eqb_spec b0 0xE0), (Z.eqb_spec b0 0xED); lia. }
  clear H1. arith.
  rewrite (lor_add _ _ 6) by (try lia; Z.div_mod_to_equations; lia).
  rewrite (lor_add _ _ 12) by (try lia; Z.div_mod_to_equations; lia).
  set (c := b0 mod 2 ^ 4 * 2 ^ 12 + (b1 mod 2 ^ 6 * 2 ^ 6 + b2 mod 2 ^ 6)).
  assert (Hc : c = (b0 - 224) * 4096 + (b1 - 128) * 64 + (b2 - 128)).
  { unfold c. Z.div_mod_to_equations. lia. }
  unfold encode_char.
  replace (between 0x00 0x7F c) with false by (symmetry; apply between_false; lia).
  replace (between 0x80 0x7FF c) with false by (symmetry; apply between_false; lia).
  replace (between 0xD800 0xDFFF c) with false by (symmetry; apply between_false; lia).
  replace (between 0x800 0xFFFF c) with true by (symmetry; apply between_true; lia).
  arith.
  change 0xE0 with (14 * 2 ^ 4). change 0x80 with (2 * 2 ^ 6).
  rewrite !(lor_add _ _ 6), (lor_add _ _ 4) by (try lia; Z.div_mod_to_equations; lia).
  do 2 f_equal; [|f_equal; [|f_equal]]; Z.div_mod_to_equations; lia.
Qed.

Lemma encode_char_4 b0 b1 b2 b3 :
  between 0xF0 0xF4 b0 = true →
  between (if b0 =? 0xF0 then 0x90 else 0x80) (if b0 =? 0xF4 then 0x8F else 0xBF) b1
    = true →
  between 0x80 0xBF b2 = true → between 0x80 0xBF b3 = true →
  encode_char (Z.lor (Z.shiftl (Z.land b0 0x07) 18)
                 (Z.lor (Z.shiftl (low6 b1) 12)
                    (Z.lor (Z.shiftl (low6 b2) 6) (low6 b3)))) = Ok [b0; b1; b2; b3].
Proof.
  intros H0 H1 H2 H3. ranges.
  assert (0x80 ≤ b1 ≤ 0xBF ∧ (b0 = 0xF0 → 0x90 ≤ b1) ∧ (b0 = 0xF4 → b1 ≤ 0x8F))
    as (Hb1 & Hlo & Hhi).
  { destruct (Z.eqb_spec b0 0xF0), (Z.eqb_spec b0 0xF4); lia. }
  clear H1. arith.
  rewrite (lor_add _ _ 6) by (try lia; Z.div_mod_to_equations; lia).
  rewrite (lor_add _ _ 12) by (try lia; Z.div_mod_to_equations; lia).
  rewrite (lor_add _ _ 18) by (try lia; Z.div_mod_to_equations; lia).
  set (c := b0 mod 2 ^ 3 * 2 ^ 18 +
            (b1 mod 2 ^ 6 * 2 ^ 12 + (b2 mod 2 ^ 6 * 2 ^ 6 + b3 mod 2 ^ 6))).
  assert (Hc : c = (b0 - 240) * 262144 + (b1 - 128) * 4096 + (b2 - 128) * 64 + (b3 - 128)).
  { unfold c. Z.div_mod_to_equations. lia. }
  unfold encode_char.
  replace (between 0x00 0x7F c) with false by (symmetry; apply between_false; lia).
  replace (between 0x80 0x7FF c) with false by (symmetry; apply between_false; lia).
  replace (between 0xD800 0xDFFF c) with false by (symmetry; apply between_false; lia).
  replace (between 0x800 0xFFFF c) with false by (symmetry; apply between_false; lia).
  replace (between 0x10000 0x10FFFF c) with true by (symmetry; apply between_true; lia).
  arith.
  change 0xF0 with (30 * 2 ^ 3). change 0x80 with (2 * 2 ^ 6).
  rewrite !(lor_add _ _ 6), (lor_add _ _ 3) by (try lia; Z.div_mod_to_equations; lia).
  do 2 f_equal; [|f_equal; [|f_equal; [|f_equal]]]; Z.div_mod_to_equations; lia.
Qed.

Lemma fmap_cons_ok (c : Z) (r : result (list Z)) s :
  cons c <$> r = Ok s → ∃ s', r = Ok s' ∧ s = c :: s'.
Proof. destruct r as [s'|e]; [|done]. intros [= <-]. by exists s'. Qed.

(** One step of [decode]: the bytes of the first code point, and the rest. *)
Lemma decode_step b0 bs s :
  decode (b0 :: bs) = Ok s →
  ∃ c cs rest s', b0 :: bs = cs ++ rest ∧ (length rest < length (b0 :: bs))%nat ∧
    encode_char c = Ok cs ∧ decode rest = Ok s' ∧ s = c :: s'.
Proof.
  cbn [decode].
  destruct (between 0x00 0x7F b0) eqn:H1.
  { intros (s' & Hs' & ->)%fmap_cons_ok. exists b0, [b0], bs, s'.
    repeat split; [cbn; lia|by apply encode_char_1|done]. }
  destruct (between 0xC2 0xDF b0) eqn:H2.
  { destruct bs as [|b1 bs]; [done|].
    destruct (between 0x80 0xBF b1) eqn:Hb1; [|done].
    intros (s' & Hs' & ->)%fmap_cons_ok. eexists _, [b0; b1], bs, s'.
    repeat split; [cbn; lia|by apply encode_char_2|done]. }
  destruct (between 0xE0 0xEF b0) eqn:H3.
  { destruct bs as [|b1 [|b2 bs]]; [done|done|].
    destruct (between _ _ b1 && between 0x80 0xBF b2) eqn:Hb; [|done].
    apply andb_prop in Hb as [Hb1 Hb2].
    intros (s' & Hs' & ->)%fmap_cons_ok. eexists _, [b0; b1; b2], bs, s'.
    repeat split; [cbn; lia|by apply encode_char_3|done]. }
  destruct (between 0xF0 0xF4 b0) eqn:H4; [|done].
  destruct bs as [|b1 [|b2 [|b3 bs]]]; [done|done|done|].
  destruct (between _ _ b1 && between 0x80 0xBF b2 && between 0x80 0xBF b3) eqn:Hb; [|done].
  apply andb_prop in Hb as [Hb Hb3]. apply andb_prop in Hb as [Hb1 Hb2].
  intros (s' & Hs' & ->)%fmap_cons_ok. eexists _, [b0; b1; b2; b3], bs, s'.
  repeat split; [cbn; lia|by apply encode_char_4|done].
Qed.

Lemma decode_encode_bounded (n : nat) : ∀ bs s,
  (length bs ≤ n)%nat → decode bs = Ok s → encode s = Ok bs.
Proof.
  induction n as [|n IH]; intros [|b0 bs] s Hlen Hdec;
    try (by injection Hdec as <-); [cbn in Hlen; lia|].
  apply decode_step in Hdec as (c & cs & rest & s' & Hbs & Hlt & Hc & Hrest & ->).
  cbn [encode]. rewrite Hc. cbn.
  rewrite (IH rest s') by (done || cbn in *; lia). cbn. by rewrite Hbs.
Qed.

Lemma decode_1 b0 rest :
  between 0x00 0x7F b0 = true → decode (b0 :: rest) = cons b0 <$> decode rest.
Proof. intros H. cbn [decode]. by rewrite H. Qed.

Lemma decode_2 b0 b1 rest :
  between 0xC2 0xDF b0 = true → between 0x80 0xBF b1 = true →
  decode (b0 :: b1 :: rest)
  = cons (Z.lor (Z.shiftl (Z.land b0 0x1F) 6) (low6 b1)) <$> decode rest.
Proof.
  intros H0 H1. cbn [decode]. rewrite H0, H1.
  replace (between 0x00 0x7F b0) with false; [done|].
  symmetry. apply between_false. apply between_true in H0. lia.
Qed.

Lemma decode_3 b0 b1 b2 rest :
  between 0xE0 0xEF b0 = true →
  between (if b0 =? 0xE0 then 0xA0 else 0x80) (if b0 =? 0xED then 0x9F else 0xBF) b1
    = true →
  between 0x80 0xBF b2 = true →
  decode (b0 :: b1 :: b2 :: rest)
  = cons (Z.lor (Z.shiftl (Z.land b0 0x0F) 12)
            (Z.lor (Z.shiftl (low6 b1) 6) (low6 b2))) <$> decode rest.
Proof.
  intros H0 H1 H2. cbn [decode]. cbv zeta. rewrite H0, H1, H2.
  replace (between 0x00 0x7F b0) with false.
  2:{ symmetry. apply between_false. apply between_true in H0. lia. }
  replace (between 0xC2 0xDF b0) with false; [done|].
  symmetry. apply between_false. apply between_true in H0. lia.
Qed.

Lemma decode_4 b0 b1 b2 b3 rest :
  between 0xF0 0xF4 b0 = true →
  between (if b0 =? 0xF0 then 0x90 else 0x80) (if b0 =? 0xF4 then 0x8F else 0xBF) b1
    = true →
  between 0x80 0xBF b2 = true → between 0x80 0xBF b3 = true →
  decode (b0 :: b1 :: b2 :: b3 :: rest)
  = cons (Z.lor (Z.shiftl (Z.land b0 0x07) 18)
            (Z.lor (Z.shiftl (low6 b1) 12)
               (Z.lor (Z.shiftl (low6 b2) 6) (low6 b3)))) <$> decode rest.
Proof.
  intros H0 H1 H2 H3. cbn [decode]. cbv zeta. rewrite H0, H1, H2, H3.
  replace (between 0x00 0x7F b0) with false.
  2:{ symmetry. apply between_false. apply between_true in H0. lia. }
  replace (between 0xC2 0xDF b0) with false.
  2:{ symmetry. apply between_false. apply between_true in H0. lia. }
  replace (between 0xE0 0xEF b0) with false; [done|].
  symmetry. apply between_false. apply between_true in H0. lia.
Qed.

Ltac euclid := try lia; Z.div_mod_to_equations; lia.

(** The bytes [encode_char] gives for a code point decode to it. *)
Lemma encode_char_decode c cs rest :
  encode_char c = Ok cs → decode (cs ++ rest) = cons c <$> decode rest.
Proof.
  unfold encode_char.
  destruct (between 0x00 0x7F c) eqn:H1.
  { intros [= <-]. by apply decode_1. }
  destruct (between 0x80 0x7FF c) eqn:H2.
  { intros [= <-]. ranges. cbn [app]. arith.
    change 0xC0 with (3 * 2 ^ 6). change 0x80 with (2 * 2 ^ 6).
    rewrite !(lor_add _ _ 6) by euclid. change (2 ^ 0) with 1. rewrite Z.div_1_r.
    rewrite decode_2 by (apply between_true; euclid).
    f_equal. f_equal. arith. rewrite (lor_add _ _ 6) by euclid. euclid. }
  destruct (between 0xD800 0xDFFF c) eqn:H3; [done|].
  destruct (between 0x800 0xFFFF c) eqn:H4.
  { intros [= <-]. ranges. cbn [app]. arith.
    change 0xE0 with (14 * 2 ^ 4). change 0x80 with (2 * 2 ^ 6).
    rewrite !(lor_add _ _ 6), (lor_add _ _ 4) by euclid.
    change (2 ^ 0) with 1. rewrite Z.div_1_r.
    rewrite decode_3.
    - f_equal. f_equal. arith.
      rewrite (lor_add _ _ 6) by euclid. rewrite (lor_add _ _ 12) by euclid. euclid.
    - apply between_true. euclid.
    - apply between_true.
      destruct (Z.eqb_spec (14 * 2 ^ 4 + c / 2 ^ 12) 0xE0),
               (Z.eqb_spec (14 * 2 ^ 4 + c / 2 ^ 12) 0xED); euclid.
    - apply between_true. euclid. }
  destruct (between 0x10000 0x10FFFF c) eqn:H5; [|done].
  intros [= <-]. ranges. cbn [app]. arith.
  change 0xF0 with (30 * 2 ^ 3). change 0x80 with (2 * 2 ^ 6).
  rewrite !(lor_add _ _ 6), (lor_add _ _ 3) by euclid.
  change (2 ^ 0) with 1. rewrite Z.div_1_r.
  rewrite decode_4.
  - f_equal. f_equal. arith.
    rewrite (lor_add _ _ 6) by euclid. rewrite (lor_add _ _ 12) by euclid.
    rewrite (lor_add _ _ 18) by euclid. euclid.
  - apply between_true. euclid.
  - apply between_true.
    destruct (Z.eqb_spec (30 * 2 ^ 3 + c / 2 ^ 18) 0xF0),
             (Z.eqb_spec (30 * 2 ^ 3 + c / 2 ^ 18) 0xF4); euclid.
  - apply between_true. euclid.
  - apply between_true. euclid.
Qed.

Lemma encode_decode_all (s : list Z) : ∀ bs, encode s = Ok bs → decode bs = Ok s.
Proof.
  induction s as [|c s IH]; intros bs H; [by injection H as <-|].
  cbn [encode] in H.
  destruct (encode_char c) as [cs|] eqn:Hc; [|done]. cbn in H.
  destruct (encode s) as [tl|] eqn:Hs; [|done]. cbn in H. injection H as <-.
  rewrite (encode_char_decode _ _ _ Hc), (IH tl eq_refl). done.
Qed.

Lemma encode_char_bytes c cs : encode_char c = Ok cs → is_bytes cs.
Proof.
  unfold encode_char, is_bytes.
  destruct (between 0x00 0x7F c) eqn:H1.
  { intros [= <-]. ranges. repeat constructor; lia. }
  destruct (between 0x80 0x7FF c) eqn:H2.
  { intros [= <-]. ranges. arith.
    change 0xC0 with (3 * 2 ^ 6). change 0x80 with (2 * 2 ^ 6).
    rewrite !(lor_add _ _ 6) by euclid. repeat constructor; euclid. }
  destruct (between 0xD800 0xDFFF c) eqn:H3; [done|].
  destruct (between 0x800 0xFFFF c) eqn:H4.
  { intros [= <-]. ranges. arith.
    change 0xE0 with (14 * 2 ^ 4). change 0x80 with (2 * 2 ^ 6).
    rewrite !(lor_add _ _ 6), (lor_add _ _ 4) by euclid. repeat constructor; euclid. }
  destruct (between 0x10000 0x10FFFF c) eqn:H5; [|done].
  intros [= <-]. ranges. arith.
  change 0xF0 with (30 * 2 ^ 3). change 0x80 with (2 * 2 ^ 6).
  rewrite !(lor_add _ _ 6), (lor_add _ _ 3) by euclid. repeat constructor; euclid.
Qed.

Lemma encode_bytes (s : list Z) : ∀ bs, encode s = Ok bs → is_bytes bs.
Proof.
  induction s as [|c s IH]; intros bs H; [injection H as <-; constructor|].
  cbn [encode] in H.
  destruct (encode_char c) as [cs|] eqn:Hc; [|done]. cbn in H.
  destruct (encode s) as [tl|] eqn:Hs; [|done]. cbn in H. injection H as <-.
  apply Forall_app. split; [by eapply encode_char_bytes|by apply IH].
Qed.

Lemma encode_scalars (s : list Z) : ∀ bs,
  encode s = Ok bs → Forall (λ c, 0 ≤ c ≤ 0x10FFFF ∧ ¬ 0xD800 ≤ c ≤ 0xDFFF) s.
Proof.
  induction s as [|c s IH]; intros bs H; [constructor|].
  cbn [encode] in H.
  destruct (encode_char c) as [cs|] eqn:Hc; [|done]. cbn in H.
  destruct (encode s) as [tl|] eqn:Hs; [|done].
  constructor; [|by eapply IH].
  unfold encode_char in Hc.
  destruct (between 0x00 0x7F c) eqn:H1; [ranges; lia|].
  destruct (between 0x80 0x7FF c) eqn:H2; [ranges; lia|].
  destruct (between 0xD800 0xDFFF c) eqn:H3; [done|].
  destruct (between 0x800 0xFFFF c) eqn:H4; [ranges; lia|].
  destruct (between 0x10000 0x10FFFF c) eqn:H5; [ranges; lia|done].
Qed.

(** X5: bytes that decode as UTF-8 are the encoding of the text they decode
    to, and are bytes; the text is made of code points up to U+10FFFF that
    are no surrogates; and no other byte sequence decodes to that text, so
    an overlong form is never accepted. *)
Theorem decode_encode (bs s : list Z) (Hdec : decode bs = Ok s) :
  encode s = Ok bs ∧ is_bytes bs ∧
  Forall (λ c, 0 ≤ c ≤ 0x10FFFF ∧ ¬ 0xD800 ≤ c ≤ 0xDFFF) s ∧
  ∀ bs', decode bs' = Ok s → bs' = bs.
Proof.
  assert (H : encode s = Ok bs) by by apply (decode_encode_bounded (length bs)).
  split; [exact H|]. split; [by eapply encode_bytes|].
  split; [by eapply encode_scalars|].
  intros bs' H'. apply (decode_encode_bounded (length bs')) in H'; [|done]. congruence.
Qed.

Lemma decode_encode_witness :
  decode [0x3C; 0xC3; 0xA9; 0xE2; 0x82; 0xAC; 0xF0; 0x9F; 0x98; 0x80]
    = Ok [0x3C; 0xE9; 0x20AC; 0x1F600] ∧
  encode [0x3C; 0xE9; 0x20AC; 0x1F600]
    = Ok [0x3C; 0xC3; 0xA9; 0xE2; 0x82; 0xAC; 0xF0; 0x9F; 0x98; 0x80].
Proof.
  split; [reflexivity|].
  exact (proj1 (decode_encode [0x3C; 0xC3; 0xA9; 0xE2; 0x82; 0xAC; 0xF0; 0x9F; 0x98; 0x80]
                  [0x3C; 0xE9; 0x20AC; 0x1F600] eq_refl)).
Defined.

(** X6: what [encode] returns are bytes that decode to the text encoded;
    a text that holds a surrogate or a value that is no code point cannot be
    encoded. *)
Theorem encode_decode (s bs : list Z) (Henc : encode s = Ok bs) :
  decode bs = Ok s ∧ is_bytes bs ∧
  Forall (λ c, 0 ≤ c ≤ 0x10FFFF ∧ ¬ 0xD800 ≤ c ≤ 0xDFFF) s.
Proof.
  split; [by apply encode_decode_all|]. split; [by eapply encode_bytes|].
  by eapply encode_scalars.
Qed.

Lemma encode_decode_witness :
  encode [0x3C; 0xE9; 0x20AC; 0x1F600]
    = Ok [0x3C; 0xC3; 0xA9; 0xE2; 0x82; 0xAC; 0xF0; 0x9F; 0x98; 0x80] ∧
  decode [0x3C; 0xC3; 0xA9; 0xE2; 0x82; 0xAC; 0xF0; 0x9F; 0x98; 0x80]
    = Ok [0x3C; 0xE9; 0x20AC; 0x1F600].
Proof.
  split; [reflexivity|].
  exact (proj1 (encode_decode [0x3C; 0xE9; 0x20AC; 0x1F600]
                  [0x3C; 0xC3; 0xA9; 0xE2; 0x82; 0xAC; 0xF0; 0x9F; 0x98; 0x80] eq_refl)).
Defined.
End Utf8Facts.

(** ** What a run does to the output folder *)

Module StoreFacts.
Import Pathlib Fs Script RunFacts MirrorFacts.

Lemma open_w_cases p s cons :
  open_w p (State s cons) =
  match walk s [] p with
  | Ok _ =>
    match s !! p with
    | Some ODir => (Raise IsADirectoryError, State s cons)
    | _ => (Ok (), State (<[p := OFile []]> s) cons)
    end
  | Raise e => (Raise e, State s cons)
  end.
Proof.
  unfold open_w. rewrite bind_run. cbn [get_out out].
  rewrite bind_run. unfold lift. destruct (walk s [] p) as [[]|e]; [|done].
  by destruct (s !! p) as [[]|].
Qed.

Lemma os_mkdir_wrote p σ : wrote (out σ) p (out (os_mkdir p σ).2).
Proof.
  destruct σ as [s cons]. rewrite os_mkdir_run. cbn [out].
  destruct (walk s [] p) as [[]|e]; [|constructor].
  destruct (s !! p) eqn:Hp; [constructor|]. by apply wrote_dir.
Qed.

Lemma open_w_wrote p σ : wrote (out σ) p (out (open_w p σ).2).
Proof.
  destruct σ as [s cons]. rewrite open_w_cases. cbn [out].
  destruct (walk s [] p) as [[]|e]; [|constructor].
  destruct (s !! p) as [[d|]|] eqn:Hp; [|constructor|].
  - apply wrote_file. by rewrite Hp.
  - apply wrote_file. by rewrite Hp.
Qed.

Lemma open_w_then_put p d σ :
  wrote (out σ) p (out ((open_w p;; put p (OFile d)) σ).2).
Proof.
  destruct σ as [s cons]. rewrite bind_run, open_w_cases. cbn [out].
  destruct (walk s [] p) as [[]|e]; [|constructor].
  assert (Hfile : s !! p ≠ Some ODir →
    wrote s p (out (put p (OFile d) (State (<[p := OFile []]> s) cons)).2)).
  { intros Hp. unfold put. cbn [out snd]. rewrite insert_insert_eq. by apply wrote_file. }
  destruct (s !! p) as [[d'|]|] eqn:Hp; [|constructor|]; by apply Hfile.
Qed.

Lemma write_text_wrote p text σ : wrote (out σ) p (out (write_text p text σ).2).
Proof.
  unfold write_text. destruct (Utf8.encode text) as [bs|e] eqn:Henc.
  - pose proof (open_w_then_put p bs σ) as H.
    rewrite bind_run in H |- *. by destruct (open_w p σ) as [[[]|e] σ1].
  - pose proof (open_w_wrote p σ) as H.
    rewrite bind_run. by destruct (open_w p σ) as [[[]|e'] σ1].
Qed.

Lemma copy2_wrote root src dst σ :
  ∃ dst', (dst' = dst ∨ dst' = dst ++ [name src]) ∧
    wrote (out σ) dst' (out (copy2 root src dst σ).2).
Proof.
  destruct σ as [s cons]. unfold copy2. rewrite bind_run, is_dir_run.
  set (d := match walk s [] dst with Ok _ => _ | Raise _ => _ end).
  exists (if d then dst ++ [name src] else dst).
  split; [destruct d; auto|].
  rewrite bind_run. unfold lift.
  destruct (read_bytes root src) as [data|e]; [|constructor].
  apply (open_w_then_put _ data (State s cons)).
Qed.

Lemma wrote_extends s p s' : wrote s p s' → extends s s'.
Proof.
  intros [|Hp|d Hp] r; [done| |].
  - destruct (decide (p = r)) as [<-|Hne].
    + rewrite Hp. split; [by intros [? ?]|done].
    + by rewrite lookup_insert_ne.
  - destruct (decide (p = r)) as [<-|Hne].
    + rewrite lookup_insert_eq. split; [by eexists|done].
    + by rewrite lookup_insert_ne.
Qed.

Lemma wrote_same_outside (P : path → Prop) s p s' :
  P p → wrote s p s' → same_outside P s s'.
Proof.
  intros HP [|Hp|d Hp] r Hr; [done| |];
    rewrite lookup_insert_ne; [done| |done|]; by intros <-.
Qed.

Lemma extends_refl s : extends s s.
Proof. done. Qed.

Lemma extends_trans s1 s2 s3 : extends s1 s2 → extends s2 s3 → extends s1 s3.
Proof.
  intros H12 H23 r. destruct (H12 r) as [Ha Hb], (H23 r) as [Hc Hd]. split; auto.
Qed.

Lemma same_outside_refl P s : same_outside P s s.
Proof. done. Qed.

Lemma same_outside_trans P s1 s2 s3 :
  same_outside P s1 s2 → same_outside P s2 s3 → same_outside P s1 s3.
Proof. intros H12 H23 r Hr. by rewrite H23, H12. Qed.

Section Steps.
Context (R : gmap path onode → gmap path onode → Prop) (Q : path → Prop).
Hypothesis R_refl : ∀ s, R s s.
Hypothesis R_trans : ∀ s1 s2 s3, R s1 s2 → R s2 s3 → R s1 s3.
Hypothesis R_wrote : ∀ s p s', Q p → wrote s p s' → R s s'.

Lemma steps_bind {A B} (m : M A) (k : A → M B) :
  steps R m → (∀ a, steps R (k a)) → steps R (m ≫= k).
Proof.
  intros Hm Hk σ. rewrite bind_run. specialize (Hm σ).
  destruct (m σ) as [[a|e] σ']; cbn [snd] in *; [|done].
  eapply R_trans; [exact Hm|apply Hk].
Qed.

Lemma steps_try {A} (m : M A) (h : exn → M A) :
  steps R m → (∀ e, steps R (h e)) → steps R (try_except m h).
Proof.
  intros Hm Hh σ. unfold try_except. specialize (Hm σ).
  destruct (m σ) as [[a|e] σ']; cbn [snd] in *; [done|].
  eapply R_trans; [exact Hm|apply Hh].
Qed.

Lemma steps_same {A} (m : M A) : (∀ σ, out (m σ).2 = out σ) → steps R m.
Proof. intros H σ. rewrite H. apply R_refl. Qed.

Lemma steps_ret {A} (a : A) : steps R (mret a).
Proof. by apply steps_same. Qed.

Lemma steps_lift {A} (r : result A) : steps R (lift r).
Proof. by apply steps_same. Qed.

Lemma steps_raise {A} (e : exn) : steps R (raise (A := A) e).
Proof. by apply steps_same. Qed.

Lemma steps_print l : steps R (print l).
Proof. by apply steps_same. Qed.

Lemma steps_is_dir p : steps R (is_dir p).
Proof. by apply steps_same. Qed.

Lemma steps_os_mkdir p : Q p → steps R (os_mkdir p).
Proof. intros Hp σ. eapply R_wrote; [exact Hp|apply os_mkdir_wrote]. Qed.

Lemma steps_after_is_dir p e :
  steps R (d ← is_dir p; if d : bool then mret () else raise e).
Proof.
  apply steps_bind; [apply steps_is_dir|].
  intros []; [apply steps_ret|apply steps_raise].
Qed.

Lemma steps_mkdir_here p : Q p → steps R (mkdir_here p).
Proof.
  intros Hp. unfold mkdir_here. apply steps_try; [by apply steps_os_mkdir|].
  intros []; first [apply steps_raise|apply steps_after_is_dir].
Qed.

Lemma steps_mkdir_rev rp :
  (∀ q, q `prefix_of` rev rp → Q q) → steps R (mkdir_rev rp).
Proof.
  induction rp as [|c rq IH]; intros HQ; cbn [mkdir_rev].
  - apply steps_try; [apply steps_os_mkdir; by apply HQ|].
    intros []; first [apply steps_raise|apply steps_after_is_dir].
  - apply steps_try; [apply steps_os_mkdir; by apply HQ|].
    intros []; try apply steps_after_is_dir.
    apply steps_bind.
    + apply IH. intros q Hq. apply HQ. cbn [rev]. by apply prefix_app_r.
    + intros _. apply steps_mkdir_here. by apply HQ.
Qed.

Lemma steps_mkdir p : (∀ q, q `prefix_of` p → Q q) → steps R (mkdir p).
Proof. intros HQ. apply steps_mkdir_rev. by rewrite rev_involutive. Qed.

Lemma steps_write_text p text : Q p → steps R (write_text p text).
Proof. intros Hp σ. eapply R_wrote; [exact Hp|apply write_text_wrote]. Qed.

Lemma steps_copy2 root src dst :
  Q dst → Q (dst ++ [name src]) → steps R (copy2 root src dst).
Proof.
  intros H1 H2 σ. destruct (copy2_wrote root src dst σ) as (dst' & [->| ->] & Hw);
    (eapply R_wrote; [|exact Hw]; done).
Qed.

Context {lib : ET.Impl}.

Lemma steps_decrypt_exdf_file root input_path output_path :
  (∀ q, q `prefix_of` output_path → Q q) →
  steps R (decrypt_exdf_file root input_path output_path).
Proof.
  intros HQ. unfold decrypt_exdf_file, try_body.
  apply steps_try.
  2:{ intros e. apply steps_bind; [apply steps_print|intros; apply steps_ret]. }
  do 4 (apply steps_bind; [apply steps_lift|intros ?]).
  apply steps_bind.
  { apply steps_mkdir. intros q Hq. apply HQ.
    unfold parent in Hq.
    destruct (decide (output_path = [])) as [->|Hne]; [done|].
    destruct (exists_last Hne) as (par & c & ->).
    rewrite removelast_last in Hq. by apply prefix_app_r. }
  intros _. apply steps_bind; [by apply steps_write_text, HQ|].
  intros _. apply steps_ret.
Qed.

End Steps.

Section WithLibrary.
Context {lib : ET.Impl}.

Lemma extends_wrote s p s' : True → wrote s p s' → extends s s'.
Proof. intros _. apply wrote_extends. Qed.

Lemma keeps_decrypt_exdf_file root input_path output_path :
  steps extends (decrypt_exdf_file root input_path output_path).
Proof.
  by apply (steps_decrypt_exdf_file extends (λ _, True)
              extends_refl extends_trans extends_wrote).
Qed.

Lemma keeps_mkdir p : steps extends (mkdir p).
Proof.
  by apply (steps_mkdir extends (λ _, True) extends_refl extends_trans extends_wrote).
Qed.

Lemma keeps_copy2 root src dst : steps extends (copy2 root src dst).
Proof.
  by apply (steps_copy2 extends (λ _, True) extends_wrote).
Qed.

Lemma keeps_bind {A B} (m : M A) (k : A → M B) :
  steps extends m → (∀ a, steps extends (k a)) → steps extends (m ≫= k).
Proof. apply steps_bind, extends_trans. Qed.

Lemma keeps_print {A} l (k : M A) : steps extends k → steps extends (print l;; k).
Proof. intros Hk. apply keeps_bind; [by apply steps_print|done]. Qed.

Lemma keeps_decrypt_loop root exdf_files : ∀ success failed,
  steps extends (decrypt_loop root exdf_files success failed).
Proof.
  induction exdf_files as [|p rest IH]; intros success failed; cbn [decrypt_loop].
  - by apply steps_ret.
  - apply keeps_bind; [by apply steps_lift|]. intros q.
    apply keeps_bind; [apply keeps_decrypt_exdf_file|].
    intros []; [apply keeps_print|]; apply IH.
Qed.

Lemma keeps_copy_loop root found : ∀ copied_count,
  steps extends (copy_loop root found copied_count).
Proof.
  induction found as [|[p n] rest IH]; intros copied_count; cbn [copy_loop].
  - by apply steps_ret.
  - destruct (is_file n); [|apply IH].
    destruct (String.eqb _ _); [apply IH|].
    apply keeps_bind; [apply keeps_mkdir|]. intros _.
    apply keeps_bind; [apply keeps_copy2|]. intros _. apply IH.
Qed.

Lemma keeps_main argv input_folder : steps extends (main argv input_folder).
Proof.
  unfold main. case_bool_decide.
  { do 2 apply keeps_print. by apply steps_ret. }
  destruct input_folder as [root|].
  2:{ apply keeps_print. by apply steps_ret. }
  do 3 apply keeps_print.
  apply keeps_bind; [apply keeps_mkdir|]. intros _.
  apply keeps_bind; [apply keeps_decrypt_loop|]. intros [success failed].
  do 2 apply keeps_print.
  apply keeps_bind; [apply keeps_copy_loop|]. intros copied_count.
  do 3 apply keeps_print. by apply steps_ret.
Qed.

(** X10: whatever happens, [decrypt_exdf_file] leaves every entry of the
    output folder that is neither the output path nor above it as it was. *)
Theorem decrypt_exdf_file_frame (root : node) (input_path output_path : path)
    (σ : state) (r : path) (Hr : ¬ r `prefix_of` output_path) :
  out (decrypt_exdf_file root input_path output_path σ).2 !! r = out σ !! r.
Proof.
  revert r Hr.
  apply (steps_decrypt_exdf_file (same_outside (λ r, r `prefix_of` output_path))
           (λ r, r `prefix_of` output_path)
           (same_outside_refl _) (same_outside_trans _) (wrote_same_outside _)).
  done.
Qed.

(** X11: a run of [main] removes nothing from the output folder and turns
    no directory into a file: every entry is still there when [main] ends,
    however it ends, and every directory is still a directory. *)
Theorem main_keeps_entries (argv : list string) (input_folder : option node)
    (σ : state) (r : path) (Hr : is_Some (out σ !! r)) :
  is_Some (out (main argv input_folder σ).2 !! r) ∧
  (out σ !! r = Some ODir → out (main argv input_folder σ).2 !! r = Some ODir).
Proof. destruct (keeps_main argv input_folder σ r) as [H1 H2]. auto. Qed.

End WithLibrary.

Lemma decrypt_exdf_file_frame_witness :
  ¬ ["notes.txt"] `prefix_of` ["sub"; "a.xml"] ∧
  out (decrypt_exdf_file (lib := ET.reference)
         (Dir [("sub", Dir [("a.exdf", File true [0x69])])])
         ["sub"; "a.exdf"] ["sub"; "a.xml"]
         (State {[ [] := ODir; ["notes.txt"] := OFile [0x68; 0x69] ]} [])).2
    !! ["notes.txt"] = Some (OFile [0x68; 0x69]).
Proof.
  assert (H : ¬ ["notes.txt"] `prefix_of` ["sub"; "a.xml"]) by (by intros [k [=]]).
  split; [exact H|].
  exact (decrypt_exdf_file_frame (lib := ET.reference) _ _ _ _ _ H).
Defined.

Lemma main_keeps_entries_witness :
  is_Some ((out (State {[ [] := ODir; ["a.xml"] := ODir ]} [])) !! ["a.xml"]) ∧
  out (main (lib := ET.reference) ["decrypt_exdf.py"; "in"; "out"]
         (Some (Dir [("a.exdf", File true [0x69])]))
         (State {[ [] := ODir; ["a.xml"] := ODir ]} [])).2 !! ["a.xml"] = Some ODir.
Proof.
  assert (H : is_Some ((out (State {[ [] := ODir; ["a.xml"] := ODir ]} [])) !! ["a.xml"]))
    by (by exists ODir).
  split; [exact H|].
  exact (proj2 (main_keeps_entries (lib := ET.reference) _ _ _ _ H) eq_refl).
Defined.
End StoreFacts.

(** ** One file, and the counters *)

Module FileFacts.
Import Pathlib Fs Script RunFacts MirrorFacts Utf8Facts StoreFacts.

Lemma write_text_over p text bs s cons :
  walk s [] p = Ok () → s !! p ≠ Some ODir → Utf8.encode text = Ok bs →
  write_text p text (State s cons) = (Ok (), State (<[p := OFile bs]> s) cons).
Proof.
  intros Hw Hp Henc. unfold write_text.
  rewrite bind_run, open_w_cases, Hw.
  assert (Hgo : (bs ← lift (Utf8.encode text); put p (OFile bs))
                  (State (<[p := OFile []]> s) cons)
                = (Ok (), State (<[p := OFile bs]> s) cons)).
  { rewrite bind_run. unfold lift. rewrite Henc. unfold put. cbn [out console].
    by rewrite insert_insert_eq. }
  by destruct (s !! p) as [[d|]|].
Qed.

Lemma copy2_unreadable root src dst e σ :
  read_bytes root src = Raise e → copy2 root src dst σ = (Raise e, σ).
Proof.
  intros Hread. destruct σ as [s cons]. unfold copy2.
  rewrite bind_run, is_dir_run. rewrite bind_run. unfold lift. by rewrite Hread.
Qed.

Lemma copy_loop_raises root F p data :
  In (p, File false data) F →
  String.eqb (lower (suffix p)) ".exdf" = false →
  read_bytes root p = Raise PermissionError →
  ∀ k σ, ∃ e σ', copy_loop root F k σ = (Raise e, σ').
Proof.
  intros Hin Hsfx Hread.
  induction F as [|[p' n'] F IH]; intros k σ; [done|].
  cbn [copy_loop].
  destruct Hin as [[= -> ->]|Hin].
  - cbn [is_file]. rewrite Hsfx, bind_run.
    destruct (mkdir (parent p) σ) as [[[]|e] σ1]; [|by eexists _, _].
    rewrite bind_run, (copy2_unreadable _ _ _ _ _ Hread). by eexists _, _.
  - destruct (is_file n'); [|by apply IH].
    destruct (String.eqb (lower (suffix p')) _); [by apply IH|].
    rewrite bind_run. destruct (mkdir (parent p') σ) as [[[]|e] σ1]; [|by eexists _, _].
    rewrite bind_run. destruct (copy2 root p' p' σ1) as [[[]|e] σ2]; [|by eexists _, _].
    by apply IH.
Qed.



Lemma silent_copy_loop root F : ∀ k, silent (copy_loop root F k).
Proof.
  induction F as [|[p n] F IH]; intros k; cbn [copy_loop]; [apply silent_ret|].
  destruct (is_file n); [|apply IH].
  destruct (String.eqb _ _); [apply IH|].
  apply silent_bind; [apply silent_mkdir|]. intros _.
  apply silent_bind; [apply silent_copy2|]. intros _. apply IH.
Qed.

Section WithLibrary.
Context {lib : ET.Impl}.

(** X7: for a file whose decrypted bytes are UTF-8 and do not parse as
    XML, the bytes [decrypt_exdf_file] writes are the decrypted bytes
    themselves: the text is written as it was decoded. *)
Theorem transform_parse_error (data decrypted xml_string : list Z)
    (Hdec : decrypt_exdf data = Ok decrypted)
    (Hutf : Utf8.decode decrypted = Ok xml_string)
    (Hparse : ET.fromstring xml_string = Raise ParseError) :
  transform data = Ok decrypted.
Proof.
  unfold transform. rewrite Hdec. cbn. rewrite Hutf. cbn.
  unfold pretty_print_xml. rewrite Hparse. cbn.
  by apply (decode_encode_bounded (length decrypted)).
Qed.

(** X8: when the input can be read and transformed, the output folder is
    well formed, no regular file is at or above the parent of the output
    path and no directory is at the output path, [decrypt_exdf_file] prints
    nothing and returns [True]; afterwards the output path holds the
    transformed bytes, replacing a file that was there, every folder above
    it exists, every other entry is as it was, and the bytes written are
    UTF-8. *)
Theorem decrypt_exdf_file_writes (root : node) (input_path output_path : path)
    (data bs : list Z) (s : gmap path onode) (cons : list line)
    (Hread : read_bytes root input_path = Ok data)
    (Htransform : transform data = Ok bs)
    (Hwf : wf_store s)
    (Hne : output_path ≠ [])
    (Hfree : ∀ r d, r `prefix_of` parent output_path → s !! r ≠ Some (OFile d))
    (Hnodir : s !! output_path ≠ Some ODir) :
  ∃ s', decrypt_exdf_file root input_path output_path (State s cons)
          = (Ok true, State s' cons) ∧
    s' !! output_path = Some (OFile bs) ∧
    (∀ r, r `prefix_of` parent output_path → s' !! r = Some ODir) ∧
    (∀ r, ¬ r `prefix_of` output_path → s' !! r = s !! r) ∧
    ∃ formatted_xml, Utf8.decode bs = Ok formatted_xml.
Proof.
  destruct (exists_last Hne) as (par & c & ->). rewrite parent_snoc in *.
  unfold transform in Htransform.
  destruct (decrypt_exdf data) as [decrypted|] eqn:Hdec; [|done]. cbn in Htransform.
  destruct (Utf8.decode decrypted) as [xml_string|] eqn:Hutf; [|done]. cbn in Htransform.
  destruct (pretty_print_xml xml_string) as [formatted_xml|] eqn:Hfmt; [|done].
  cbn in Htransform.
  destruct (mkdir_spec par s cons Hwf Hfree) as (s1 & Hmk & Hwf1 & Hlook).
  assert (Hnot : ¬ par ++ [c] `prefix_of` par) by apply prefix_snoc_not.
  assert (Hwalk : walk s1 [] (par ++ [c]) = Ok ()).
  { apply walk_ok. intros k Hk. cbn [app]. rewrite length_app in Hk. cbn in Hk.
    rewrite take_app_le by lia. rewrite Hlook, decide_True; [done|apply prefix_take]. }
  assert (Hs1 : s1 !! (par ++ [c]) ≠ Some ODir) by by rewrite Hlook, decide_False.
  exists (<[par ++ [c] := OFile bs]> s1). split; [|split; [|split; [|split]]].
  - rewrite decrypt_exdf_file_run. unfold try_body. rewrite !bind_run. unfold lift.
    rewrite Hread, bind_run, Hdec, bind_run, Hutf, bind_run, Hfmt.
    rewrite parent_snoc, bind_run, Hmk, bind_run.
    by rewrite (write_text_over _ _ bs).
  - by rewrite lookup_insert_eq.
  - intros r Hr. rewrite lookup_insert_ne by by intros <-.
    by rewrite Hlook, decide_True.
  - intros r Hr. rewrite lookup_insert_ne by by intros <-.
    rewrite Hlook, decide_False; [done|].
    intros Hpre. apply Hr. by apply prefix_app_r.
  - exists formatted_xml. by apply encode_decode_all.
Qed.

(** X12: the copy loop has no [try]: when the input folder holds a regular
    file that cannot be read and whose lowered suffix is not [.exdf], [main]
    ends in an uncaught exception, the interpreter exits with status 1, and
    the last line printed is a rule or [Copying non-exdf files...], never the
    summary. *)
Theorem copy_failure_aborts (argv : list string) (root : node) (σ : state)
    (p : path) (data : list Z)
    (Hargv : length argv = 3%nat)
    (Hwf : wf_node root = true)
    (Hin : In (p, File false data) (rglob match_star root))
    (Hsfx : lower (suffix p) ≠ ".exdf"%string) :
  ∃ e σ', main argv (Some root) σ = (Raise e, σ') ∧
    exit_status (main argv (Some root) σ).1 = 1 ∧
    (List.last (console σ') LRule = LRule ∨ List.last (console σ') LRule = LCopying).
Proof.
  assert (Hread : read_bytes root p = Raise PermissionError).
  { unfold read_bytes. by rewrite (rglob_lookup _ _ _ _ Hwf Hin). }
  apply String.eqb_neq in Hsfx.
  assert (Hraise : ∃ e σ', main argv (Some root) σ = (Raise e, σ') ∧
    (List.last (console σ') LRule = LRule ∨ List.last (console σ') LRule = LCopying)).
  { rewrite main_run by done. cbv zeta. rewrite !print_bind, bind_run.
    match goal with |- context [mkdir [] ?σ0] =>
      pose proof (silent_mkdir [] σ0) as Hs1;
      destruct (mkdir [] σ0) as [[[]|e] σ1]
    end.
    2:{ eexists _, _. split; [done|]. left. cbn [snd console] in Hs1.
        rewrite Hs1. apply last_last. }
    rewrite bind_run.
    destruct (decrypt_loop_total root _ (rglob_exdf_named root) 0%nat 0%nat σ1)
      as (s' & f' & σ2 & lines & -> & _).
    rewrite !print_bind, bind_run.
    match goal with |- context [copy_loop root ?F 0%nat ?σ0] =>
      pose proof (silent_copy_loop root F 0%nat σ0) as Hs3;
      destruct (copy_loop_raises root F p data Hin Hsfx Hread 0%nat σ0)
        as (e & σ3 & Hc)
    end.
    rewrite Hc in Hs3 |- *. eexists _, _. split; [done|]. right.
    cbn [snd console] in Hs3. rewrite Hs3. apply last_last. }
  destruct Hraise as (e & σ' & Hrun & Hlast). exists e, σ'.
  split; [done|]. split; [by rewrite Hrun|done].
Qed.


(** X19: when the output folder is an existing regular file, [main]
    prints its three opening lines and ends in an uncaught
    [FileExistsError] raised by [mkdir], before any file is read; nothing is
    written. *)
Theorem main_output_is_file (argv : list string) (root : node) (σ : state)
    (d : list Z)
    (Hargv : length argv = 3%nat)
    (Hfile : out σ !! [] = Some (OFile d)) :
  main argv (Some root) σ =
  (Raise FileExistsError,
   State (out σ)
     (console σ ++
      [LFound (length (rglob match_star_exdf root)); LOutputDirectory; LRule])).
Proof.
  rewrite main_run by done. cbv zeta. rewrite !print_bind, bind_run.
  cbn [out console]. unfold mkdir. cbn [rev mkdir_rev]. unfold try_except.
  rewrite os_mkdir_run. cbn [walk]. rewrite Hfile.
  rewrite bind_run, is_dir_run. cbn [walk]. rewrite Hfile.
  rewrite length_fmap. by rewrite <- !app_assoc.
Qed.

(** X20: when the input path is a regular file, it passes the [exists]
    test, [rglob] finds nothing below it, and [main] creates the output
    folder, reports no file found, decrypted, failed or copied, and runs to
    its end. *)
Theorem main_input_is_file (argv : list string) (readable : bool) (data : list Z)
    (σ : state)
    (Hargv : length argv = 3%nat)
    (Hout : out σ = ∅ ∨ out σ !! [] = Some ODir) :
  main argv (Some (File readable data)) σ =
  (Ok Completed,
   State (<[ [] := ODir ]> (out σ))
     (console σ ++
      [LFound 0; LOutputDirectory; LRule; LRule; LCopying; LCopied 0; LRule;
       LDone 0 0 0])).
Proof.
  rewrite main_run by done. cbv zeta. rewrite !print_bind, bind_run.
  cbn [out console]. unfold mkdir. cbn [rev mkdir_rev]. unfold try_except.
  rewrite os_mkdir_run. cbn [walk].
  destruct Hout as [Hempty|Hdir].
  - rewrite Hempty, lookup_empty. cbn.
    cbv [mbind M_bind mret M_ret print out console]. by rewrite <- !app_assoc.
  - rewrite Hdir. rewrite bind_run, is_dir_run. cbn [walk]. rewrite Hdir.
    rewrite (insert_id (out σ) [] ODir Hdir). cbn.
    cbv [mbind M_bind mret M_ret print out console]. by rewrite <- !app_assoc.
Qed.

End WithLibrary.

Lemma transform_parse_error_witness :
  decrypt_exdf [0x43; 0xC3] = Ok [0x68; 0x69] ∧
  Utf8.decode [0x68; 0x69] = Ok (str_of "hi") ∧
  ET.fromstring (Impl := ET.reference) (str_of "hi") = Raise ParseError ∧
  transform (lib := ET.reference) [0x43; 0xC3] = Ok [0x68; 0x69].
Proof.
  do 3 (split; [reflexivity|]).
  exact (transform_parse_error (lib := ET.reference) [0x43; 0xC3] [0x68; 0x69]
           (str_of "hi") eq_refl eq_refl eq_refl).
Defined.

Lemma decrypt_exdf_file_writes_witness :
  read_bytes (Dir [("a.exdf", File true [0x43; 0xC3])]) ["a.exdf"] = Ok [0x43; 0xC3] ∧
  transform (lib := ET.reference) [0x43; 0xC3] = Ok [0x68; 0x69] ∧
  ∃ s', decrypt_exdf_file (lib := ET.reference)
          (Dir [("a.exdf", File true [0x43; 0xC3])]) ["a.exdf"] ["sub"; "a.xml"]
          (State ∅ []) = (Ok true, State s' []) ∧
        s' !! ["sub"; "a.xml"] = Some (OFile [0x68; 0x69]).
Proof.
  split; [reflexivity|]. split; [reflexivity|].
  destruct (decrypt_exdf_file_writes (lib := ET.reference)
              (Dir [("a.exdf", File true [0x43; 0xC3])]) ["a.exdf"] ["sub"; "a.xml"]
              [0x43; 0xC3] [0x68; 0x69] ∅ [] eq_refl eq_refl)
    as (s' & Hrun & Hfile & _).
  - intros q c [x Hx]. by rewrite lookup_empty in Hx.
  - discriminate.
  - intros r d _. by rewrite lookup_empty.
  - by rewrite lookup_empty.
  - by exists s'.
Defined.

Lemma copy_failure_aborts_witness :
  wf_node (Dir [("locked.txt", File false [])]) = true ∧
  In (["locked.txt"], File false []) (rglob match_star (Dir [("locked.txt", File false [])])) ∧
  ∃ e σ', main (lib := ET.reference) ["decrypt_exdf.py"; "in"; "out"]
            (Some (Dir [("locked.txt", File false [])])) (State ∅ []) = (Raise e, σ').
Proof.
  assert (Hin : In (["locked.txt"], File false [])
                  (rglob match_star (Dir [("locked.txt", File false [])])))
    by (by left).
  assert (Hsfx : lower (suffix ["locked.txt"]) ≠ ".exdf"%string) by (by vm_compute).
  split; [reflexivity|]. split; [exact Hin|].
  destruct (copy_failure_aborts (lib := ET.reference) ["decrypt_exdf.py"; "in"; "out"]
              (Dir [("locked.txt", File false [])]) (State ∅ []) ["locked.txt"] []
              eq_refl eq_refl Hin Hsfx) as (e & σ' & Hrun & _).
  by exists e, σ'.
Defined.


Lemma main_output_is_file_witness :
  length ["decrypt_exdf.py"; "in"; "out"] = 3%nat ∧
  out (State {[ [] := OFile [1] ]} []) !! [] = Some (OFile [1]) ∧
  main (lib := ET.reference) ["decrypt_exdf.py"; "in"; "out"]
    (Some (Dir [("a.exdf", File true [0x43; 0xC3])])) (State {[ [] := OFile [1] ]} [])
  = (Raise FileExistsError,
     State {[ [] := OFile [1] ]} [LFound 1; LOutputDirectory; LRule]).
Proof.
  split; [reflexivity|]. split; [reflexivity|].
  exact (main_output_is_file (lib := ET.reference) ["decrypt_exdf.py"; "in"; "out"]
           (Dir [("a.exdf", File true [0x43; 0xC3])]) (State {[ [] := OFile [1] ]} [])
           [1] eq_refl eq_refl).
Defined.

Lemma main_input_is_file_witness :
  length ["decrypt_exdf.py"; "a.exdf"; "out"] = 3%nat ∧
  main (lib := ET.reference) ["decrypt_exdf.py"; "a.exdf"; "out"]
    (Some (File true [0x43; 0xC3])) (State ∅ [])
  = (Ok Completed,
     State {[ [] := ODir ]}
       [LFound 0; LOutputDirectory; LRule; LRule; LCopying; LCopied 0; LRule;
        LDone 0 0 0]).
Proof.
  split; [reflexivity|].
  exact (main_input_is_file (lib := ET.reference) ["decrypt_exdf.py"; "a.exdf"; "out"]
           true [0x43; 0xC3] (State ∅ []) eq_refl (or_introl eq_refl)).
Defined.

(** *** An output path that is blocked *)

Lemma walk_hits_file s a : ∀ pre c b d,
  (∀ k, (k < length a)%nat → s !! (pre ++ take k a) = Some ODir) →
  s !! (pre ++ a) = Some (OFile d) →
  walk s pre (a ++ c :: b) = Raise NotADirectoryError.
Proof.
  induction a as [|x a IH]; intros pre c b d Hdirs Hfile.
  - rewrite app_nil_r in Hfile. cbn. by rewrite Hfile.
  - cbn [app walk]. specialize (Hdirs 0%nat ltac:(cbn; lia)) as H0.
    cbn in H0. rewrite app_nil_r in H0. rewrite H0.
    apply (IH _ c b d).
    + intros k Hk. rewrite <- app_assoc. apply (Hdirs (S k)). cbn. lia.
    + by rewrite <- app_assoc.
Qed.

(** [mkdir] below or at a regular file raises and changes nothing. *)
Lemma mkdir_blocked p q d s cons :
  wf_store s → q `prefix_of` p → s !! q = Some (OFile d) →
  ∃ e, (e = FileExistsError ∨ e = NotADirectoryError) ∧
    mkdir p (State s cons) = (Raise e, State s cons).
Proof.
  intros Hwf [rest ->] Hq. unfold mkdir. rewrite mkdir_rev_eq, rev_involutive.
  unfold try_except. rewrite os_mkdir_run.
  assert (Hanc : ∀ k, (k < length q)%nat → s !! ([] ++ take k q) = Some ODir).
  { intros k Hk. apply wf_store_ancestors; [done|by eexists|done]. }
  destruct rest as [|c rest].
  - rewrite app_nil_r. rewrite walk_ok by done. rewrite Hq.
    exists FileExistsError. split; [by left|].
    rewrite bind_run, is_dir_run, walk_ok by done. by rewrite Hq.
  - rewrite (walk_hits_file s q [] c rest d Hanc Hq).
    exists NotADirectoryError. split; [by right|].
    rewrite bind_run, is_dir_run. by rewrite (walk_hits_file s q [] c rest d Hanc Hq).
Qed.

Section WithLibrary.
Context {lib : ET.Impl}.

(** X9: when a regular file of the output folder sits at the parent of
    the output path or above it, [decrypt_exdf_file] returns [False], prints
    the file name with [FileExistsError] or [NotADirectoryError], and leaves
    the output folder as it was. *)
Theorem decrypt_exdf_file_blocked (root : node) (input_path output_path q : path)
    (data bs d : list Z) (s : gmap path onode) (cons : list line)
    (Hread : read_bytes root input_path = Ok data)
    (Htransform : transform data = Ok bs)
    (Hwf : wf_store s)
    (Hq : q `prefix_of` parent output_path)
    (Hfile : s !! q = Some (OFile d)) :
  ∃ e, (e = FileExistsError ∨ e = NotADirectoryError) ∧
    decrypt_exdf_file root input_path output_path (State s cons)
    = (Ok false, State s (cons ++ [LFailed (name input_path) e])).
Proof.
  unfold transform in Htransform.
  destruct (decrypt_exdf data) as [decrypted|] eqn:Hdec; [|done]. cbn in Htransform.
  destruct (Utf8.decode decrypted) as [xml_string|] eqn:Hutf; [|done]. cbn in Htransform.
  destruct (pretty_print_xml xml_string) as [formatted_xml|] eqn:Hfmt; [|done].
  destruct (mkdir_blocked _ q d s cons Hwf Hq Hfile) as (e & He & Hmk).
  exists e. split; [done|].
  rewrite decrypt_exdf_file_run. unfold try_body. rewrite !bind_run. unfold lift.
  rewrite Hread, bind_run, Hdec, bind_run, Hutf, bind_run, Hfmt.
  by rewrite bind_run, Hmk.
Qed.

End WithLibrary.

Lemma decrypt_exdf_file_blocked_witness :
  read_bytes (Dir [("a.exdf", File true [0x43; 0xC3])]) ["a.exdf"] = Ok [0x43; 0xC3] ∧
  transform (lib := ET.reference) [0x43; 0xC3] = Ok [0x68; 0x69] ∧
  ({[ [] := ODir; ["sub"] := OFile [1] ]} : gmap path onode) !! ["sub"] = Some (OFile [1]) ∧
  ∃ e, decrypt_exdf_file (lib := ET.reference)
         (Dir [("a.exdf", File true [0x43; 0xC3])]) ["a.exdf"] ["sub"; "a.xml"]
         (State {[ [] := ODir; ["sub"] := OFile [1] ]} [])
       = (Ok false, State {[ [] := ODir; ["sub"] := OFile [1] ]}
                      [LFailed "a.exdf" e]).
Proof.
  do 3 (split; [reflexivity|]).
  destruct (decrypt_exdf_file_blocked (lib := ET.reference)
              (Dir [("a.exdf", File true [0x43; 0xC3])]) ["a.exdf"] ["sub"; "a.xml"]
              ["sub"] [0x43; 0xC3] [0x68; 0x69] [1]
              {[ [] := ODir; ["sub"] := OFile [1] ]} [] eq_refl eq_refl)
    as (e & _ & Hrun).
  - intros q c [x Hx].
    rewrite lookup_insert_ne in Hx by by destruct q.
    apply lookup_singleton_Some in Hx as [Hx _].
    destruct q as [|a [|b q]]; [done|done|by destruct q].
  - done.
  - reflexivity.
  - by exists e.
Defined.

(** *** The same file once more *)

Lemma is_dir_true p s cons cons' s' :
  is_dir p (State s cons) = (Ok true, State s' cons') →
  walk s [] p = Ok () ∧ s !! p = Some ODir.
Proof.
  rewrite is_dir_run. destruct (walk s [] p) as [[]|e]; [|done].
  by destruct (s !! p) as [[d|]|].
Qed.

(** A directory that is there: [mkdir] returns and changes nothing. *)
Lemma mkdir_existing p s cons :
  walk s [] p = Ok () → s !! p = Some ODir →
  mkdir p (State s cons) = (Ok (), State s cons).
Proof.
  intros Hw Hp. unfold mkdir. rewrite mkdir_rev_eq, rev_involutive.
  unfold try_except. rewrite os_mkdir_run, Hw, Hp.
  by rewrite bind_run, is_dir_run, Hw, Hp.
Qed.

Lemma mkdir_here_ok_dir p σ σ' :
  mkdir_here p σ = (Ok (), σ') → out σ' !! p = Some ODir.
Proof.
  destruct σ as [s cons]. unfold mkdir_here, try_except. rewrite os_mkdir_run.
  destruct (walk s [] p) as [[]|e] eqn:Hw.
  - destruct (s !! p) as [n|] eqn:Hp.
    + rewrite bind_run, is_dir_run, Hw, Hp.
      destruct n; [done|]. intros [= <-]. done.
    + intros [= <-]. cbn. by rewrite lookup_insert_eq.
  - destruct e; try done; rewrite bind_run, is_dir_run, Hw; done.
Qed.

(** When [mkdir] returns, the directory is there. *)
Lemma mkdir_ok_dir p σ σ' : mkdir p σ = (Ok (), σ') → out σ' !! p = Some ODir.
Proof.
  destruct σ as [s cons]. unfold mkdir. rewrite mkdir_rev_eq, rev_involutive.
  unfold try_except. rewrite os_mkdir_run.
  destruct (walk s [] p) as [[]|e] eqn:Hw.
  - destruct (s !! p) as [n|] eqn:Hp.
    + rewrite bind_run, is_dir_run, Hw, Hp.
      destruct n; [done|]. intros [= <-]. done.
    + intros [= <-]. cbn. by rewrite lookup_insert_eq.
  - destruct e; try (rewrite bind_run, is_dir_run, Hw; done).
    destruct (rev p) as [|c rq] eqn:Hrev; [done|].
    rewrite bind_run. destruct (mkdir_rev rq _) as [[[]|e] σ1]; [|done].
    replace p with (rev (c :: rq)) by by rewrite <- Hrev, rev_involutive.
    apply mkdir_here_ok_dir.
Qed.

(** What a call of [write_text] that returns has done. *)
Lemma write_text_ok p text σ σ' :
  write_text p text σ = (Ok (), σ') →
  ∃ bs, Utf8.encode text = Ok bs ∧ walk (out σ) [] p = Ok () ∧
    out σ !! p ≠ Some ODir ∧
    σ' = State (<[p := OFile bs]> (out σ)) (console σ).
Proof.
  destruct σ as [s cons]. unfold write_text. rewrite bind_run, open_w_cases.
  cbn [out console].
  destruct (walk s [] p) as [[]|e]; [|done].
  assert (Hgo : (bs ← lift (Utf8.encode text); put p (OFile bs))
                  (State (<[p := OFile []]> s) cons) = (Ok (), σ') →
                ∃ bs, Utf8.encode text = Ok bs ∧
                  σ' = State (<[p := OFile bs]> s) cons).
  { rewrite bind_run. unfold lift. destruct (Utf8.encode text) as [bs|]; [|done].
    unfold put. cbn [out console]. rewrite insert_insert_eq.
    intros [= <-]. by exists bs. }
  destruct (s !! p) as [[d|]|]; [|done|].
  - intros (bs & Henc & ->)%Hgo. by exists bs.
  - intros (bs & Henc & ->)%Hgo. by exists bs.
Qed.

Section WithLibrary.
Context {lib : ET.Impl}.

(** X21: a call of [decrypt_exdf_file] that returned [True], made again
    with the same arguments in the state it left, returns [True] again,
    prints nothing and leaves the output folder as it is. *)
Theorem decrypt_exdf_file_again (root : node) (input_path output_path : path)
    (σ σ1 : state)
    (Hfirst : decrypt_exdf_file root input_path output_path σ = (Ok true, σ1)) :
  decrypt_exdf_file root input_path output_path σ1 = (Ok true, σ1).
Proof.
  rewrite decrypt_exdf_file_run in Hfirst |- *. unfold try_body in *.
  rewrite !bind_run in Hfirst |- *. unfold lift in *.
  destruct (read_bytes root input_path) as [data|]; [|done].
  rewrite bind_run in Hfirst |- *.
  destruct (decrypt_exdf data) as [decrypted|]; [|done].
  rewrite bind_run in Hfirst |- *.
  destruct (Utf8.decode decrypted) as [xml_string|]; [|done].
  rewrite bind_run in Hfirst |- *.
  destruct (pretty_print_xml xml_string) as [formatted_xml|]; [|done].
  rewrite bind_run in Hfirst |- *.
  destruct (mkdir (parent output_path) σ) as [[[]|e] [sm cm]] eqn:Hmk; [|done].
  apply mkdir_ok_dir in Hmk. cbn [out] in Hmk.
  rewrite bind_run in Hfirst.
  destruct (write_text output_path formatted_xml (State sm cm)) as [[[]|e] σ'] eqn:Hwr;
    [|done].
  injection Hfirst as ->.
  apply write_text_ok in Hwr as (bs & Henc & Hw & Hq & ->). cbn [out console] in *.
  assert (Hne : output_path ≠ []) by (by intros ->).
  destruct (exists_last Hne) as (par & c & ->). rewrite parent_snoc in *.
  assert (Hw1 : walk (<[par ++ [c] := OFile bs]> sm) [] (par ++ [c]) = Ok ()).
  { apply walk_ok. intros k Hk. rewrite lookup_insert_ne.
    - by apply (walk_inv sm [] (par ++ [c])).
    - cbn [app]. intros H. apply (f_equal length) in H.
      rewrite length_take in H. rewrite !length_app in H, Hk. cbn in H, Hk. lia. }
  assert (Hpar : (<[par ++ [c] := OFile bs]> sm) !! par = Some ODir).
  { rewrite lookup_insert_ne; [done|]. intros H. apply (f_equal length) in H.
    rewrite length_app in H. cbn in H. lia. }
  rewrite mkdir_existing; [| |done].
  2:{ apply walk_ok. intros k Hk. cbn [app].
      pose proof (walk_inv _ _ _ Hw1 k) as H. rewrite length_app in H. cbn [app] in H.
      rewrite take_app_le in H by lia. apply H. lia. }
  rewrite bind_run. unfold write_text. rewrite bind_run, open_w_cases, Hw1.
  rewrite lookup_insert_eq. rewrite bind_run. unfold lift. rewrite Henc.
  unfold put. cbn [out console]. by rewrite !insert_insert_eq.
Qed.

End WithLibrary.

Lemma decrypt_exdf_file_again_witness :
  decrypt_exdf_file (lib := ET.reference)
    (Dir [("a.exdf", File true [0x43; 0xC3])]) ["a.exdf"] ["sub"; "a.xml"] (State ∅ [])
  = (Ok true, State {[ [] := ODir; ["sub"] := ODir; ["sub"; "a.xml"] := OFile [0x68; 0x69] ]} []) ∧
  decrypt_exdf_file (lib := ET.reference)
    (Dir [("a.exdf", File true [0x43; 0xC3])]) ["a.exdf"] ["sub"; "a.xml"]
    (State {[ [] := ODir; ["sub"] := ODir; ["sub"; "a.xml"] := OFile [0x68; 0x69] ]} [])
  = (Ok true, State {[ [] := ODir; ["sub"] := ODir; ["sub"; "a.xml"] := OFile [0x68; 0x69] ]} []).
Proof.
  assert (H : decrypt_exdf_file (lib := ET.reference)
    (Dir [("a.exdf", File true [0x43; 0xC3])]) ["a.exdf"] ["sub"; "a.xml"] (State ∅ [])
  = (Ok true, State {[ [] := ODir; ["sub"] := ODir; ["sub"; "a.xml"] := OFile [0x68; 0x69] ]} []))
    by (by vm_compute).
  split; [exact H|].
  exact (decrypt_exdf_file_again (lib := ET.reference) _ _ _ _ _ H).
Defined.
End FileFacts.

(** ** What [rglob] finds *)

Module TreeFacts.
Import Pathlib Fs Script RunFacts MirrorFacts.

Lemma find_entry_some nm child entries :
  find_entry nm entries = Some child → In (nm, child) entries.
Proof.
  induction entries as [|[k n] entries IH]; [done|]. cbn [find_entry].
  destruct (String.eqb k nm) eqn:He.
  - apply String.eqb_eq in He as ->. intros [= ->]. by left.
  - intros H. right. by apply IH.
Qed.

(** Every directory below the folder is listed by [_iterate_directories]. *)
Lemma iterate_complete rel : ∀ n pre es,
  lookup_node n rel = Some (Dir es) → In (pre ++ rel, es) (_iterate_directories pre n).
Proof.
  induction rel as [|nm rel IH]; intros n pre es Hlook.
  - injection Hlook as ->. rewrite app_nil_r. by left.
  - cbn [lookup_node] in Hlook. destruct n as [|entries]; [done|].
    destruct (find_entry nm entries) as [child|] eqn:Hfind; [|done].
    cbn [mbind option_bind] in Hlook.
    cbn [_iterate_directories]. right. apply in_flat_map.
    exists (nm, child). split; [by apply find_entry_some|].
    replace (pre ++ nm :: rel) with ((pre ++ [nm]) ++ rel) by by rewrite <- app_assoc.
    by apply IH.
Qed.

Lemma rglob_complete matches root par nm n :
  lookup_node root (par ++ [nm]) = Some n → matches nm = true →
  In (par ++ [nm], n) (rglob matches root).
Proof.
  intros Hlook Hm. rewrite lookup_node_app in Hlook.
  destruct (lookup_node root par) as [[|es]|] eqn:Hpar; [done| |done].
  cbn in Hlook. destruct (find_entry nm es) as [child|] eqn:Hfind; [|done].
  cbn in Hlook. injection Hlook as ->.
  unfold rglob. apply in_flat_map. exists (par, es).
  split; [by apply (iterate_complete par root [])|].
  cbn [_select_from]. apply in_flat_map. exists (nm, n).
  split; [by apply find_entry_some|]. rewrite Hm. by left.
Qed.

(** The paths found below [pre]. *)
Lemma rglob_from_dir matches pre entries :
  flat_map (_select_from matches) (_iterate_directories pre (Dir entries))
  = _select_from matches (pre, entries) ++
    flat_map (λ e : string * node,
      flat_map (_select_from matches) (_iterate_directories (pre ++ [e.1]) e.2)) entries.
Proof.
  cbn [_iterate_directories flat_map]. f_equal.
  induction entries as [|[nm child] entries IH]; [done|].
  cbn [flat_map fst snd]. by rewrite flat_map_app, IH.
Qed.

Lemma rglob_from_below matches n : ∀ pre q c,
  In (q, c) (flat_map (_select_from matches) (_iterate_directories pre n)) →
  ∃ rel, rel ≠ [] ∧ q = pre ++ rel.
Proof.
  induction n as [r d|entries IH] using node_ind; intros pre q c Hin; [done|].
  rewrite rglob_from_dir in Hin. apply in_app_or in Hin as [Hin|Hin].
  - cbn [_select_from] in Hin. apply in_flat_map in Hin as [[nm child] [_ Hin]].
    destruct (matches nm); [|done]. destruct Hin as [[= <- <-]|[]]. by exists [nm].
  - apply in_flat_map in Hin as [[nm child] [Hent Hin]]. cbn [fst snd] in Hin.
    rewrite Forall_forall in IH.
    destruct (IH (nm, child) ltac:(by apply list_elem_of_In) _ _ _ Hin)
      as (rel & Hrel & ->).
    exists (nm :: rel). split; [done|]. by rewrite <- app_assoc.
Qed.

Lemma flat_map_bind {A B} (f : A → list B) (l : list A) : flat_map f l = l ≫= f.
Proof. induction l as [|x l IH]; [done|]. cbn. by rewrite IH. Qed.

Lemma fmap_flat_map {A B C} (g : B → C) (f : A → list B) (l : list A) :
  g <$> flat_map f l = flat_map (λ x, g <$> f x) l.
Proof. induction l as [|x l IH]; [done|]. cbn. by rewrite fmap_app, IH. Qed.

Lemma rglob_from_NoDup matches n : ∀ pre,
  wf_node n = true →
  NoDup (flat_map (_select_from matches) (_iterate_directories pre n)).*1.
Proof.
  induction n as [r d|entries IH] using node_ind; intros pre Hwf; [constructor|].
  cbn [wf_node] in Hwf. apply andb_prop in Hwf as [Hnd Hall].
  apply bool_decide_eq_true in Hnd. rewrite forallb_forall in Hall.
  rewrite rglob_from_dir, fmap_app. apply NoDup_app. split; [|split].
  - cbn [_select_from]. clear IH Hall.
    induction entries as [|[nm child] entries IHe]; [constructor|].
    cbn [flat_map]. cbn in Hnd. apply NoDup_cons in Hnd as [Hnm Hnd].
    rewrite fmap_app. apply NoDup_app. split; [|split; [|by apply IHe]].
    + destruct (matches nm); [apply NoDup_singleton|constructor].
    + intros q Hq Hq'. destruct (matches nm); [|by apply elem_of_nil in Hq].
      apply list_elem_of_singleton in Hq as ->.
      apply list_elem_of_fmap in Hq' as [[q c] [Hq Hin%list_elem_of_In]].
      apply in_flat_map in Hin as [[nm' child'] [Hent Hin]].
      destruct (matches nm'); [|done]. destruct Hin as [[= <- <-]|[]].
      cbn in Hq. apply app_inj_tail in Hq as [_ ->].
      apply Hnm. apply list_elem_of_fmap. exists (nm', child').
      split; [done|by apply list_elem_of_In].
  - intros q Hq Hq'.
    apply list_elem_of_fmap in Hq as [[q1 c1] [-> Hin1%list_elem_of_In]].
    apply list_elem_of_fmap in Hq' as [[q2 c2] [Heq Hin2%list_elem_of_In]].
    cbn [fst] in Heq. subst q2.
    cbn [_select_from] in Hin1. apply in_flat_map in Hin1 as [[nm child] [_ Hin1]].
    destruct (matches nm); [|done]. destruct Hin1 as [[= <- <-]|[]].
    apply in_flat_map in Hin2 as [[nm' child'] [_ Hin2]]. cbn [fst snd] in Hin2.
    apply rglob_from_below in Hin2 as (rel & Hrel & Heq).
    rewrite <- app_assoc in Heq. apply app_inv_head in Heq.
    injection Heq as _ Heq. by destruct rel.
  - rewrite fmap_flat_map, flat_map_bind. apply NoDup_bind.
    + intros [nm1 c1] [nm2 c2] q Hin1 Hin2 Hq1 Hq2. cbn [fst snd] in Hq1, Hq2.
      apply list_elem_of_fmap in Hq1 as [[q1 d1] [-> Hq1%list_elem_of_In]].
      apply list_elem_of_fmap in Hq2 as [[q2 d2] [Heq Hq2%list_elem_of_In]].
      cbn [fst] in Heq. subst q2.
      apply rglob_from_below in Hq1 as (rel1 & _ & ->).
      apply rglob_from_below in Hq2 as (rel2 & _ & Heq).
      rewrite <- !app_assoc in Heq. apply app_inv_head in Heq.
      injection Heq as -> _.
      assert (Hfind := find_entry_in nm2 c1 entries Hnd ltac:(by apply list_elem_of_In)).
      rewrite (find_entry_in nm2 c2 entries Hnd ltac:(by apply list_elem_of_In)) in Hfind.
      by injection Hfind as ->.
    + intros [nm child] Hin. cbn [fst snd]. rewrite Forall_forall in IH.
      apply (IH (nm, child) Hin). apply (Hall (nm, child)). by apply list_elem_of_In.
    + by apply NoDup_fmap_1 with fst.
Qed.

(** X14: in a folder whose directories hold distinct names, [rglob] finds
    exactly the entries below the folder whose name matches the pattern, each
    with what is at its path, and finds none of them twice. *)
Theorem rglob_exact (matches : string → bool) (root : node)
    (Hwf : wf_node root = true) :
  (∀ p n, In (p, n) (rglob matches root) ↔
     p ≠ [] ∧ lookup_node root p = Some n ∧ matches (name p) = true) ∧
  NoDup (rglob matches root).*1.
Proof.
  split; [|by apply rglob_from_NoDup].
  intros p n. split.
  - intros Hin. split; [|split].
    + apply rglob_matches in Hin as (par & nm & -> & _). by destruct par.
    + by apply (rglob_lookup matches).
    + apply rglob_matches in Hin as (par & nm & -> & Hm). by rewrite name_snoc.
  - intros (Hne & Hlook & Hm).
    destruct (exists_last Hne) as (par & nm & ->). rewrite name_snoc in Hm.
    by apply rglob_complete.
Qed.

Lemma rglob_exact_witness :
  wf_node (Dir [("a.exdf", File true [1]); ("d", Dir [("b.exdf", File true [2])])]) = true ∧
  In (["d"; "b.exdf"], File true [2])
     (rglob match_star_exdf
        (Dir [("a.exdf", File true [1]); ("d", Dir [("b.exdf", File true [2])])])).
Proof.
  split; [reflexivity|].
  apply (proj1 (rglob_exact match_star_exdf
    (Dir [("a.exdf", File true [1]); ("d", Dir [("b.exdf", File true [2])])]) eq_refl)).
  split; [discriminate|]. split; reflexivity.
Defined.
End TreeFacts.

(** ** Order and names *)

Module NameFacts.
Import Pathlib Fs Script RunFacts MirrorFacts.

Lemma compare_lt_trans a b c :
  String.compare a b = Lt → String.compare b c = Lt → String.compare a c = Lt.
Proof.
  intros H1 H2. apply OrderedTypeEx.String_as_OT.cmp_lt.
  eapply OrderedTypeEx.String_as_OT.lt_trans;
    by apply OrderedTypeEx.String_as_OT.cmp_lt.
Qed.

Lemma path_ltb_trans p : ∀ q r,
  path_ltb p q = true → path_ltb q r = true → path_ltb p r = true.
Proof.
  induction p as [|a p IH]; intros [|b q] [|c r]; cbn [path_ltb]; try done.
  destruct (String.compare a b) eqn:Hab; [| |done].
  - apply String.compare_eq_iff in Hab as ->.
    destruct (String.compare b c); [apply IH|done|done].
  - intros _. destruct (String.compare b c) eqn:Hbc; [| |done].
    + apply String.compare_eq_iff in Hbc as <-. by rewrite Hab.
    + by rewrite (compare_lt_trans a b c).
Qed.

Lemma path_ltb_asym p : ∀ q, path_ltb p q = true → path_ltb q p = false.
Proof.
  induction p as [|a p IH]; intros [|b q]; cbn [path_ltb]; try done.
  rewrite (String.compare_antisym b a).
  destruct (String.compare a b); cbn [CompOpp]; [apply IH|done|done].
Qed.

Lemma path_ltb_total p : ∀ q,
  path_ltb p q = false → path_ltb q p = false → p = q.
Proof.
  induction p as [|a p IH]; intros [|b q]; cbn [path_ltb]; try done.
  rewrite (String.compare_antisym b a).
  destruct (String.compare a b) eqn:Hab; cbn [CompOpp]; [|done|done].
  apply String.compare_eq_iff in Hab as ->. intros H1 H2. f_equal. by apply IH.
Qed.

(** [a] is not after [b]. *)
Lemma not_after_trans a b c :
  path_ltb b a = false → path_ltb c b = false → path_ltb c a = false.
Proof.
  intros Hab Hbc. destruct (path_ltb c a) eqn:Hca; [|done].
  destruct (path_ltb b c) eqn:Hbc'.
  - by rewrite (path_ltb_trans b c a Hbc' Hca) in Hab.
  - rewrite (path_ltb_total b c Hbc' Hbc) in Hab. congruence.
Qed.

Lemma insert_sorted_ordered x l :
  StronglySorted (λ a b, path_ltb b a = false) l →
  StronglySorted (λ a b, path_ltb b a = false) (insert_sorted x l).
Proof.
  induction 1 as [|y l Hl IH Hy]; cbn [insert_sorted].
  - repeat constructor.
  - destruct (path_ltb y x) eqn:Hyx.
    + constructor; [done|]. rewrite insert_sorted_perm.
      constructor; [by apply path_ltb_asym|done].
    + constructor; [by constructor|]. constructor; [done|].
      eapply Forall_impl; [exact Hy|]. intros z Hz. cbn in Hz.
      by apply (not_after_trans x y z).
Qed.

(** X15: [sorted] returns its argument rearranged, with no path after a
    later one: the first loop of [main] visits every matched path once, in
    ascending order. *)
Theorem sorted_ordered (l : list path) :
  StronglySorted (λ a b, path_ltb b a = false) (sorted l) ∧ sorted l ≡ₚ l.
Proof.
  split; [|apply sorted_perm].
  induction l as [|x l IH]; cbn; [constructor|by apply insert_sorted_ordered].
Qed.

(** X16: the output name of an entry matched by [*.exdf].  A name with a
    stem before [.exdf] gets the stem with [.xml], and the copy loop skips
    the entry.  The name [.exdf] itself has no suffix for [pathlib]: the
    output name is [.exdf.xml], and the copy loop does not skip the entry. *)
Theorem exdf_output_name (p : path) (Hm : match_star_exdf (name p) = true) :
  if String.eqb (name p) ".exdf"
  then with_suffix p ".xml" = Ok (parent p ++ [".exdf.xml"%string]) ∧
       suffix p = EmptyString
  else ∃ stem, stem ≠ EmptyString ∧ name p = stem +:+ ".exdf" ∧
         with_suffix p ".xml" = Ok (parent p ++ [stem +:+ ".xml"]) ∧
         lower (suffix p) = ".exdf"%string.
Proof.
  destruct (String.eqb (name p) ".exdf") eqn:Hname.
  - apply String.eqb_eq in Hname. unfold with_suffix, suffix. by rewrite Hname.
  - apply String.eqb_neq in Hname.
    destruct (with_suffix_exdf p Hm Hname) as (stem & Hstem & Hq).
    exists stem. split; [|split; [done|split; [done|]]].
    + intros ->. by rewrite Hstem in Hname.
    + by rewrite (suffix_exdf p Hm Hname).
Qed.

Lemma exdf_output_name_witness :
  match_star_exdf (name ["sub"; "data.v2.exdf"]) = true ∧
  ∃ stem, with_suffix ["sub"; "data.v2.exdf"] ".xml" = Ok (["sub"] ++ [stem +:+ ".xml"]).
Proof.
  split; [reflexivity|].
  destruct (exdf_output_name ["sub"; "data.v2.exdf"] eq_refl) as (stem & _ & _ & H & _).
  by exists stem.
Defined.

(** *** What the copy loop skips *)

Lemma rfind_dot_append (a b : string) :
  0 ≤ rfind_dot b → rfind_dot (a +:+ b) = len a + rfind_dot b.
Proof.
  intros Hb. induction a as [|x a IH]; [rewrite append_nil; unfold len; cbn; lia|].
  rewrite append_cons. cbn [rfind_dot]. rewrite IH. unfold len. cbn [String.length].
  destruct (0 <=? Z.of_nat (String.length a) + rfind_dot b) eqn:H; [lia|].
  apply Z.leb_gt in H. lia.
Qed.

Lemma lower_ascii_dot a : lower_ascii a = "."%char → a = "."%char.
Proof.
  destruct a as [[|] [|] [|] [|] [|] [|] [|] [|]]; vm_compute; intros H;
    try discriminate H; reflexivity.
Qed.

Lemma not_dot a : lower_ascii a ≠ "."%char → Ascii.eqb a "." = false.
Proof.
  intros H. destruct (Ascii.eqb a ".") eqn:He; [|done].
  apply Ascii.eqb_eq in He as ->. by destruct H.
Qed.

Lemma length_substring_0 (k : nat) : ∀ s : string,
  (k ≤ String.length s)%nat → String.length (substring 0 k s) = k.
Proof.
  induction k as [|k IH]; intros [|a s] Hk; cbn in *; try done; try lia.
  by rewrite IH by lia.
Qed.

(** X17: the copy loop skips an entry exactly when its name is a stem that
    is not empty followed by [.exdf] in any mix of upper and lower case. *)
Theorem copy_loop_skips (p : path) :
  lower (suffix p) = ".exdf"%string ↔
  ∃ stem ext, name p = stem +:+ ext ∧ stem ≠ EmptyString ∧ lower ext = ".exdf"%string.
Proof.
  unfold suffix. generalize (name p) as nm. intros nm. split.
  - destruct ((0 <? rfind_dot nm) && (rfind_dot nm <? len nm - 1)) eqn:Hc; [|done].
    apply andb_prop in Hc as [H0 H1]. apply Z.ltb_lt in H0, H1. unfold len in H1.
    intros Hlow. unfold slice_from in Hlow.
    set (k := Z.to_nat (rfind_dot nm)) in *.
    assert (Hk : (0 < k ≤ String.length nm)%nat) by lia.
    exists (substring 0 k nm), (substring k (String.length nm - k) nm).
    split; [apply substring_split; lia|]. split; [|done].
    intros Hs. apply (f_equal String.length) in Hs.
    rewrite length_substring_0 in Hs by lia. cbn in Hs. lia.
  - intros (stem & ext & -> & Hstem & Hlow).
    destruct ext as [|a0 [|a1 [|a2 [|a3 [|a4 [|a5 ext]]]]]]; try done.
    cbn [lower] in Hlow. injection Hlow as H0 H1 H2 H3 H4.
    apply lower_ascii_dot in H0 as ->.
    assert (Hr : rfind_dot (String "." (String a1 (String a2 (String a3 (String a4 ""))))) = 0).
    { cbn [rfind_dot]. rewrite !not_dot by congruence. done. }
    rewrite rfind_dot_append by lia. rewrite Hr, Z.add_0_r.
    unfold len. rewrite length_append. cbn [String.length].
    assert (Hlen : (0 < String.length stem)%nat) by (destruct stem; [done|cbn; lia]).
    replace ((0 <? Z.of_nat (String.length stem)) &&
             (Z.of_nat (String.length stem) <? Z.of_nat (String.length stem + 5) - 1))
      with true.
    2:{ symmetry. apply andb_true_intro. split; apply Z.ltb_lt; lia. }
    unfold slice_from. rewrite length_append, Nat2Z.id. cbn [String.length].
    replace (String.length stem + 5 - String.length stem)%nat with 5%nat by lia.
    rewrite substring_append_r. cbn [substring lower]. by rewrite H1, H2, H3, H4.
Qed.
End NameFacts.

(** ** Indentation *)

Module IndentFacts.
Import ET Script FormatFacts.

Lemma significant_set_tail e t :
  blank (tail e) = true → blank t = true →
  significant (set_tail e t) = significant e.
Proof.
  destruct e as [tg at_ tx cs tl]. cbn [tail set_tail significant]. by intros -> ->.
Qed.

Lemma blank_indentation level : blank (Some (indentation level)) = true.
Proof. apply indentation_blank. Qed.

Lemma significant_dedent_last ind cs :
  forallb is_space ind = true →
  map significant (dedent_last ind cs) = map significant cs.
Proof.
  intros Hind. induction cs as [|c cs IH]; [done|].
  destruct cs as [|c' cs].
  - cbn [dedent_last]. destruct (tail c) as [t|] eqn:Ht; [|done].
    destruct (forallb is_space t) eqn:Hb; [|done]. cbn [map]. f_equal.
    apply significant_set_tail; [by rewrite Ht|done].
  - change (dedent_last ind (c :: c' :: cs)) with (c :: dedent_last ind (c' :: cs)).
    cbn [map]. by rewrite IH.
Qed.

Lemma significant_indent_children e : ∀ level,
  significant (_indent_children level e) = significant e.
Proof.
  induction e as [tg at_ tx cs tl IH] using Element_ind. intros level.
  cbn [_indent_children significant].
  rewrite significant_dedent_last by apply indentation_blank.
  f_equal.
  - destruct (blank tx) eqn:Hb; [|by rewrite Hb]. by rewrite blank_indentation.
  - rewrite map_map. apply map_ext_Forall.
    eapply Forall_impl; [exact IH|]. intros c Hc. cbn beta.
    unfold indent_child.
    assert (Hin : significant match children c with
                              | [] => c | _ :: _ => _indent_children (S level) c end
                  = significant c).
    { destruct (children c); [done|apply Hc]. }
    destruct (blank _) eqn:Hb; [|done].
    rewrite significant_set_tail; [done|done|apply blank_indentation].
Qed.

(** X18: [ET.indent] changes white space only: the tags, the attributes,
    the children and every text and tail that is not white space are those
    of the tree it was given. *)
Theorem indent_keeps_content (tree : Element) :
  significant (indent tree) = significant tree.
Proof.
  unfold indent. destruct (children tree); [done|apply significant_indent_children].
Qed.

(** *** The layout *)

Lemma indented_set_tail level e t : indented level (set_tail e t) = indented level e.
Proof. by destruct e. Qed.

Lemma indented_leaf level e : children e = [] → indented level e = true.
Proof. destruct e as [tg at_ tx [|c cs] tl]; done. Qed.

Lemma forallb_dedent_last (P : Element → bool) ind cs :
  (∀ e t, P (set_tail e t) = P e) →
  forallb P (dedent_last ind cs) = forallb P cs.
Proof.
  intros HP. induction cs as [|c cs IH]; [done|].
  destruct cs as [|c' cs].
  - cbn [dedent_last]. destruct (tail c) as [t|]; [|done].
    destruct (forallb is_space t); [|done]. cbn. by rewrite HP.
  - rewrite dedent_last_cons by done. cbn [forallb]. by rewrite IH.
Qed.

Lemma length_dedent_last ind cs : length (dedent_last ind cs) = length cs.
Proof.
  induction cs as [|c cs IH]; [done|]. destruct cs as [|c' cs].
  - cbn [dedent_last]. destruct (tail c) as [t|]; [|done].
    by destruct (forallb is_space t).
  - rewrite dedent_last_cons by done. cbn [length]. by rewrite IH.
Qed.

Lemma tails_dedent_last ind ci cs :
  forallb is_space ci = true → cs ≠ [] →
  map tail cs = replicate (length cs) (Some ci) →
  map tail (dedent_last ind cs) = replicate (length cs - 1) (Some ci) ++ [Some ind].
Proof.
  intros Hci. induction cs as [|c cs IH]; [done|]. intros _ Htails.
  cbn [map length replicate] in Htails. injection Htails as Hc Hcs.
  destruct cs as [|c' cs].
  - cbn [dedent_last]. rewrite Hc, Hci. cbn. by rewrite tail_set_tail.
  - rewrite dedent_last_cons by done. cbn [map]. rewrite IH by done.
    rewrite Hc. cbn [length]. by replace (S (S (length cs)) - 1)%nat
      with (S (S (length cs) - 1)) by lia.
Qed.

Lemma tail_indent_child level ci c :
  blank (tail c) = true →
  tail (indent_child (_indent_children level) ci c) = Some ci.
Proof.
  intros Hb. rewrite indent_child_inner, tail_inner, Hb. apply tail_set_tail.
Qed.

Lemma indented_indent_child level ci c :
  indented level (indent_child (_indent_children level) ci c)
  = indented level (inner level c).
Proof.
  rewrite indent_child_inner. destruct (blank _); [apply indented_set_tail|done].
Qed.

Lemma indented_indent_children e : ∀ level,
  unmixed e = true → indented level (inner level e) = true.
Proof.
  induction e as [tg at_ tx cs tl IH] using Element_ind. intros level Hu.
  destruct cs as [|c0 cs0]; [done|].
  cbn [unmixed] in Hu. apply andb_prop in Hu as [Htx Hall].
  unfold inner. cbn [children _indent_children]. rewrite Htx.
  remember (c0 :: cs0) as cs eqn:Hcs.
  assert (Hne : cs ≠ []) by by rewrite Hcs.
  clear Hcs c0 cs0.
  set (step := indent_child (_indent_children (S level)) (indentation (S level))).
  set (l := dedent_last (indentation level) (map step cs)).
  assert (Hl : l ≠ []).
  { unfold l. rewrite dedent_last_nil. by destruct cs. }
  assert (Hlen : length l = length cs).
  { unfold l. by rewrite length_dedent_last, length_map. }
  assert (Htails : map tail l =
            replicate (length l - 1) (Some (indentation (S level))) ++
            [Some (indentation level)]).
  { rewrite Hlen. unfold l. rewrite <- (length_map step cs).
    apply tails_dedent_last; [apply indentation_blank|by destruct cs|].
    rewrite length_map. clear -Hall.
    induction cs as [|c cs IHc]; [done|]. cbn [forallb] in Hall.
    apply andb_prop in Hall as [Hc Hall]. apply andb_prop in Hc as [Hc _].
    cbn [map length replicate]. rewrite IHc by done. f_equal.
    by apply tail_indent_child. }
  assert (Hkids : forallb (indented (S level)) l = true).
  { unfold l. rewrite forallb_dedent_last by (intros; apply indented_set_tail).
    clear -IH Hall. induction IH as [|c cs Hc _ IHc]; [done|].
    cbn [forallb] in Hall. apply andb_prop in Hall as [H1 Hall].
    apply andb_prop in H1 as [_ Hu]. cbn [map forallb].
    rewrite IHc by done. unfold step at 1. rewrite indented_indent_child.
    by rewrite Hc. }
  clearbody l. destruct l as [|c1 l1]; [done|].
  cbn [indented]. rewrite Hkids, !bool_decide_eq_true_2; done.
Qed.

(** X22: on a tree without mixed content, [ET.indent] gives the layout
    one expects of a pretty-printer: in every element that has children the
    text, and what follows each child but the last, is a line break and two
    spaces for each level of the children; what follows the last child is a
    line break and two spaces for each level of the element. *)
Theorem indent_lays_out (tree : Element) (Hu : unmixed tree = true) :
  indented 0 (indent tree) = true.
Proof. by apply (indented_indent_children tree 0%nat). Qed.

Lemma indent_lays_out_witness :
  unmixed (Elem (str_of "a") [] None
             [Elem (str_of "b") [] (Some (str_of "x")) [] None;
              Elem (str_of "c") [] None [Elem (str_of "d") [] None [] None] None] None)
    = true ∧
  indent (Elem (str_of "a") [] None
            [Elem (str_of "b") [] (Some (str_of "x")) [] None;
             Elem (str_of "c") [] None [Elem (str_of "d") [] None [] None] None] None)
  = Elem (str_of "a") [] (Some [10; 32; 32])
      [Elem (str_of "b") [] (Some (str_of "x")) [] (Some [10; 32; 32]);
       Elem (str_of "c") [] (Some [10; 32; 32; 32; 32])
         [Elem (str_of "d") [] None [] (Some [10; 32; 32])] (Some [10])] None ∧
  indented 0 (indent (Elem (str_of "a") [] None
            [Elem (str_of "b") [] (Some (str_of "x")) [] None;
             Elem (str_of "c") [] None [Elem (str_of "d") [] None [] None] None] None))
    = true.
Proof.
  split; [reflexivity|]. split; [reflexivity|].
  exact (indent_lays_out
           (Elem (str_of "a") [] None
              [Elem (str_of "b") [] (Some (str_of "x")) [] None;
               Elem (str_of "c") [] None [Elem (str_of "d") [] None [] None] None] None)
           eq_refl).
Defined.
End IndentFacts.
